(** * simplesudoku: puzzle generator and deductive hint solver

    A shallow embedding of [src/lib/sudoku.ts] (the generator, its seeded
    random number generator, the grid checks and the scoring), of
    [src/lib/hints.ts] (the candidate calculator and the twelve hint
    detectors) and of the updates of grid and notes that
    [src/components/SudokuGame.tsx] makes when a number is placed, with
    the properties of the specification proved over it, followed by
    further properties of the same code: what the checks accept, what the
    generated puzzles satisfy, and which hints can be trusted.

    Conventions of the embedding.
    - A JavaScript array is a [list]; the read [a[i]] is stdpp's lookup
      [a !! i : option _], where [None] is JavaScript's [undefined].
      So [grid[i] !== 0] is [grid !! i ≠ Some 0] and [grid[i] === num] is
      [grid !! i = Some num]: a read outside the array is "not zero" and
      equal to no number, as in the source.
    - Cell indices, rows and columns are [nat]; cell values are [Z].
    - A JavaScript number that holds an integer is a [Z]. The seed, the
      index drawn for a shuffle and the score are computed in doubles:
      where a sum or a product can need more than the 53 bits of a
      double it is rounded, with [JS.roundDouble].
    - A JavaScript [Set<number>] is the list of its elements in insertion
      order, without repetition ([JS.set_add] keeps the first occurrence).
    - A [for] loop that returns from its body is [JS.firstSome] over the
      list of its iterations.
    - In the hint solver [candidates[i]] and [notes[i]] are read with the
      total lookup [!!!], whose value outside the array is the empty set:
      [candidates] always has 81 entries, and every read of [notes[i]] in
      the source treats [undefined] like an empty set ([notes[i]?.has(n)],
      [notes[i]?.size > 0], [cellNotes && cellNotes.size > 0]). *)

From stdpp Require Import base decidable option list numbers strings pretty.
From Stdlib Require Import ZArith Lia ZifyNat.

(** ** JavaScript runtime notions shared by both modules *)

Module JS.

Section sets.
Context {A : Type} `{EqDecision A}.

(** [s.add(x)]: insertion order is kept, a present element is not added. *)
Definition set_add (s : list A) (x : A) : list A :=
  if decide (x ∈ s) then s else s ++ [x].

(** [new Set(l)]. *)
Definition set_of_list (l : list A) : list A := foldl set_add [] l.

End sets.

(** [for (const x of l) { const r = f(x); if (r) return r; } return null]. *)
Fixpoint firstSome {A B : Type} (f : A → option B) (l : list A) : option B :=
  match l with
  | [] => None
  | x :: l' => match f x with Some r => Some r | None => firstSome f l' end
  end.

(** [const r = a; if (r) return r; ... b]: the first result if there is
    one, otherwise what follows. *)
Notation "a 'orElse' b" :=
  (match a with Some r => Some r | None => b end)
  (at level 62, right associativity, only parsing).

(** The pairs [(l[a], l[b])] with [a < b], in the order of the loops
    [for a ... for b = a + 1 ...]; likewise the triples. *)
Fixpoint pairs {A : Type} (l : list A) : list (A * A) :=
  match l with
  | [] => []
  | x :: l' => ((λ y, (x, y)) <$> l') ++ pairs l'
  end.

Fixpoint triples {A : Type} (l : list A) : list (A * A * A) :=
  match l with
  | [] => []
  | x :: l' => ((λ yz, (x, yz.1, yz.2)) <$> pairs l') ++ triples l'
  end.

(** [arr.join(', ')] on numbers. *)
Fixpoint join_with {A : Type} `{Pretty A} (sep : string) (l : list A) : string :=
  match l with
  | [] => ""
  | [x] => pretty x
  | x :: l' => pretty x +:+ sep +:+ join_with sep l'
  end.

(** [ToInt32] and [ToUint32] of an integral number. *)
Definition toInt32 (z : Z) : Z := ((z + 2 ^ 31) `mod` 2 ^ 32 - 2 ^ 31)%Z.
Definition toUint32 (z : Z) : Z := (z `mod` 2 ^ 32)%Z.

(** The 32-bit operators, each applying the conversions JavaScript applies. *)
Definition xor32 (a b : Z) : Z := toInt32 (Z.lxor (toInt32 a) (toInt32 b)).
Definition or32 (a b : Z) : Z := toInt32 (Z.lor (toInt32 a) (toInt32 b)).
Definition and32 (a b : Z) : Z := toInt32 (Z.land (toInt32 a) (toInt32 b)).
Definition shl32 (a : Z) (n : Z) : Z := toInt32 (Z.shiftl (toInt32 a) n).
Definition ushr32 (a : Z) (n : Z) : Z := Z.shiftr (toUint32 a) n.
Definition imul (a b : Z) : Z := toInt32 (toInt32 a * toInt32 b).

(** *** Numbers

    A JavaScript number is an IEEE 754 double. An integer is a double
    when it has at most 53 significant bits; [roundDouble z] is the
    integer with at most 53 significant bits nearest to [z], a tie going
    to the even significand: the result of an addition or multiplication
    whose exact value is the integer [z], short of overflow. *)
Definition roundDouble (z : Z) : Z :=
  let a := Z.abs z in
  let e := (Z.log2 a - 52)%Z in
  if decide (e ≤ 0)%Z then z else
  let q := (a / 2 ^ e)%Z in
  let r := (a `mod` 2 ^ e)%Z in
  let half := (2 ^ (e - 1))%Z in
  let q' :=
    if decide (r < half)%Z then q
    else if decide (half < r)%Z then (q + 1)%Z
    else if Z.even q then q else (q + 1)%Z in
  (Z.sgn z * (q' * 2 ^ e))%Z.

(** The values of the type [number]: [Dyadic n k] is the finite number
    [n / 2^k], every finite double being such a fraction. *)
Inductive number :=
  Dyadic (n : Z) (k : nat) | PlusInfinity | MinusInfinity | NaN.

#[global] Instance number_eq_dec : EqDecision number.
Proof. solve_decision. Defined.

(** The double nearest to [n / 2^k]: rounding to 53 significant bits
    does not depend on the scale, and a result of magnitude 2^1024 or
    more is an infinity. The numbers of the program are integers and
    halves, far above the smallest doubles, where this would not hold. *)
Definition double (n : Z) (k : nat) : number :=
  let r := roundDouble n in
  if decide (2 ^ (1024 + Z.of_nat k) ≤ r)%Z then PlusInfinity
  else if decide (r ≤ - 2 ^ (1024 + Z.of_nat k))%Z then MinusInfinity
  else Dyadic r k.

(** [x * y] *)
Definition mul (x y : number) : number :=
  match x, y with
  | NaN, _ | _, NaN => NaN
  | Dyadic n1 k1, Dyadic n2 k2 => double (n1 * n2) (k1 + k2)
  | Dyadic n _, PlusInfinity | PlusInfinity, Dyadic n _ =>
      if decide (n = 0)%Z then NaN
      else if decide (0 < n)%Z then PlusInfinity else MinusInfinity
  | Dyadic n _, MinusInfinity | MinusInfinity, Dyadic n _ =>
      if decide (n = 0)%Z then NaN
      else if decide (0 < n)%Z then MinusInfinity else PlusInfinity
  | PlusInfinity, PlusInfinity | MinusInfinity, MinusInfinity => PlusInfinity
  | PlusInfinity, MinusInfinity | MinusInfinity, PlusInfinity => MinusInfinity
  end.

(** [Math.floor(x)] *)
Definition floor (x : number) : number :=
  match x with
  | Dyadic n k => Dyadic (n / 2 ^ Z.of_nat k) 0
  | _ => x
  end.

End JS.

(** ** The generator ([src/lib/sudoku.ts]) *)

Module Sudoku.
Import JS.

Inductive Difficulty := easy | medium | hard | extreme.

Definition DIFFICULTY_CELLS (d : Difficulty) : nat :=
  match d with easy => 45 | medium => 35 | hard => 28 | extreme => 22 end.

(** *** Seeded random numbers (Mulberry32)

    [seed] is a JavaScript number holding an integer, as every seed the
    program makes is. [this.seed += c] is a floating-point addition: the
    new seed is the sum rounded to a double, which is the sum itself
    while it stays within 2^53 (about 4.9 million draws from a 32-bit
    seed). [next()] returns [u / 4294967296] for a 32-bit unsigned [u];
    the model returns the numerator [u]. *)
Record SeededRandom := { seed : Z }.

Definition next (rng : SeededRandom) : Z * SeededRandom :=
  let s := roundDouble (seed rng + 0x6D2B79F5) in
  let t := s in
  let t := imul (xor32 t (ushr32 t 15)) (or32 t 1) in
  let t := xor32 t (t + imul (xor32 t (ushr32 t 7)) (or32 t 61))%Z in
  (toUint32 (xor32 t (ushr32 t 14)), {| seed := s |}).

(** [dateStr.charCodeAt(i)] for every [i]; the strings of the model are
    sequences of 8-bit code units, which covers the dates [YYYY-MM-DD]. *)
Definition charCodes (s : string) : list Z :=
  (λ a, Z.of_N (Ascii.N_of_ascii a)) <$> String.list_ascii_of_string s.

Definition getDateSeed (dateStr : string) : Z :=
  Z.abs (foldl (λ hash char,
                  let hash := (shl32 hash 5 - hash + char)%Z in
                  and32 hash hash)
               0%Z (charCodes dateStr)).

(** [[result[i], result[j]] = [result[j], result[i]]]; both reads are inside
    the array at every call (j ≤ i < length). *)
Definition swap {T : Type} (result : list T) (i j : nat) : list T :=
  match result !! i, result !! j with
  | Some xi, Some xj => <[j:=xi]> (<[i:=xj]> result)
  | _, _ => result
  end.

(** [Math.floor(rng.next() * (i + 1))]: the product of [u / 2^32] and
    [i + 1] is the double nearest to [u * (i + 1) / 2^32], that is
    [roundDouble (u * (i + 1)) / 2^32] (the product itself below 2^53),
    and its floor the integer quotient. *)
Definition seededIndex (u : Z) (i : nat) : nat :=
  Z.to_nat (roundDouble (u * Z.of_nat (i + 1)) / 2 ^ 32)%Z.

(** The loop of [shuffleArraySeeded], from [i] down to 1. *)
Fixpoint shuffleSeededLoop {T : Type} (i : nat) (result : list T)
    (rng : SeededRandom) : list T * SeededRandom :=
  match i with
  | 0 => (result, rng)
  | S i' =>
      let '(u, rng) := next rng in
      let j := seededIndex u i in
      shuffleSeededLoop i' (swap result i j) rng
  end.

Definition shuffleArraySeeded {T : Type} (array : list T) (rng : SeededRandom)
  : list T * SeededRandom :=
  shuffleSeededLoop (length array - 1) array rng.

(** *** [Math.random]

    The unseeded source is outside the program: it is an oracle, a
    sequence of draws and the number of draws made so far. The value of
    [Math.floor(Math.random() * n)], for [n ≥ 1], is an index below [n];
    every sequence of such indices is the behaviour of some oracle. *)
Record MathRandom := { source : nat → nat; drawn : nat }.

Definition randomBelow (n : nat) (m : MathRandom) : nat * MathRandom :=
  (source m (drawn m) `mod` n, {| source := source m; drawn := S (drawn m) |}).

Fixpoint shuffleLoop {T : Type} (i : nat) (result : list T) (m : MathRandom)
  : list T * MathRandom :=
  match i with
  | 0 => (result, m)
  | S i' =>
      let '(j, m) := randomBelow (i + 1) m in
      shuffleLoop i' (swap result i j) m
  end.

Definition shuffleArray {T : Type} (array : list T) (m : MathRandom)
  : list T * MathRandom :=
  shuffleLoop (length array - 1) array m.

(** *** Backtracking *)

Definition canPlace (grid : list Z) (row col : nat) (num : Z) : bool :=
  forallb (λ c, bool_decide (grid !! (row * 9 + c) ≠ Some num)) (seq 0 9) &&
  forallb (λ r, bool_decide (grid !! (r * 9 + col) ≠ Some num)) (seq 0 9) &&
  let boxRow := row `div` 3 * 3 in
  let boxCol := col `div` 3 * 3 in
  forallb (λ r,
    forallb (λ c,
      bool_decide (grid !! ((boxRow + r) * 9 + (boxCol + c)) ≠ Some num))
      (seq 0 3)) (seq 0 3).

(** The local [canPlaceSeeded] of [generateSeededGrid], a copy of
    [canPlace] closed over the grid. *)
Definition canPlaceSeeded (grid : list Z) (row col : nat) (num : Z) : bool :=
  forallb (λ c, bool_decide (grid !! (row * 9 + c) ≠ Some num)) (seq 0 9) &&
  forallb (λ r, bool_decide (grid !! (r * 9 + col) ≠ Some num)) (seq 0 9) &&
  let boxRow := row `div` 3 * 3 in
  let boxCol := col `div` 3 * 3 in
  forallb (λ r,
    forallb (λ c,
      bool_decide (grid !! ((boxRow + r) * 9 + (boxCol + c)) ≠ Some num))
      (seq 0 3)) (seq 0 3).

Definition oneToNine : list Z := [1; 2; 3; 4; 5; 6; 7; 8; 9]%Z.

(** The two [solve] closures differ only in the shuffle and in the copy
    of [canPlace] they call. The grid they mutate and the random source
    they draw from are threaded through. [fuel] bounds the depth of the
    recursion; the calls below give 81, one per cell, and [solve] is
    proved never to run out. *)
Section solve.
Context {R : Type}.
Variable shuffleDigits : R → list Z * R.
Variable place : list Z → nat → nat → Z → bool.

(** [for (const num of numbers) { if (place(grid, row, col, num)) {
    grid[pos] = num; if (solve(pos + 1)) return true; grid[pos] = 0; } }
    return false], where [deeper] is the call [solve(pos + 1)]. *)
Fixpoint tryNumbers (deeper : list Z → R → bool * list Z * R)
    (row col pos : nat) (numbers : list Z) (grid : list Z) (r : R)
  : bool * list Z * R :=
  match numbers with
  | [] => (false, grid, r)
  | num :: numbers' =>
      if place grid row col num then
        let '(ok, grid, r) := deeper (<[pos:=num]> grid) r in
        if ok then (true, grid, r)
        else tryNumbers deeper row col pos numbers' (<[pos:=0%Z]> grid) r
      else tryNumbers deeper row col pos numbers' grid r
  end.

Fixpoint solve (fuel : nat) (pos : nat) (grid : list Z) (r : R)
  : bool * list Z * R :=
  if decide (pos = 81) then (true, grid, r) else
  match fuel with
  | 0 => (false, grid, r)
  | S fuel' =>
      let row := pos `div` 9 in
      let col := pos `mod` 9 in
      let '(numbers, r) := shuffleDigits r in
      tryNumbers (solve fuel' (pos + 1)) row col pos numbers grid r
  end.

End solve.

Definition generateCompleteGrid (m : MathRandom) : list Z * MathRandom :=
  let '(_, grid, m) :=
    solve (shuffleArray oneToNine) canPlace 81 0 (replicate 81 0%Z) m in
  (grid, m).

Definition generateSeededGrid (rng : SeededRandom) : list Z * SeededRandom :=
  let '(_, grid, rng) :=
    solve (shuffleArraySeeded oneToNine) canPlaceSeeded 81 0
          (replicate 81 0%Z) rng in
  (grid, rng).

(** *** Validation *)

(** The innermost loop body of [isValidGrid] over the cells of one unit,
    with the set [seen]. *)
Fixpoint noRepeat (grid : list Z) (seen : list (option Z)) (cells : list nat)
  : bool :=
  match cells with
  | [] => true
  | i :: cells' =>
      let val := grid !! i in
      if decide (val ≠ Some 0%Z) then
        if decide (val ∈ seen) then false
        else noRepeat grid (set_add seen val) cells'
      else noRepeat grid seen cells'
  end.

Definition isValidGrid (grid : list Z) : bool :=
  forallb (λ row,
    noRepeat grid [] ((λ col, row * 9 + col) <$> seq 0 9)) (seq 0 9) &&
  forallb (λ col,
    noRepeat grid [] ((λ row, row * 9 + col) <$> seq 0 9)) (seq 0 9) &&
  forallb (λ boxRow,
    forallb (λ boxCol,
      noRepeat grid []
        (r ← seq 0 3; c ← seq 0 3;
         [(boxRow * 3 + r) * 9 + (boxCol * 3 + c)])) (seq 0 3)) (seq 0 3).

(** *** Puzzles *)

Record Puzzle := { puzzle : list Z; solution : list Z }.

(** [for (const pos of positions) { if (removed >= cellsToRemove) break;
    puzzle[pos] = 0; removed++; }] *)
Fixpoint removeCells (positions : list nat) (removed cellsToRemove : nat)
    (puzzle : list Z) : list Z :=
  match positions with
  | [] => puzzle
  | pos :: positions' =>
      if decide (cellsToRemove ≤ removed) then puzzle
      else removeCells positions' (S removed) cellsToRemove (<[pos:=0%Z]> puzzle)
  end.

(** [createPuzzle] calls itself when the generated grid fails
    [isValidGrid]; [fuel] bounds the number of such attempts and [None]
    is running out of it. *)
Fixpoint createPuzzle (fuel : nat) (difficulty : Difficulty) (m : MathRandom)
  : option (Puzzle * MathRandom) :=
  match fuel with
  | 0 => None
  | S fuel' =>
      let '(solution, m) := generateCompleteGrid m in
      if negb (isValidGrid solution) then createPuzzle fuel' difficulty m
      else
        let cellsToReveal := DIFFICULTY_CELLS difficulty in
        let cellsToRemove := 81 - cellsToReveal in
        let '(positions, m) := shuffleArray (seq 0 81) m in
        Some ({| puzzle := removeCells positions 0 cellsToRemove solution;
                 solution := solution |}, m)
  end.

Record DailyPuzzle :=
  { dailyPuzzle : list Z; dailySolution : list Z; date : string }.

Definition createDailyPuzzleFromSolution (solution : list Z)
    (rng : SeededRandom) (dateStr : string) (difficulty : Difficulty)
  : DailyPuzzle :=
  let cellsToReveal := DIFFICULTY_CELLS difficulty in
  let cellsToRemove := 81 - cellsToReveal in
  let '(positions, _) := shuffleArraySeeded (seq 0 81) rng in
  {| dailyPuzzle := removeCells positions 0 cellsToRemove solution;
     dailySolution := solution;
     date := dateStr |}.

Definition createDailyPuzzle (dateStr : string) (difficulty : Difficulty)
  : DailyPuzzle :=
  let seed := getDateSeed dateStr in
  let rng := {| seed := seed |} in
  let '(solution, rng) := generateSeededGrid rng in
  if negb (isValidGrid solution) then
    let rng2 := {| seed := seed + 1 |} in
    let '(solution2, rng2) := generateSeededGrid rng2 in
    createDailyPuzzleFromSolution solution2 rng2 dateStr difficulty
  else createDailyPuzzleFromSolution solution rng dateStr difficulty.

Definition getRowIndices (row : nat) : list nat :=
  (λ i, row * 9 + i) <$> seq 0 9.

Definition getColIndices (col : nat) : list nat :=
  (λ i, i * 9 + col) <$> seq 0 9.

Definition getBoxIndices (boxRow boxCol : nat) : list nat :=
  r ← seq 0 3; c ← seq 0 3; [(boxRow * 3 + r) * 9 + (boxCol * 3 + c)].

(** *** Gameplay checks *)

(** [nextInt(min, max)] for integers [min] and [max]: each sum and
    product is rounded to a double (short of overflow). The product of
    [u / 2^32] and [n] is the double nearest to [u * n / 2^32], that is
    [roundDouble (u * n) / 2^32], and its floor the integer quotient. *)
Definition nextInt (min max : Z) (rng : SeededRandom) : Z * SeededRandom :=
  let '(u, rng) := next rng in
  let n := roundDouble (roundDouble (max - min) + 1) in
  (roundDouble (roundDouble (u * n) / 2 ^ 32 + min), rng).

Definition isValidPlacement (grid : list Z) (index : nat) (num : Z) : bool :=
  let row := index `div` 9 in
  let col := index `mod` 9 in
  forallb (λ c,
    negb (bool_decide (c ≠ col ∧ grid !! (row * 9 + c) = Some num)))
    (seq 0 9) &&
  forallb (λ r,
    negb (bool_decide (r ≠ row ∧ grid !! (r * 9 + col) = Some num)))
    (seq 0 9) &&
  let boxRow := row `div` 3 * 3 in
  let boxCol := col `div` 3 * 3 in
  forallb (λ r,
    forallb (λ c,
      let idx := (boxRow + r) * 9 + (boxCol + c) in
      negb (bool_decide (idx ≠ index ∧ grid !! idx = Some num)))
      (seq 0 3)) (seq 0 3).

(** [values] holds the reads [grid[i]], an [undefined] read included, that
    are not 0. *)
Definition isGroupComplete (grid : list Z) (indices : list nat) : bool :=
  let values :=
    filter (λ v, v ≠ Some 0%Z) ((λ i, grid !! i) <$> indices) in
  if decide (length values ≠ 9) then false
  else bool_decide (length (set_of_list values) = 9).

(** [grid.every((val, i) => val === solution[i])] *)
Definition isPuzzleSolved (grid solution : list Z) : bool :=
  forallb (λ iv : nat * Z, bool_decide (solution !! iv.1 = Some iv.2))
          (imap pair grid).

(** *** Scoring

    [combo] is a number holding an integer, as the combo of the game is;
    the multipliers are the doubles 1, 1.5, 2 and 3. *)
Definition DIFFICULTY_MULTIPLIER (d : Difficulty) : number :=
  match d with
  | easy => Dyadic 1 0
  | medium => Dyadic 3 1
  | hard => Dyadic 2 0
  | extreme => Dyadic 3 0
  end.

Definition calculateScore (combo : Z) (difficulty : Difficulty) : number :=
  let basePoints := Dyadic 10 0 in
  let multiplier := DIFFICULTY_MULTIPLIER difficulty in
  floor (mul (mul basePoints (Dyadic combo 0)) multiplier).

Definition getDifficultyMultiplier (difficulty : Difficulty) : number :=
  DIFFICULTY_MULTIPLIER difficulty.

End Sudoku.

(** ** The hint solver ([src/lib/hints.ts]) *)

Module Hints.
Import JS.

Definition digits : list Z := [1; 2; 3; 4; 5; 6; 7; 8; 9]%Z.

Record CellInfo := { row : nat; col : nat; boxRow : nat; boxCol : nat }.

Definition getCellInfo (index : nat) : CellInfo :=
  let row := index `div` 9 in
  let col := index `mod` 9 in
  {| row := row; col := col; boxRow := row `div` 3; boxCol := col `div` 3 |}.

Definition getRowIndices (row : nat) : list nat :=
  (λ i, row * 9 + i) <$> seq 0 9.

Definition getColIndices (col : nat) : list nat :=
  (λ i, i * 9 + col) <$> seq 0 9.

Definition getBoxIndices (boxRow boxCol : nat) : list nat :=
  r ← seq 0 3; c ← seq 0 3; [(boxRow * 3 + r) * 9 + (boxCol * 3 + c)].

Definition cellsSeeEachOther (a b : nat) : bool :=
  let infoA := getCellInfo a in
  let infoB := getCellInfo b in
  bool_decide (row infoA = row infoB) ||
  bool_decide (col infoA = col infoB) ||
  (bool_decide (boxRow infoA = boxRow infoB) &&
   bool_decide (boxCol infoA = boxCol infoB)).

(** The body of the three [forEach] calls of [getPossibleValues]:
    [if (grid[i] !== 0) used.add(grid[i])]. *)
Definition addUsed (grid : list Z) (used : list (option Z)) (i : nat)
  : list (option Z) :=
  if decide (grid !! i ≠ Some 0%Z) then set_add used (grid !! i) else used.

Definition getPossibleValues (grid : list Z) (index : nat) : list Z :=
  if decide (grid !! index ≠ Some 0%Z) then [] else
  let info := getCellInfo index in
  let used := foldl (addUsed grid) [] (getRowIndices (row info)) in
  let used := foldl (addUsed grid) used (getColIndices (col info)) in
  let used :=
    foldl (addUsed grid) used (getBoxIndices (boxRow info) (boxCol info)) in
  filter (λ n, Some n ∉ used) digits.

Definition getCandidates (grid : list Z) (notes : list (list Z)) (index : nat)
  : list Z :=
  if decide (grid !! index ≠ Some 0%Z) then [] else
  let possible := getPossibleValues grid index in
  match notes !! index with
  | Some cellNotes =>
      if decide (0 < length cellNotes)
      then filter (λ n, n ∈ cellNotes) possible
      else possible
  | None => possible
  end.

Definition getAllCandidates (grid : list Z) (notes : list (list Z))
  : list (list Z) :=
  (λ i, set_of_list (getCandidates grid notes i)) <$> seq 0 81.

(** *** Hints *)

(** ['target' | 'eliminator' | 'pair' | 'triple' | 'affected'] *)
Inductive HighlightType := Target | Eliminator | Pair | Triple | Affected.

(** The optional field [number] of a highlight is never set by the solver. *)
Record HintHighlight := { cells : list nat; type : HighlightType }.

(** An entry of [eliminatedNumbers] is [(number, reason)], the number being
    a value read from the grid ([None] is [undefined]); an entry of
    [notesToRemove] is [(cell, number)]; [notesToRemove := None] is a hint
    without that field. *)
Record Hint := {
  cellIndex : nat;
  value : Z;
  technique : string;
  explanation : string;
  highlights : list HintHighlight;
  eliminatedNumbers : list (option Z * string);
  notesToRemove : option (list (nat * Z))
}.

Record Elimination := { number : option Z; reason : string; cell : nat }.

(** The body of the three [forEach] calls of [getEliminationInfo]. *)
Definition addElimination (grid : list Z) (why : string)
    (st : list (option Z) * list Elimination) (i : nat)
  : list (option Z) * list Elimination :=
  if decide (grid !! i ≠ Some 0%Z ∧ grid !! i ∉ st.1)
  then (set_add st.1 (grid !! i),
        st.2 ++ [{| number := grid !! i; reason := why; cell := i |}])
  else st.

Definition getEliminationInfo (grid : list Z) (index : nat) : list Elimination :=
  let info := getCellInfo index in
  let st := ([], []) in
  let st :=
    foldl (addElimination grid ("row " +:+ pretty (row info + 1))) st
          (getRowIndices (row info)) in
  let st :=
    foldl (addElimination grid ("column " +:+ pretty (col info + 1))) st
          (getColIndices (col info)) in
  let boxNumber := boxRow info * 3 + boxCol info + 1 in
  let st :=
    foldl (addElimination grid ("box " +:+ pretty boxNumber)) st
          (getBoxIndices (boxRow info) (boxCol info)) in
  st.2.

(** **** Beginner techniques *)

(** The block of [findLastFreeCell] for one unit; [unitText] is
    [Row 3], [Column 3] or [Box 3]. [if (value)] holds for a defined,
    non-zero number. *)
Definition lastFreeCellIn (grid : list Z) (candidates : list (list Z))
    (indices : list nat) (unitText : string) : option Hint :=
  match filter (λ i, grid !! i = Some 0%Z) indices with
  | [cell] =>
      match head (candidates !!! cell) with
      | Some value =>
          if decide (value ≠ 0%Z) then
            Some {|
              cellIndex := cell;
              value := value;
              technique := "Last Free Cell";
              explanation :=
                unitText +:+ " has only one empty cell. The missing number is "
                +:+ pretty value +:+ ".";
              highlights :=
                [ {| cells := [cell]; type := Target |};
                  {| cells := filter (λ i, grid !! i ≠ Some 0%Z) indices;
                     type := Eliminator |} ];
              eliminatedNumbers := [];
              notesToRemove := None |}
          else None
      | None => None
      end
  | _ => None
  end.

Definition findLastFreeCell (grid : list Z) (candidates : list (list Z))
  : option Hint :=
  firstSome (λ row,
    lastFreeCellIn grid candidates (getRowIndices row)
      ("Row " +:+ pretty (row + 1))) (seq 0 9)
  orElse
  firstSome (λ col,
    lastFreeCellIn grid candidates (getColIndices col)
      ("Column " +:+ pretty (col + 1))) (seq 0 9)
  orElse
  firstSome (λ boxRow,
    firstSome (λ boxCol,
      lastFreeCellIn grid candidates (getBoxIndices boxRow boxCol)
        ("Box " +:+ pretty (boxRow * 3 + boxCol + 1))) (seq 0 3)) (seq 0 3).

(** The body of the loop of [findNakedSingle] for the cell [i]. *)
Definition nakedSingleAt (grid : list Z) (candidates : list (list Z)) (i : nat)
  : option Hint :=
  if decide (grid !! i ≠ Some 0%Z) then None else
  if decide (length (candidates !!! i) = 1) then
    match head (candidates !!! i) with
    | None => None
    | Some value =>
        let elimInfo := getEliminationInfo grid i in
        let info := getCellInfo i in
        Some {|
          cellIndex := i;
          value := value;
          technique := "Naked Single";
          explanation :=
            "Cell R" +:+ pretty (row info + 1) +:+ "C" +:+ pretty (col info + 1)
            +:+ " can only be " +:+ pretty value
            +:+ ". All other numbers are blocked.";
          highlights :=
            [ {| cells := [i]; type := Target |};
              {| cells := set_of_list (cell <$> elimInfo);
                 type := Eliminator |} ];
          eliminatedNumbers :=
            (λ e, (number e, "in " +:+ reason e)) <$> elimInfo;
          notesToRemove := None |}
    end
  else None.

Definition findNakedSingle (grid : list Z) (candidates : list (list Z))
  : option Hint :=
  firstSome (nakedSingleAt grid candidates) (seq 0 81).

(** The block of [findHiddenSingle] for one unit; [text num cell] is the
    explanation. *)
Definition hiddenSingleIn (grid : list Z) (candidates : list (list Z))
    (indices : list nat) (text : Z → nat → string) : option Hint :=
  firstSome (λ num,
    if decide (Exists (λ i, grid !! i = Some num) indices) then None else
    match filter (λ i, num ∈ candidates !!! i) indices with
    | [cell] =>
        Some {|
          cellIndex := cell;
          value := num;
          technique := "Hidden Single";
          explanation := text num cell;
          highlights :=
            [ {| cells := [cell]; type := Target |};
              {| cells :=
                   filter (λ i, i ≠ cell ∧ grid !! i = Some 0%Z) indices;
                 type := Affected |} ];
          eliminatedNumbers := [];
          notesToRemove := None |}
    | _ => None
    end) digits.

Definition findHiddenSingle (grid : list Z) (candidates : list (list Z))
  : option Hint :=
  firstSome (λ row,
    hiddenSingleIn grid candidates (getRowIndices row)
      (λ num cell,
         "In row " +:+ pretty (row + 1) +:+ ", " +:+ pretty num
         +:+ " can only go at column " +:+ pretty (col (getCellInfo cell) + 1)
         +:+ ". Other cells are blocked.")) (seq 0 9)
  orElse
  firstSome (λ col,
    hiddenSingleIn grid candidates (getColIndices col)
      (λ num cell,
         "In column " +:+ pretty (col + 1) +:+ ", " +:+ pretty num
         +:+ " can only go at row " +:+ pretty (row (getCellInfo cell) + 1)
         +:+ ". Other cells are blocked.")) (seq 0 9)
  orElse
  firstSome (λ boxRow,
    firstSome (λ boxCol,
      hiddenSingleIn grid candidates (getBoxIndices boxRow boxCol)
        (λ num cell,
           "In box " +:+ pretty (boxRow * 3 + boxCol + 1) +:+ ", "
           +:+ pretty num +:+ " can only go at R"
           +:+ pretty (row (getCellInfo cell) + 1) +:+ "C"
           +:+ pretty (col (getCellInfo cell) + 1)
           +:+ ". Other cells are blocked.")) (seq 0 3)) (seq 0 3).

(** **** Invalid notes *)

(** The body of the loop of [findInvalidNotes] for the cell [i].
    [notes !!! i] is the note set of the cell, empty when [notes[i]] is
    [undefined]. *)
Definition invalidNotesAt (grid : list Z) (notes : list (list Z)) (i : nat)
  : option Hint :=
  if decide (grid !! i ≠ Some 0%Z) then None else
  let cellNotes := notes !!! i in
  if decide (length cellNotes = 0) then None else
  let possible := getPossibleValues grid i in
  let invalidNotes := filter (λ note, note ∉ possible) cellNotes in
  let eliminatorCells :=
    omap (λ note,
            cell <$> head (filter (λ e, number e = Some note)
                                  (getEliminationInfo grid i)))
         invalidNotes in
  if decide (0 < length invalidNotes) then
    let info := getCellInfo i in
    Some {|
      cellIndex := i;
      value := 0;
      technique := "Invalid Notes";
      explanation :=
        "Notes {" +:+ join_with ", " invalidNotes +:+ "} at R"
        +:+ pretty (row info + 1) +:+ "C" +:+ pretty (col info + 1)
        +:+ " are blocked. Remove them.";
      highlights :=
        [ {| cells := [i]; type := Target |};
          {| cells := set_of_list eliminatorCells; type := Eliminator |} ];
      eliminatedNumbers := (λ n, (Some n, "blocked")) <$> invalidNotes;
      notesToRemove := Some ((λ n, (i, n)) <$> invalidNotes) |}
  else None.

Definition findInvalidNotes (grid : list Z) (notes : list (list Z))
    (candidates : list (list Z)) : option Hint :=
  firstSome (invalidNotesAt grid notes) (seq 0 81).

(** **** Intermediate techniques *)

(** The three loops that end [findNakedPairs], [findNakedTriples],
    [findHiddenPairs] and [findHiddenTriples]: rows, then columns, then
    boxes, each unit with its name. *)
Definition scanUnits (checkUnit : list nat → string → option Hint)
  : option Hint :=
  firstSome (λ row,
    checkUnit (getRowIndices row) ("row " +:+ pretty (row + 1))) (seq 0 9)
  orElse
  firstSome (λ col,
    checkUnit (getColIndices col) ("column " +:+ pretty (col + 1))) (seq 0 9)
  orElse
  firstSome (λ boxRow,
    firstSome (λ boxCol,
      checkUnit (getBoxIndices boxRow boxCol)
        ("box " +:+ pretty (boxRow * 3 + boxCol + 1))) (seq 0 3)) (seq 0 3).

(** [affected.flatMap(cell => ...)] of the naked pair and triple checks:
    the numbers of [nums] the player noted in the affected cells. *)
Definition notedIn (notes : list (list Z)) (nums : list Z)
    (affected : list nat) : list (nat * Z) :=
  cell ← affected;
  let cellNotes := notes !!! cell in
  if decide (length cellNotes = 0) then []
  else (λ n, (cell, n)) <$> filter (λ n, n ∈ cellNotes) nums.

(** [checkUnit] of [findNakedPairs]. *)
Definition nakedPairsUnit (grid : list Z) (candidates notes : list (list Z))
    (indices : list nat) (unitName : string) : option Hint :=
  let emptyCells :=
    filter (λ i, grid !! i = Some 0%Z ∧ length (candidates !!! i) = 2)
           indices in
  firstSome (λ ab : nat * nat,
    let cellA := ab.1 in
    let cellB := ab.2 in
    let candsA := candidates !!! cellA in
    let candsB := candidates !!! cellB in
    match candsA, candsB with
    | [a0; a1], [b0; b1] =>
        if decide (a0 = b0 ∧ a1 = b1) then
          let pairNums := candsA in
          let affected :=
            filter (λ i, i ≠ cellA ∧ i ≠ cellB ∧ grid !! i = Some 0%Z ∧
                         (a0 ∈ candidates !!! i ∨ a1 ∈ candidates !!! i))
                   indices in
          let notesToRemove := notedIn notes pairNums affected in
          if decide (0 < length notesToRemove) then
            Some {|
              cellIndex := cellA;
              value := 0;
              technique := "Naked Pairs";
              explanation :=
                "Cells form a naked pair with {" +:+ join_with ", " pairNums
                +:+ "} in " +:+ unitName
                +:+ ". These numbers can be removed from other cells.";
              highlights :=
                [ {| cells := [cellA; cellB]; type := Pair |};
                  {| cells := filter (λ c, 0 < length (notes !!! c)) affected;
                     type := Affected |} ];
              eliminatedNumbers :=
                (λ n, (Some n, "forms naked pair")) <$> pairNums;
              notesToRemove := Some notesToRemove |}
          else None
        else None
    | _, _ => None
    end) (pairs emptyCells).

Definition findNakedPairs (grid : list Z) (candidates notes : list (list Z))
  : option Hint :=
  scanUnits (nakedPairsUnit grid candidates notes).

(** [checkUnit] of [findNakedTriples]. *)
Definition nakedTriplesUnit (grid : list Z) (candidates notes : list (list Z))
    (indices : list nat) (unitName : string) : option Hint :=
  let emptyCells :=
    filter (λ i, grid !! i = Some 0%Z ∧ 2 ≤ length (candidates !!! i)
                 ∧ length (candidates !!! i) ≤ 3) indices in
  firstSome (λ abc : nat * nat * nat,
    let cells3 := [abc.1.1; abc.1.2; abc.2] in
    let allCands := set_of_list (c ← cells3; candidates !!! c) in
    if decide (length allCands = 3) then
      let tripleNums := allCands in
      let affected :=
        filter (λ i, (i ∉ cells3) ∧ grid !! i = Some 0%Z ∧
                     Exists (λ n, n ∈ candidates !!! i) tripleNums)
               indices in
      let notesToRemove := notedIn notes tripleNums affected in
      if decide (0 < length notesToRemove) then
        Some {|
          cellIndex := abc.1.1;
          value := 0;
          technique := "Naked Triples";
          explanation :=
            "Three cells form a naked triple with {"
            +:+ join_with ", " tripleNums +:+ "} in " +:+ unitName
            +:+ ". Remove these from other cells.";
          highlights :=
            [ {| cells := cells3; type := Triple |};
              {| cells := filter (λ c, 0 < length (notes !!! c)) affected;
                 type := Affected |} ];
          eliminatedNumbers :=
            (λ n, (Some n, "forms naked triple")) <$> tripleNums;
          notesToRemove := Some notesToRemove |}
      else None
    else None) (triples emptyCells).

Definition findNakedTriples (grid : list Z) (candidates notes : list (list Z))
  : option Hint :=
  scanUnits (nakedTriplesUnit grid candidates notes).

(** The [toRemove] list of the hidden pair and triple checks: the notes
    of the pattern's cells that are legal values and not among [keep]. *)
Definition otherNotes (grid : list Z) (notes : list (list Z)) (keep : list Z)
    (patternCells : list nat) : list (nat * Z) :=
  cell ← patternCells;
  let cellNotes := notes !!! cell in
  if decide (0 < length cellNotes) then
    (λ n, (cell, n)) <$>
      filter (λ n, (n ∉ keep) ∧ n ∈ getPossibleValues grid cell) cellNotes
  else [].

(** [checkUnit] of [findHiddenPairs]. *)
Definition hiddenPairsUnit (grid : list Z) (candidates notes : list (list Z))
    (indices : list nat) (unitName : string) : option Hint :=
  let emptyCells := filter (λ i, grid !! i = Some 0%Z) indices in
  firstSome (λ n12 : Z * Z,
    let n1 := n12.1 in
    let n2 := n12.2 in
    let cellsWithN1 := filter (λ i, n1 ∈ candidates !!! i) emptyCells in
    let cellsWithN2 := filter (λ i, n2 ∈ candidates !!! i) emptyCells in
    match cellsWithN1, cellsWithN2 with
    | [p0; p1], [q0; q1] =>
        if decide (p0 = q0 ∧ p1 = q1) then
          let pairCells := cellsWithN1 in
          let toRemove := otherNotes grid notes [n1; n2] pairCells in
          if decide (0 < length toRemove) then
            Some {|
              cellIndex := p0;
              value := 0;
              technique := "Hidden Pairs";
              explanation :=
                "{" +:+ pretty n1 +:+ ", " +:+ pretty n2
                +:+ "} can only go in these two cells in " +:+ unitName
                +:+ ". Remove other candidates from them.";
              highlights := [ {| cells := pairCells; type := Pair |} ];
              eliminatedNumbers :=
                (λ t : nat * Z, (Some t.2, "hidden pair")) <$> toRemove;
              notesToRemove := Some toRemove |}
          else None
        else None
    | _, _ => None
    end) (pairs digits).

Definition findHiddenPairs (grid : list Z) (candidates notes : list (list Z))
  : option Hint :=
  scanUnits (hiddenPairsUnit grid candidates notes).

(** [checkUnit] of [findHiddenTriples]. *)
Definition hiddenTriplesUnit (grid : list Z) (candidates notes : list (list Z))
    (indices : list nat) (unitName : string) : option Hint :=
  let emptyCells := filter (λ i, grid !! i = Some 0%Z) indices in
  firstSome (λ n123 : Z * Z * Z,
    let n1 := n123.1.1 in
    let n2 := n123.1.2 in
    let n3 := n123.2 in
    let cellsWithAny :=
      filter (λ i, n1 ∈ candidates !!! i ∨ n2 ∈ candidates !!! i
                   ∨ n3 ∈ candidates !!! i) emptyCells in
    match cellsWithAny with
    | [c0; c1; c2] =>
        let toRemove := otherNotes grid notes [n1; n2; n3] cellsWithAny in
        if decide (0 < length toRemove) then
          Some {|
            cellIndex := c0;
            value := 0;
            technique := "Hidden Triples";
            explanation :=
              "{" +:+ pretty n1 +:+ ", " +:+ pretty n2 +:+ ", " +:+ pretty n3
              +:+ "} can only go in these three cells in " +:+ unitName
              +:+ ". Remove other candidates.";
            highlights := [ {| cells := cellsWithAny; type := Triple |} ];
            eliminatedNumbers :=
              (λ t : nat * Z, (Some t.2, "hidden triple")) <$> toRemove;
            notesToRemove := Some toRemove |}
        else None
    | _ => None
    end) (triples digits).

Definition findHiddenTriples (grid : list Z) (candidates notes : list (list Z))
  : option Hint :=
  scanUnits (hiddenTriplesUnit grid candidates notes).

(** [affected.filter(cell => notes[cell]?.has(num))], the cells whose notes
    the pointing, wing and fish eliminations touch. *)
Definition notedCells (notes : list (list Z)) (num : Z) (affected : list nat)
  : list nat :=
  filter (λ cell, num ∈ notes !!! cell) affected.

(** One direction of the body of [findPointingPairs]: the cells of the
    box that can hold [num] lie on one line, the row or the column
    ([lineKind]) of index [line], with cells [lineIndices]. *)
Definition pointingAlong (candidates notes : list (list Z))
    (boxIndices : list nat) (boxNum : nat) (num : Z)
    (cellsWithNum : list nat) (first : nat)
    (lineKind : string) (line : nat) (lineIndices : list nat) : option Hint :=
  let affected :=
    filter (λ i, (i ∉ boxIndices) ∧ num ∈ candidates !!! i) lineIndices in
  let notesToRemove := (λ cell, (cell, num)) <$> notedCells notes num affected in
  if decide (0 < length notesToRemove) then
    Some {|
      cellIndex := first;
      value := 0;
      technique :=
        if decide (length cellsWithNum = 2) then "Pointing Pairs"
        else "Pointing Triples";
      explanation :=
        pretty num +:+ " in box " +:+ pretty boxNum +:+ " is limited to "
        +:+ lineKind +:+ " " +:+ pretty (line + 1) +:+ ". Remove "
        +:+ pretty num +:+ " from other cells in this " +:+ lineKind +:+ ".";
      highlights :=
        [ {| cells := cellsWithNum;
             type := if decide (length cellsWithNum = 2) then Pair else Triple |};
          {| cells := notedCells notes num affected; type := Affected |} ];
      eliminatedNumbers :=
        [(Some num, "pointing from box " +:+ pretty boxNum)];
      notesToRemove := Some notesToRemove |}
  else None.

(** The body of the innermost loop of [findPointingPairs]. The guards
    [rowIter.done] and [colIter.done] cannot hold for a set of size 1. *)
Definition pointingAt (grid : list Z) (candidates notes : list (list Z))
    (boxRow boxCol : nat) (num : Z) : option Hint :=
  let boxIndices := getBoxIndices boxRow boxCol in
  let boxNum := boxRow * 3 + boxCol + 1 in
  if decide (Exists (λ i, grid !! i = Some num) boxIndices) then None else
  let cellsWithNum := filter (λ i, num ∈ candidates !!! i) boxIndices in
  if decide (length cellsWithNum < 2 ∨ 3 < length cellsWithNum) then None else
  match cellsWithNum with
  | [] => None
  | first :: _ =>
      match set_of_list ((λ i, row (getCellInfo i)) <$> cellsWithNum) with
      | [row] =>
          pointingAlong candidates notes boxIndices boxNum num cellsWithNum
            first "row" row (getRowIndices row)
      | _ => None
      end
      orElse
      match set_of_list ((λ i, col (getCellInfo i)) <$> cellsWithNum) with
      | [col] =>
          pointingAlong candidates notes boxIndices boxNum num cellsWithNum
            first "column" col (getColIndices col)
      | _ => None
      end
  end.

Definition findPointingPairs (grid : list Z) (candidates notes : list (list Z))
  : option Hint :=
  firstSome (λ boxRow,
    firstSome (λ boxCol,
      firstSome (pointingAt grid candidates notes boxRow boxCol) digits)
      (seq 0 3)) (seq 0 3).

(** **** Advanced techniques *)

(** The part of the body of [findXWing] that looks at rows. *)
Definition xWingRows (candidates notes : list (list Z)) (num : Z)
  : option Hint :=
  firstSome (λ row1,
    let row1Cells :=
      filter (λ i, num ∈ candidates !!! i) (getRowIndices row1) in
    match row1Cells with
    | [x0; x1] =>
        let cols := (λ i, col (getCellInfo i)) <$> row1Cells in
        firstSome (λ row2,
          let row2Cells :=
            filter (λ i, num ∈ candidates !!! i) (getRowIndices row2) in
          match row2Cells with
          | [y0; y1] =>
              if decide (col (getCellInfo x0) = col (getCellInfo y0) ∧
                         col (getCellInfo x1) = col (getCellInfo y1)) then
                let xWingCells := row1Cells ++ row2Cells in
                let affected :=
                  c ← cols;
                  filter (λ i, (i ∉ xWingCells) ∧ num ∈ candidates !!! i)
                         (getColIndices c) in
                let notesToRemove :=
                  (λ cell, (cell, num)) <$> notedCells notes num affected in
                if decide (0 < length notesToRemove) then
                  Some {|
                    cellIndex := x0;
                    value := 0;
                    technique := "X-Wing";
                    explanation :=
                      "X-Wing on " +:+ pretty num +:+ " in rows "
                      +:+ pretty (row1 + 1) +:+ " & " +:+ pretty (row2 + 1)
                      +:+ ", columns " +:+ pretty (col (getCellInfo x0) + 1)
                      +:+ " & " +:+ pretty (col (getCellInfo x1) + 1)
                      +:+ ". Remove " +:+ pretty num
                      +:+ " from other cells in these columns.";
                    highlights :=
                      [ {| cells := xWingCells; type := Pair |};
                        {| cells := notedCells notes num affected;
                           type := Affected |} ];
                    eliminatedNumbers := [(Some num, "X-Wing elimination")];
                    notesToRemove := Some notesToRemove |}
                else None
              else None
          | _ => None
          end) (seq (row1 + 1) (8 - row1))
    | _ => None
    end) (seq 0 9).

(** The part of the body of [findXWing] that looks at columns. *)
Definition xWingCols (candidates notes : list (list Z)) (num : Z)
  : option Hint :=
  firstSome (λ col1,
    let col1Cells :=
      filter (λ i, num ∈ candidates !!! i) (getColIndices col1) in
    match col1Cells with
    | [x0; x1] =>
        let rows := (λ i, row (getCellInfo i)) <$> col1Cells in
        firstSome (λ col2,
          let col2Cells :=
            filter (λ i, num ∈ candidates !!! i) (getColIndices col2) in
          match col2Cells with
          | [y0; y1] =>
              if decide (row (getCellInfo x0) = row (getCellInfo y0) ∧
                         row (getCellInfo x1) = row (getCellInfo y1)) then
                let xWingCells := col1Cells ++ col2Cells in
                let affected :=
                  r ← rows;
                  filter (λ i, (i ∉ xWingCells) ∧ num ∈ candidates !!! i)
                         (getRowIndices r) in
                let notesToRemove :=
                  (λ cell, (cell, num)) <$> notedCells notes num affected in
                if decide (0 < length notesToRemove) then
                  Some {|
                    cellIndex := x0;
                    value := 0;
                    technique := "X-Wing";
                    explanation :=
                      "X-Wing on " +:+ pretty num +:+ " in columns "
                      +:+ pretty (col1 + 1) +:+ " & " +:+ pretty (col2 + 1)
                      +:+ ", rows " +:+ pretty (row (getCellInfo x0) + 1)
                      +:+ " & " +:+ pretty (row (getCellInfo x1) + 1)
                      +:+ ". Remove " +:+ pretty num
                      +:+ " from other cells in these rows.";
                    highlights :=
                      [ {| cells := xWingCells; type := Pair |};
                        {| cells := notedCells notes num affected;
                           type := Affected |} ];
                    eliminatedNumbers := [(Some num, "X-Wing elimination")];
                    notesToRemove := Some notesToRemove |}
                else None
              else None
          | _ => None
          end) (seq (col1 + 1) (8 - col1))
    | _ => None
    end) (seq 0 9).

Definition findXWing (grid : list Z) (candidates notes : list (list Z))
  : option Hint :=
  firstSome (λ num,
    xWingRows candidates notes num orElse xWingCols candidates notes num)
    digits.

(** One of the two checks of [findYWing] for a pivot with candidates
    [a], [b] and two wings: [wing1] holds [x] and [wing2] holds [y], where
    [(x, y)] is [(a, b)] in the first check and [(b, a)] in the second. *)
Definition yWingCheck (grid : list Z) (candidates notes : list (list Z))
    (pivot wing1 wing2 : nat) (a b x y : Z) : option Hint :=
  if decide (x ∈ candidates !!! wing1 ∧ y ∈ candidates !!! wing2) then
    let c1 := head (filter (λ n, n ≠ x) (candidates !!! wing1)) in
    let c2 := head (filter (λ n, n ≠ y) (candidates !!! wing2)) in
    match c1 with
    | Some c =>
        if decide (c1 = c2) then
          let affected :=
            filter (λ i, i ≠ pivot ∧ i ≠ wing1 ∧ i ≠ wing2 ∧
                         grid !! i = Some 0%Z ∧ c ∈ candidates !!! i ∧
                         cellsSeeEachOther i wing1 ∧ cellsSeeEachOther i wing2)
                   (seq 0 81) in
          let notesToRemove :=
            (λ cell, (cell, c)) <$> notedCells notes c affected in
          if decide (0 < length notesToRemove) then
            Some {|
              cellIndex := pivot;
              value := 0;
              technique := "Y-Wing";
              explanation :=
                "Y-Wing: Pivot has {" +:+ pretty a +:+ "," +:+ pretty b
                +:+ "}, wings have {" +:+ pretty x +:+ "," +:+ pretty c
                +:+ "} and {" +:+ pretty y +:+ "," +:+ pretty c
                +:+ "}. Cells seeing both wings cannot have " +:+ pretty c
                +:+ ".";
              highlights :=
                [ {| cells := [pivot]; type := Target |};
                  {| cells := [wing1; wing2]; type := Pair |};
                  {| cells := notedCells notes c affected; type := Affected |} ];
              eliminatedNumbers := [(Some c, "Y-Wing elimination")];
              notesToRemove := Some notesToRemove |}
          else None
        else None
    | None => None
    end
  else None.

Definition findYWing (grid : list Z) (candidates notes : list (list Z))
  : option Hint :=
  let biValueCells :=
    filter (λ i, grid !! i = Some 0%Z ∧ length (candidates !!! i) = 2)
           (seq 0 81) in
  firstSome (λ pivot,
    match candidates !!! pivot with
    | [a; b] =>
        let wings :=
          filter (λ cell, cell ≠ pivot ∧ cellsSeeEachOther pivot cell ∧
                          bool_decide (a ∈ candidates !!! cell)
                          ≠ bool_decide (b ∈ candidates !!! cell))
                 biValueCells in
        firstSome (λ w : nat * nat,
          yWingCheck grid candidates notes pivot w.1 w.2 a b a b
          orElse yWingCheck grid candidates notes pivot w.1 w.2 a b b a)
          (pairs wings)
    | _ => None
    end) biValueCells.

(** The lines (rows or columns) of [findSwordfish] on which [num] has two
    or three places, each with the positions of these places across it. *)
Definition linesWithNum (candidates : list (list Z)) (num : Z)
    (lineIndices : nat → list nat) (across : nat → nat)
  : list (nat * list nat) :=
  omap (λ line,
          let places :=
            across <$> filter (λ i, num ∈ candidates !!! i) (lineIndices line) in
          if decide (2 ≤ length places ∧ length places ≤ 3)
          then Some (line, places) else None) (seq 0 9).

(** The part of the body of [findSwordfish] that looks at rows.
    [swordfishCells[0]] is defined: the first row has a place in one of
    the three columns. *)
Definition swordfishRows (candidates notes : list (list Z)) (num : Z)
  : option Hint :=
  let rowsWithNum :=
    linesWithNum candidates num getRowIndices (λ i, col (getCellInfo i)) in
  firstSome (λ t : (nat * list nat) * (nat * list nat) * (nat * list nat),
    let allCols := set_of_list (t.1.1.2 ++ t.1.2.2 ++ t.2.2) in
    if decide (length allCols = 3) then
      let rows := [t.1.1.1; t.1.2.1; t.2.1] in
      let cols := allCols in
      let swordfishCells :=
        row ← rows;
        filter (λ idx, num ∈ candidates !!! idx)
               ((λ col, row * 9 + col) <$> cols) in
      let affected :=
        col ← cols;
        filter (λ i, (i ∉ swordfishCells) ∧ num ∈ candidates !!! i)
               (getColIndices col) in
      let notesToRemove :=
        (λ cell, (cell, num)) <$> notedCells notes num affected in
      if decide (0 < length notesToRemove) then
        Some {|
          cellIndex := default 0 (head swordfishCells);
          value := 0;
          technique := "Swordfish";
          explanation :=
            "Swordfish on " +:+ pretty num +:+ " in rows "
            +:+ join_with ", " ((λ r, r + 1) <$> rows) +:+ " and columns "
            +:+ join_with ", " ((λ c, c + 1) <$> cols) +:+ ". Remove "
            +:+ pretty num +:+ " from other cells in these columns.";
          highlights :=
            [ {| cells := swordfishCells; type := Triple |};
              {| cells := notedCells notes num affected; type := Affected |} ];
          eliminatedNumbers := [(Some num, "Swordfish elimination")];
          notesToRemove := Some notesToRemove |}
      else None
    else None) (triples rowsWithNum).

(** The part of the body of [findSwordfish] that looks at columns. *)
Definition swordfishCols (candidates notes : list (list Z)) (num : Z)
  : option Hint :=
  let colsWithNum :=
    linesWithNum candidates num getColIndices (λ i, row (getCellInfo i)) in
  firstSome (λ t : (nat * list nat) * (nat * list nat) * (nat * list nat),
    let allRows := set_of_list (t.1.1.2 ++ t.1.2.2 ++ t.2.2) in
    if decide (length allRows = 3) then
      let cols := [t.1.1.1; t.1.2.1; t.2.1] in
      let rows := allRows in
      let swordfishCells :=
        row ← rows;
        filter (λ idx, num ∈ candidates !!! idx)
               ((λ col, row * 9 + col) <$> cols) in
      let affected :=
        row ← rows;
        filter (λ i, (i ∉ swordfishCells) ∧ num ∈ candidates !!! i)
               (getRowIndices row) in
      let notesToRemove :=
        (λ cell, (cell, num)) <$> notedCells notes num affected in
      if decide (0 < length notesToRemove) then
        Some {|
          cellIndex := default 0 (head swordfishCells);
          value := 0;
          technique := "Swordfish";
          explanation :=
            "Swordfish on " +:+ pretty num +:+ " in columns "
            +:+ join_with ", " ((λ c, c + 1) <$> cols) +:+ " and rows "
            +:+ join_with ", " ((λ r, r + 1) <$> rows) +:+ ". Remove "
            +:+ pretty num +:+ " from other cells in these rows.";
          highlights :=
            [ {| cells := swordfishCells; type := Triple |};
              {| cells := notedCells notes num affected; type := Affected |} ];
          eliminatedNumbers := [(Some num, "Swordfish elimination")];
          notesToRemove := Some notesToRemove |}
      else None
    else None) (triples colsWithNum).

Definition findSwordfish (grid : list Z) (candidates notes : list (list Z))
  : option Hint :=
  firstSome (λ num,
    swordfishRows candidates notes num
    orElse swordfishCols candidates notes num) digits.

(** **** The solver *)

Definition getHint (grid : list Z) (solution : list Z) (notes : list (list Z))
  : option Hint :=
  let candidates := getAllCandidates grid notes in
  findInvalidNotes grid notes candidates
  orElse findLastFreeCell grid candidates
  orElse findNakedSingle grid candidates
  orElse findHiddenSingle grid candidates
  orElse findPointingPairs grid candidates notes
  orElse findNakedPairs grid candidates notes
  orElse findHiddenPairs grid candidates notes
  orElse findNakedTriples grid candidates notes
  orElse findHiddenTriples grid candidates notes
  orElse findXWing grid candidates notes
  orElse findYWing grid candidates notes
  orElse findSwordfish grid candidates notes.

End Hints.

(** ** The game component ([src/components/SudokuGame.tsx]) *)

Module Game.
Import JS.



(** The cells [checkCompletions] animates after a placement in the cell
    [index], before duplicates are removed and the cells sorted. *)
Definition cellsToAnimate (index : nat) (currentGrid : list Z) : list nat :=
  let row := index `div` 9 in
  let col := index `mod` 9 in
  let boxRow := row `div` 3 in
  let boxCol := col `div` 3 in
  let rowIndices := Sudoku.getRowIndices row in
  let colIndices := Sudoku.getColIndices col in
  let boxIndices := Sudoku.getBoxIndices boxRow boxCol in
  (if Sudoku.isGroupComplete currentGrid rowIndices then rowIndices else [])
  ++ (if Sudoku.isGroupComplete currentGrid colIndices then colIndices else [])
  ++ (if Sudoku.isGroupComplete currentGrid boxIndices then boxIndices else []).

End Game.

(** ** Correctness of the generator *)

Module SudokuFacts.
Import JS Sudoku.

(** *** Vocabulary of the proofs *)

(** Two cells share a row, a column or a box. *)
Definition related (i j : nat) : bool :=
  bool_decide (i `div` 9 = j `div` 9) ||
  bool_decide (i `mod` 9 = j `mod` 9) ||
  (bool_decide ((i `div` 9) `div` 3 = (j `div` 9) `div` 3) &&
   bool_decide ((i `mod` 9) `div` 3 = (j `mod` 9) `div` 3)).

(** The cells [canPlace] reads for the cell at [row], [col]. *)
Definition placeCells (row col : nat) : list nat :=
  ((λ c, row * 9 + c) <$> seq 0 9) ++
  ((λ r, r * 9 + col) <$> seq 0 9) ++
  (r ← seq 0 3; c ← seq 0 3;
   [(row `div` 3 * 3 + r) * 9 + (col `div` 3 * 3 + c)]).

(** The 27 units. *)
Definition units : list (list nat) :=
  (getRowIndices <$> seq 0 9) ++ (getColIndices <$> seq 0 9) ++
  (boxRow ← seq 0 3; boxCol ← seq 0 3; [getBoxIndices boxRow boxCol]).

(** No two related cells hold the same non-zero value. *)
Definition consistent (g : list Z) : Prop :=
  ∀ i j v, i < 81 → j < 81 → i ≠ j → related i j = true →
           v ≠ 0%Z → g !! i = Some v → g !! j ≠ Some v.

(** The state of the grid when [solve(pos)] is entered: the cells before
    [pos] hold digits without conflict, the others are empty. *)
Definition partialFill (pos : nat) (g : list Z) : Prop :=
  length g = 81 ∧ consistent g ∧
  (∀ k, k < pos → ∃ v, v ∈ oneToNine ∧ g !! k = Some v) ∧
  (∀ k, pos ≤ k < 81 → g !! k = Some 0%Z).

(** [g] and [s] hold the same values before [pos]. *)
Definition agreesBelow (pos : nat) (g s : list Z) : Prop :=
  ∀ k, k < pos → g !! k = s !! k.

(** What a call of [solve] entered with grid [g] leaves behind: a
    completed grid when it returns true, the grid [g] when it returns
    false. *)
Definition outcome {R : Type} (g : list Z) (res : bool * list Z * R) : Prop :=
  if res.1.1 then partialFill 81 res.1.2 else res.1.2 = g.

(** The values of a unit are a permutation of the digits 1 to 9. *)
Definition permutationOfDigits (g : list Z) (cells : list nat) : Prop :=
  (λ i, g !! i) <$> cells ≡ₚ Some <$> oneToNine.

(** What the specification asks of a solution grid. *)
Definition validSolution (g : list Z) : Prop :=
  length g = 81 ∧
  (∀ row, row < 9 → permutationOfDigits g (getRowIndices row)) ∧
  (∀ col, col < 9 → permutationOfDigits g (getColIndices col)) ∧
  (∀ boxRow boxCol, boxRow < 3 → boxCol < 3 →
     permutationOfDigits g (getBoxIndices boxRow boxCol)).

(** A boolean check of [consistent] for closed grids. *)
Definition consistentb (g : list Z) : bool :=
  forallb (λ i,
    forallb (λ j,
      implb (negb (bool_decide (i = j)) && related i j)
            (bool_decide (g !! i = Some 0%Z)
             || negb (bool_decide (g !! i = g !! j))))
      (seq 0 81)) (seq 0 81).

(** A completed grid, to show that the search has something to find. *)
Definition referenceGrid : list Z :=
  [1; 2; 3; 4; 5; 6; 7; 8; 9;
   4; 5; 6; 7; 8; 9; 1; 2; 3;
   7; 8; 9; 1; 2; 3; 4; 5; 6;
   2; 3; 4; 5; 6; 7; 8; 9; 1;
   5; 6; 7; 8; 9; 1; 2; 3; 4;
   8; 9; 1; 2; 3; 4; 5; 6; 7;
   3; 4; 5; 6; 7; 8; 9; 1; 2;
   6; 7; 8; 9; 1; 2; 3; 4; 5;
   9; 1; 2; 3; 4; 5; 6; 7; 8]%Z.

Definition countZeros (g : list Z) : nat := length (filter (λ v, v = 0%Z) g).

(** *** Geometry, checked cell by cell *)

Lemma forallb_seq_lt (f : nat → bool) (n i : nat) :
  forallb f (seq 0 n) = true → i < n → f i = true.
Proof.
  intros H Hi. rewrite forallb_forall in H. apply H, in_seq. lia.
Qed.

Lemma geometry_table :
  forallb (λ i,
    forallb (λ j,
      bool_decide (related i j
                   = bool_decide (j ∈ placeCells (i `div` 9) (i `mod` 9))))
      (seq 0 81)
    && forallb (λ j, bool_decide (j < 81))
         (placeCells (i `div` 9) (i `mod` 9))) (seq 0 81) = true.
Proof. vm_compute. reflexivity. Qed.

Lemma related_placeCells (i j : nat) :
  i < 81 → j < 81 →
  related i j = true ↔ j ∈ placeCells (i `div` 9) (i `mod` 9).
Proof.
  intros Hi Hj. pose proof (forallb_seq_lt _ _ _ geometry_table Hi) as H.
  apply andb_true_iff in H as [H _].
  apply (forallb_seq_lt _ _ j) in H; [|done].
  apply bool_decide_eq_true in H. rewrite H. apply bool_decide_eq_true.
Qed.

Lemma placeCells_lt (i j : nat) :
  i < 81 → j ∈ placeCells (i `div` 9) (i `mod` 9) → j < 81.
Proof.
  intros Hi Hj. pose proof (forallb_seq_lt _ _ _ geometry_table Hi) as H.
  apply andb_true_iff in H as [_ H].
  rewrite forallb_forall in H. apply list_elem_of_In, H in Hj.
  by apply bool_decide_eq_true in Hj.
Qed.

Lemma related_sym (i j : nat) : related i j = related j i.
Proof.
  unfold related.
  rewrite (bool_decide_ext (i `div` 9 = j `div` 9) (j `div` 9 = i `div` 9))
    by done.
  rewrite (bool_decide_ext (i `mod` 9 = j `mod` 9) (j `mod` 9 = i `mod` 9))
    by done.
  rewrite (bool_decide_ext ((i `div` 9) `div` 3 = (j `div` 9) `div` 3)
             ((j `div` 9) `div` 3 = (i `div` 9) `div` 3)) by done.
  by rewrite (bool_decide_ext ((i `mod` 9) `div` 3 = (j `mod` 9) `div` 3)
                ((j `mod` 9) `div` 3 = (i `mod` 9) `div` 3)) by done.
Qed.

Lemma canPlace_forallb (g : list Z) (row col : nat) (num : Z) :
  canPlace g row col num
  = forallb (λ j, bool_decide (g !! j ≠ Some num)) (placeCells row col).
Proof.
  unfold canPlace, placeCells. cbn [seq fmap list_fmap mbind list_bind app forallb].
  rewrite ?andb_true_r, <- ?andb_assoc. reflexivity.
Qed.

Lemma canPlace_spec (g : list Z) (row col : nat) (num : Z) :
  canPlace g row col num = true
  ↔ ∀ j, j ∈ placeCells row col → g !! j ≠ Some num.
Proof.
  rewrite canPlace_forallb, forallb_forall. split.
  - intros H j Hj%list_elem_of_In. by apply H, bool_decide_eq_true in Hj.
  - intros H j Hj%list_elem_of_In. by apply bool_decide_eq_true, H.
Qed.

Lemma canPlaceSeeded_canPlace (g : list Z) (row col : nat) (num : Z) :
  canPlaceSeeded g row col num = canPlace g row col num.
Proof. reflexivity. Qed.

(** *** Shuffles are permutations *)

Lemma swap_Permutation {T : Type} (l : list T) (i j : nat) : swap l i j ≡ₚ l.
Proof.
  unfold swap. destruct (l !! i) as [xi|] eqn:Hi; [|done].
  destruct (l !! j) as [xj|] eqn:Hj; [|done].
  by apply Permutation_insert_swap.
Qed.

(** With [j ≤ i] inside the array, [swap] is the exchange of the source. *)
Lemma swap_in_range {T : Type} (l : list T) (i j : nat) :
  i < length l → j ≤ i →
  ∃ xi xj, l !! i = Some xi ∧ l !! j = Some xj ∧
           swap l i j = <[j:=xi]> (<[i:=xj]> l).
Proof.
  intros Hi Hj.
  destruct (lookup_lt_is_Some_2 l i Hi) as [xi Hxi].
  destruct (lookup_lt_is_Some_2 l j) as [xj Hxj]; [lia|].
  exists xi, xj. unfold swap. by rewrite Hxi, Hxj.
Qed.

Lemma swap_length {T : Type} (l : list T) (i j : nat) :
  length (swap l i j) = length l.
Proof. apply Permutation_length, swap_Permutation. Qed.

Lemma shuffleLoop_Permutation {T : Type} (i : nat) (l : list T) (m : MathRandom) :
  (shuffleLoop i l m).1 ≡ₚ l.
Proof.
  revert l m. induction i as [|i IH]; intros l m; simpl; [done|].
  rewrite IH. apply swap_Permutation.
Qed.

Lemma shuffleArray_Permutation {T : Type} (l : list T) (m : MathRandom) :
  (shuffleArray l m).1 ≡ₚ l.
Proof. apply shuffleLoop_Permutation. Qed.

Lemma shuffleSeededLoop_Permutation {T : Type} (i : nat) (l : list T)
    (rng : SeededRandom) :
  (shuffleSeededLoop i l rng).1 ≡ₚ l.
Proof.
  revert l rng. induction i as [|i IH]; intros l rng; [done|].
  cbn [shuffleSeededLoop]. destruct (next rng) as [u rng'].
  rewrite IH. apply swap_Permutation.
Qed.

Lemma shuffleArraySeeded_Permutation {T : Type} (l : list T)
    (rng : SeededRandom) :
  (shuffleArraySeeded l rng).1 ≡ₚ l.
Proof. apply shuffleSeededLoop_Permutation. Qed.

(** The index drawn by either shuffle lies in [0, i], so [swap] reads
    inside the array. *)
Lemma next_range (rng : SeededRandom) : (0 ≤ (next rng).1 < 2 ^ 32)%Z.
Proof. unfold next, toUint32. cbn [fst]. apply Z.mod_pos_bound. lia. Qed.

(** Rounding to a double: integers within 2^53 are doubles, and the
    rounding error is at most the 2^53rd part of the number. *)
Lemma roundDouble_exact (z : Z) : (Z.abs z ≤ 2 ^ 53)%Z → roundDouble z = z.
Proof.
  intros Hz. destruct (decide (Z.abs z = 2 ^ 53)%Z) as [Heq|Hne].
  - assert (z = 2 ^ 53 ∨ z = - 2 ^ 53)%Z as [-> | ->] by lia; by vm_compute.
  - unfold roundDouble. cbv zeta. case_decide as He; [done|].
    exfalso. apply He.
    destruct (decide (Z.abs z = 0)%Z) as [->|Hz0]; [by vm_compute|].
    assert (Z.log2 (Z.abs z) < 53)%Z; [|lia].
    apply Z.log2_lt_pow2; lia.
Qed.

Lemma roundDouble_near (z : Z) :
  (Z.abs (roundDouble z - z) * 2 ^ 53 ≤ Z.abs z)%Z.
Proof.
  unfold roundDouble. cbv zeta. case_decide as He.
  { replace (z - z)%Z with 0%Z by lia. simpl. lia. }
  assert (0 < Z.abs z)%Z as Ha.
  { destruct (decide (Z.abs z = 0)%Z) as [Hz|]; [|lia].
    rewrite Hz in He. exfalso. apply He. by vm_compute. }
  pose proof (Z.log2_spec _ Ha) as [Hlog _].
  set (a := Z.abs z) in *. set (e := (Z.log2 a - 52)%Z) in *.
  assert (2 ^ e = 2 * 2 ^ (e - 1))%Z as He2.
  { rewrite <- Z.pow_succ_r by lia. f_equal. lia. }
  assert (2 ^ Z.log2 a = 2 ^ (e - 1) * 2 ^ 53)%Z as Hlog2.
  { rewrite <- Z.pow_add_r by lia. f_equal. lia. }
  assert (0 < 2 ^ (e - 1))%Z as Hhalf by (apply Z.pow_pos_nonneg; lia).
  pose proof (Z.div_mod a (2 ^ e) ltac:(lia)) as Hdm.
  pose proof (Z.mod_pos_bound a (2 ^ e) ltac:(lia)) as Hr.
  set (q := (a / 2 ^ e)%Z) in *. set (r := (a `mod` 2 ^ e)%Z) in *.
  set (half := (2 ^ (e - 1))%Z) in *.
  assert (∀ q', Z.abs (q' * 2 ^ e - a) ≤ half →
                Z.abs (Z.sgn z * (q' * 2 ^ e) - z) * 2 ^ 53 ≤ a)%Z as Hgoal.
  { intros q' Hq'.
    assert (Z.abs (Z.sgn z * (q' * 2 ^ e) - z) = Z.abs (q' * 2 ^ e - a))%Z
      as ->; [|nia].
    unfold a. destruct (Z.sgn_spec z) as [[? ->]|[[? ->]|[? ->]]]; lia. }
  apply Hgoal. repeat case_decide; try destruct (Z.even q); nia.
Qed.

Lemma seededIndex_le (u : Z) (i : nat) :
  (0 ≤ u < 2 ^ 32)%Z → seededIndex u i ≤ i.
Proof.
  intros Hu. unfold seededIndex.
  pose proof (roundDouble_near (u * Z.of_nat (i + 1))) as Hnear.
  set (x := (u * Z.of_nat (i + 1))%Z) in *.
  assert (0 ≤ x ≤ (2 ^ 32 - 1) * Z.of_nat (i + 1))%Z as Hx by (unfold x; nia).
  assert (0 ≤ roundDouble x < 2 ^ 32 * Z.of_nat (i + 1))%Z as Hr by lia.
  assert (roundDouble x / 2 ^ 32 < Z.of_nat (i + 1))%Z.
  { apply Z.div_lt_upper_bound; lia. }
  assert (0 ≤ roundDouble x / 2 ^ 32)%Z by (apply Z.div_pos; lia).
  lia.
Qed.

Lemma randomBelow_le (i : nat) (m : MathRandom) : (randomBelow (i + 1) m).1 ≤ i.
Proof.
  unfold randomBelow. simpl.
  pose proof (Nat.mod_upper_bound (source m (drawn m)) (i + 1)). lia.
Qed.

(** *** The invariant of the search *)

Lemma oneToNine_nonzero (v : Z) : v ∈ oneToNine → v ≠ 0%Z.
Proof. unfold oneToNine. rewrite !elem_of_cons, elem_of_nil. lia. Qed.

Lemma partialFill_empty : partialFill 0 (replicate 81 0%Z).
Proof.
  split; [apply length_replicate|]. split; [|split].
  - intros i j v Hi _ _ _ Hv Hg. rewrite lookup_replicate_2 in Hg by done.
    congruence.
  - intros k Hk. lia.
  - intros k [_ Hk]. by apply lookup_replicate_2.
Qed.

Lemma partialFill_place (pos : nat) (g : list Z) (num : Z) :
  partialFill pos g → pos < 81 → num ∈ oneToNine →
  canPlace g (pos `div` 9) (pos `mod` 9) num = true →
  partialFill (pos + 1) (<[pos:=num]> g).
Proof.
  intros (Hlen & Hcons & Hfill & Hempty) Hpos Hnum Hplace.
  rewrite canPlace_spec in Hplace.
  split; [by rewrite length_insert|]. split; [|split].
  - intros i j v Hi Hj Hij Hrel Hv Hgi Hgj.
    destruct (decide (i = pos)) as [->|Hip].
    + rewrite list_lookup_insert_eq in Hgi by lia. simplify_eq.
      rewrite list_lookup_insert_ne in Hgj by done.
      apply (Hplace j); [|done]. by apply related_placeCells.
    + rewrite list_lookup_insert_ne in Hgi by done.
      destruct (decide (j = pos)) as [->|Hjp].
      * rewrite list_lookup_insert_eq in Hgj by lia. simplify_eq.
        apply (Hplace i); [|done].
        apply related_placeCells; [done..|]. by rewrite related_sym.
      * rewrite list_lookup_insert_ne in Hgj by done.
        by apply (Hcons i j v).
  - intros k Hk. destruct (decide (k = pos)) as [->|].
    + exists num. split; [done|]. apply list_lookup_insert_eq. lia.
    + rewrite list_lookup_insert_ne by done. apply Hfill. lia.
  - intros k Hk. rewrite list_lookup_insert_ne by lia. apply Hempty. lia.
Qed.

(** Undoing a placement gives back the grid [solve(pos)] was entered with. *)
Lemma partialFill_restore (pos : nat) (g : list Z) (num : Z) :
  partialFill pos g → pos < 81 → <[pos:=0%Z]> (<[pos:=num]> g) = g.
Proof.
  intros (_ & _ & _ & Hempty) Hpos. rewrite list_insert_insert_eq.
  apply list_insert_id, Hempty. lia.
Qed.

(** The digit a completed grid holds at [pos] can be placed there in any
    partial grid it extends. *)
Lemma canPlace_extension (pos : nat) (g s : list Z) (v : Z) :
  partialFill pos g → pos < 81 → partialFill 81 s → agreesBelow pos g s →
  s !! pos = Some v →
  canPlace g (pos `div` 9) (pos `mod` 9) v = true.
Proof.
  intros (_ & _ & _ & Hempty) Hpos (_ & Hcons & Hfill & _) Hag Hv.
  destruct (Hfill pos Hpos) as (v' & Hv' & Hsv). simplify_eq.
  apply oneToNine_nonzero in Hv'.
  apply canPlace_spec. intros j Hj Hgj.
  pose proof (placeCells_lt _ _ Hpos Hj) as Hj81.
  apply related_placeCells in Hj; [|done..].
  destruct (decide (j < pos)) as [Hlt|Hge].
  - rewrite Hag in Hgj by done.
    apply (Hcons pos j v); [done| done | lia | done..].
  - rewrite Hempty in Hgj by lia. congruence.
Qed.

Lemma consistentb_sound (g : list Z) : consistentb g = true → consistent g.
Proof.
  intros H i j v Hi Hj Hij Hrel Hv Hgi Hgj.
  apply (forallb_seq_lt _ _ i) in H; [|done].
  apply (forallb_seq_lt _ _ j) in H; [|done]. cbv beta in H.
  rewrite Hrel, bool_decide_false in H by done. simpl in H.
  rewrite bool_decide_false in H by congruence.
  rewrite bool_decide_true in H by congruence. done.
Qed.

Lemma referenceGrid_full : partialFill 81 referenceGrid.
Proof.
  split; [done|]. split; [|split].
  - apply consistentb_sound. vm_compute. reflexivity.
  - intros k Hk.
    assert (forallb (λ k, match referenceGrid !! k with
                          | Some v => bool_decide (v ∈ oneToNine)
                          | None => false
                          end) (seq 0 81) = true) as H
      by (vm_compute; reflexivity).
    apply (forallb_seq_lt _ _ k) in H; [|done]. cbv beta in H.
    destruct (referenceGrid !! k) as [v|]; [|done].
    exists v. split; [|done]. by apply bool_decide_eq_true in H.
  - intros k Hk. lia.
Qed.

Section search.
Context {R : Type}.
Variable shuffleDigits : R → list Z * R.
Variable place : list Z → nat → nat → Z → bool.
Hypothesis shuffle_perm : ∀ r, (shuffleDigits r).1 ≡ₚ oneToNine.
Hypothesis place_canPlace :
  ∀ g row col num, place g row col num = canPlace g row col num.

Lemma solve_unfold (fuel pos : nat) (g : list Z) (r : R) :
  solve shuffleDigits place (S fuel) pos g r
  = if decide (pos = 81) then (true, g, r)
    else tryNumbers place (solve shuffleDigits place fuel (pos + 1))
           (pos `div` 9) (pos `mod` 9) pos (shuffleDigits r).1 g
           (shuffleDigits r).2.
Proof. simpl. by destruct (shuffleDigits r). Qed.

Lemma tryNumbers_outcome (deeper : list Z → R → bool * list Z * R)
    (pos : nat) (numbers : list Z) (g : list Z) (r : R) :
  pos < 81 →
  (∀ g1 r1, partialFill (pos + 1) g1 → outcome g1 (deeper g1 r1)) →
  (∀ n, n ∈ numbers → n ∈ oneToNine) →
  partialFill pos g →
  outcome g (tryNumbers place deeper (pos `div` 9) (pos `mod` 9) pos numbers g r).
Proof.
  intros Hpos Hdeeper Hnum Hg. revert r.
  induction numbers as [|num numbers IH]; intros r; [done|].
  cbn [tryNumbers]. rewrite place_canPlace.
  destruct (canPlace g _ _ num) eqn:Hp.
  - pose proof (Hdeeper (<[pos:=num]> g) r) as Hout.
    destruct (deeper (<[pos:=num]> g) r) as [[ok g'] r'].
    unfold outcome in Hout. simpl in Hout. destruct ok.
    + apply Hout, partialFill_place; [done..|apply Hnum; left|done].
    + rewrite Hout
        by (apply partialFill_place; [done..|apply Hnum; left|done]).
      rewrite partialFill_restore by done.
      apply IH. intros n Hn. apply Hnum. by right.
  - apply IH. intros n Hn. apply Hnum. by right.
Qed.

Lemma solve_outcome (fuel pos : nat) (g : list Z) (r : R) :
  pos + fuel = 81 → partialFill pos g →
  outcome g (solve shuffleDigits place fuel pos g r).
Proof.
  revert pos g r. induction fuel as [|fuel IH]; intros pos g r Hfuel Hg.
  - simpl. rewrite decide_True by lia. unfold outcome. simpl.
    by replace 81 with pos by lia.
  - rewrite solve_unfold, decide_False by lia.
    apply tryNumbers_outcome; [lia| |by intros n; rewrite shuffle_perm|done].
    intros g1 r1 Hg1. apply IH; [lia|done].
Qed.

Lemma tryNumbers_complete (deeper : list Z → R → bool * list Z * R)
    (pos : nat) (numbers : list Z) (g s : list Z) (v : Z) (r : R) :
  pos < 81 → partialFill pos g → partialFill 81 s → agreesBelow pos g s →
  s !! pos = Some v →
  (∀ g1 r1, partialFill (pos + 1) g1 → outcome g1 (deeper g1 r1)) →
  (∀ g1 r1, partialFill (pos + 1) g1 → agreesBelow (pos + 1) g1 s →
            (deeper g1 r1).1.1 = true) →
  (∀ n, n ∈ numbers → n ∈ oneToNine) → v ∈ numbers →
  (tryNumbers place deeper (pos `div` 9) (pos `mod` 9) pos numbers g r).1.1
  = true.
Proof.
  intros Hpos Hg Hs Hag Hv Hout Hcomp. revert r.
  induction numbers as [|num numbers IH]; intros r Hnum Hin.
  { by apply elem_of_nil in Hin. }
  cbn [tryNumbers]. rewrite place_canPlace.
  assert (∀ n, n ∈ numbers → n ∈ oneToNine) as Hnum'.
  { intros n Hn. apply Hnum. by right. }
  destruct (canPlace g _ _ num) eqn:Hp.
  - assert (partialFill (pos + 1) (<[pos:=num]> g)) as Hg1.
    { apply partialFill_place; [done..|apply Hnum; left|done]. }
    pose proof (Hout _ r Hg1) as Ho. pose proof (Hcomp _ r Hg1) as Hc.
    destruct (deeper (<[pos:=num]> g) r) as [[ok g'] r'].
    unfold outcome in Ho. simpl in Ho, Hc. destruct ok; [done|].
    subst g'. rewrite partialFill_restore by done.
    apply IH; [done|]. apply elem_of_cons in Hin as [->|Hin]; [|done].
    assert (false = true); [|done]. apply Hc. intros k Hk.
    destruct (decide (k = pos)) as [->|].
    + rewrite list_lookup_insert_eq; [done|]. destruct Hg as [-> _]. lia.
    + rewrite list_lookup_insert_ne by done. apply Hag. lia.
  - apply IH; [done|]. apply elem_of_cons in Hin as [->|Hin]; [|done].
    rewrite (canPlace_extension pos g s num) in Hp; done.
Qed.

(** The search is complete: from a partial grid that some completed grid
    extends, [solve] returns true, whatever the shuffles are. *)
Lemma solve_complete (fuel pos : nat) (g s : list Z) (r : R) :
  pos + fuel = 81 → partialFill pos g → partialFill 81 s →
  agreesBelow pos g s →
  (solve shuffleDigits place fuel pos g r).1.1 = true.
Proof.
  revert pos g r. induction fuel as [|fuel IH]; intros pos g r Hfuel Hg Hs Hag.
  - simpl. by rewrite decide_True by lia.
  - rewrite solve_unfold, decide_False by lia.
    destruct Hs as (Hlen & Hcons & Hfill & Hemp).
    destruct (Hfill pos) as (v & Hv & Hsv); [lia|].
    apply (tryNumbers_complete _ pos _ g s v); [lia|done..| | | |].
    + intros g1 r1 Hg1. apply solve_outcome; [lia|done].
    + intros g1 r1 Hg1 Hag1. apply IH; [lia|done..].
    + intros n. by rewrite shuffle_perm.
    + by rewrite shuffle_perm.
Qed.

(** From the empty grid the search succeeds and leaves a completed grid. *)
Lemma solve_from_empty (r : R) :
  (solve shuffleDigits place 81 0 (replicate 81 0%Z) r).1.1 = true ∧
  partialFill 81 (solve shuffleDigits place 81 0 (replicate 81 0%Z) r).1.2.
Proof.
  assert ((solve shuffleDigits place 81 0 (replicate 81 0%Z) r).1.1 = true)
    as Hok.
  { apply (solve_complete 81 0 _ referenceGrid);
      [done|apply partialFill_empty|apply referenceGrid_full|].
    intros k Hk. lia. }
  split; [done|].
  pose proof (solve_outcome 81 0 (replicate 81 0%Z) r eq_refl partialFill_empty)
    as Hout.
  unfold outcome in Hout. by rewrite Hok in Hout.
Qed.

End search.

Lemma generateCompleteGrid_full (m : MathRandom) :
  partialFill 81 (generateCompleteGrid m).1.
Proof.
  unfold generateCompleteGrid.
  pose proof (solve_from_empty (shuffleArray oneToNine) canPlace
                (shuffleArray_Permutation oneToNine)
                (λ _ _ _ _, eq_refl) m) as [_ H].
  by destruct (solve _ _ _ _ _ _) as [[ok g] m'].
Qed.

Lemma generateSeededGrid_full (rng : SeededRandom) :
  partialFill 81 (generateSeededGrid rng).1.
Proof.
  unfold generateSeededGrid.
  pose proof (solve_from_empty (shuffleArraySeeded oneToNine) canPlaceSeeded
                (shuffleArraySeeded_Permutation oneToNine)
                canPlaceSeeded_canPlace rng) as [_ H].
  by destruct (solve _ _ _ _ _ _) as [[ok g] rng'].
Qed.

(** *** Completed grids are valid solutions and pass [isValidGrid] *)

Lemma unit_table :
  forallb (λ u,
    bool_decide (NoDup u) && bool_decide (length u = 9) &&
    forallb (λ i,
      bool_decide (i < 81) &&
      forallb (λ j, bool_decide (i = j) || related i j) u) u) units = true.
Proof. vm_compute. reflexivity. Qed.

Lemma unit_facts (u : list nat) :
  u ∈ units →
  NoDup u ∧ length u = 9 ∧
  ∀ i, i ∈ u → i < 81 ∧ ∀ j, j ∈ u → i ≠ j → related i j = true.
Proof.
  intros Hu. pose proof unit_table as H. rewrite forallb_forall in H.
  apply list_elem_of_In, H in Hu.
  apply andb_true_iff in Hu as [Hu Hrel].
  apply andb_true_iff in Hu as [Hnd Hlen].
  apply bool_decide_eq_true in Hnd. apply bool_decide_eq_true in Hlen.
  split; [done|]. split; [done|]. intros i Hi.
  rewrite forallb_forall in Hrel. apply list_elem_of_In, Hrel in Hi.
  apply andb_true_iff in Hi as [Hi Hrow]. apply bool_decide_eq_true in Hi.
  split; [done|]. intros j Hj Hij.
  rewrite forallb_forall in Hrow. apply list_elem_of_In, Hrow in Hj.
  apply orb_true_iff in Hj as [Hj|Hj]; [|done].
  by apply bool_decide_eq_true in Hj.
Qed.

Lemma row_in_units (row : nat) : row < 9 → getRowIndices row ∈ units.
Proof.
  intros H. unfold units. apply elem_of_app. left.
  apply list_elem_of_fmap_2, elem_of_seq. lia.
Qed.

Lemma col_in_units (col : nat) : col < 9 → getColIndices col ∈ units.
Proof.
  intros H. unfold units. apply elem_of_app. right. apply elem_of_app. left.
  apply list_elem_of_fmap_2, elem_of_seq. lia.
Qed.

Lemma box_in_units (boxRow boxCol : nat) :
  boxRow < 3 → boxCol < 3 → getBoxIndices boxRow boxCol ∈ units.
Proof.
  intros Hr Hc. unfold units. apply elem_of_app. right. apply elem_of_app.
  right. apply list_elem_of_bind. exists boxRow. split; [|apply elem_of_seq; lia].
  apply list_elem_of_bind. exists boxCol. split; [|apply elem_of_seq; lia].
  by apply list_elem_of_singleton.
Qed.

(** In a completed grid the cells of a unit hold distinct values. *)
Lemma unit_values_NoDup (g : list Z) (u : list nat) :
  partialFill 81 g → u ∈ units → NoDup ((λ i, g !! i) <$> u).
Proof.
  intros (_ & Hcons & Hfill & _) Hu.
  destruct (unit_facts u Hu) as (Hnd & _ & Hrel).
  apply NoDup_fmap_2_strong; [|done].
  intros i j Hi Hj Heq. destruct (decide (i = j)) as [|Hij]; [done|].
  destruct (Hrel i Hi) as [Hi81 Hr]. destruct (Hrel j Hj) as [Hj81 _].
  destruct (Hfill i Hi81) as (v & Hv & Hgi).
  exfalso. apply (Hcons i j v); [done..|by apply Hr| |done|congruence].
  by apply oneToNine_nonzero.
Qed.

Lemma unit_permutation (g : list Z) (u : list nat) :
  partialFill 81 g → u ∈ units → permutationOfDigits g u.
Proof.
  intros Hg Hu. unfold permutationOfDigits.
  apply submseteq_length_Permutation.
  - apply NoDup_submseteq; [by apply unit_values_NoDup|].
    intros x (i & -> & Hi)%list_elem_of_fmap.
    destruct (unit_facts u Hu) as (_ & _ & Hrel).
    destruct (Hrel i Hi) as [Hi81 _].
    destruct Hg as (_ & _ & Hfill & _).
    destruct (Hfill i Hi81) as (v & Hv & ->).
    by apply list_elem_of_fmap_2.
  - rewrite !length_fmap.
    destruct (unit_facts u Hu) as (_ & -> & _). done.
Qed.

Lemma partialFill_validSolution (g : list Z) :
  partialFill 81 g → validSolution g.
Proof.
  intros Hg. split; [by destruct Hg|]. split; [|split].
  - intros row Hrow. by apply unit_permutation, row_in_units.
  - intros col Hcol. by apply unit_permutation, col_in_units.
  - intros br bc Hbr Hbc. by apply unit_permutation, box_in_units.
Qed.

Lemma elem_of_set_add {A : Type} `{EqDecision A} (s : list A) (x y : A) :
  y ∈ set_add s x ↔ y ∈ s ∨ y = x.
Proof.
  unfold set_add. case_decide as Hx.
  - split; [by left|]. by intros [?| ->].
  - rewrite elem_of_app, list_elem_of_singleton. done.
Qed.

Lemma noRepeat_true (g : list Z) (seen : list (option Z)) (cells : list nat) :
  (∀ i, i ∈ cells → g !! i ∉ seen) →
  NoDup ((λ i, g !! i) <$> cells) →
  noRepeat g seen cells = true.
Proof.
  revert seen. induction cells as [|i cells IH]; intros seen Hseen Hnd; [done|].
  rewrite fmap_cons in Hnd. apply NoDup_cons in Hnd as [Hi Hnd].
  cbn [noRepeat]. case_decide.
  - rewrite decide_False by (apply Hseen; left).
    apply IH; [|done]. intros j Hj. rewrite elem_of_set_add.
    intros [Hin|Heq].
    + by apply (Hseen j); [right|].
    + apply Hi. rewrite <- Heq. by apply (list_elem_of_fmap_2 (λ i, g !! i)).
  - apply IH; [|done]. intros j Hj. apply Hseen. by right.
Qed.

Lemma isValidGrid_units (g : list Z) :
  isValidGrid g = forallb (noRepeat g []) units.
Proof.
  unfold isValidGrid, units, getRowIndices, getColIndices, getBoxIndices.
  cbn [seq fmap list_fmap mbind list_bind app forallb].
  rewrite ?andb_true_r, <- ?andb_assoc. reflexivity.
Qed.

Lemma isValidGrid_full (g : list Z) : partialFill 81 g → isValidGrid g = true.
Proof.
  intros Hg. rewrite isValidGrid_units. apply forallb_forall.
  intros u Hu%list_elem_of_In. apply noRepeat_true.
  - intros i _. apply not_elem_of_nil.
  - by apply unit_values_NoDup.
Qed.

(** *** Removing cells *)

Lemma countZeros_insert (g : list Z) (i : nat) (v : Z) :
  g !! i = Some v → v ≠ 0%Z → countZeros (<[i:=0%Z]> g) = S (countZeros g).
Proof.
  unfold countZeros. revert i. induction g as [|x g IH]; intros i Hi Hv; [done|].
  destruct i as [|i]; simpl in Hi.
  - simplify_eq. simpl. rewrite !filter_cons.
    by rewrite decide_False by done.
  - simpl. rewrite !filter_cons. case_decide; simpl; by rewrite (IH i).
Qed.

Lemma removeCells_length (positions : list nat) (removed k : nat) (g : list Z) :
  length (removeCells positions removed k g) = length g.
Proof.
  revert removed g. induction positions as [|pos positions IH];
    intros removed g; [done|].
  cbn [removeCells]. case_decide; [done|]. by rewrite IH, length_insert.
Qed.

(** Only zeros are written: a non-zero cell of the result is a cell of
    the grid the removal started from. *)
Lemma removeCells_lookup (positions : list nat) (removed k : nat)
    (g : list Z) (i : nat) (v : Z) :
  removeCells positions removed k g !! i = Some v → v ≠ 0%Z → g !! i = Some v.
Proof.
  revert removed g. induction positions as [|pos positions IH];
    intros removed g Hi Hv; [done|].
  cbn [removeCells] in Hi. case_decide; [done|].
  apply IH in Hi; [|done].
  apply list_lookup_insert_Some in Hi as [(_ & ? & _)|[_ ?]]; [congruence|done].
Qed.

Lemma removeCells_countZeros (positions : list nat) (removed k : nat)
    (g : list Z) :
  NoDup positions →
  (∀ p, p ∈ positions → ∃ v, g !! p = Some v ∧ v ≠ 0%Z) →
  countZeros (removeCells positions removed k g)
  = countZeros g + (k - removed) `min` length positions.
Proof.
  revert removed g. induction positions as [|pos positions IH];
    intros removed g Hnd Hg.
  { simpl. lia. }
  apply NoDup_cons in Hnd as [Hpos Hnd].
  cbn [removeCells]. case_decide as Hk.
  { replace (k - removed) with 0 by lia. simpl. lia. }
  destruct (Hg pos) as (v & Hv & Hv0); [left|].
  rewrite IH, (countZeros_insert g pos v); [simpl; lia|done..|].
  intros p Hp. rewrite list_lookup_insert_ne by (by intros ->).
  apply Hg. by right.
Qed.

(** Removal from a completed grid along a shuffle of all 81 positions. *)
Lemma removeCells_shuffled (positions : list nat) (k : nat) (g : list Z) :
  positions ≡ₚ seq 0 81 → partialFill 81 g → k ≤ 81 →
  countZeros (removeCells positions 0 k g) = k.
Proof.
  intros Hperm (Hlen & Hcons & Hfill & _) Hk.
  rewrite removeCells_countZeros.
  - rewrite Hperm, length_seq.
    assert (countZeros g = 0) as ->; [|lia].
    unfold countZeros.
    rewrite (elem_of_nil_inv (filter (λ v, v = 0%Z) g)); [done|].
    intros x [-> [i Hi]%list_elem_of_lookup]%list_elem_of_filter.
    destruct (Hfill i) as (v & Hv & Hgi).
    { apply lookup_lt_Some in Hi. lia. }
    apply oneToNine_nonzero in Hv. congruence.
  - rewrite Hperm. apply NoDup_seq.
  - intros p Hp. rewrite Hperm in Hp. apply elem_of_seq in Hp.
    destruct (Hfill p) as (v & Hv & Hgp); [lia|].
    exists v. split; [done|]. by apply oneToNine_nonzero.
Qed.

Lemma DIFFICULTY_CELLS_le (d : Difficulty) : DIFFICULTY_CELLS d ≤ 81.
Proof. destruct d; simpl; lia. Qed.

(** *** The validation branch is never taken *)

Lemma createPuzzle_unfold (fuel : nat) (d : Difficulty) (m : MathRandom) :
  createPuzzle (S fuel) d m
  = Some ({| puzzle :=
               removeCells
                 (shuffleArray (seq 0 81) (generateCompleteGrid m).2).1 0
                 (81 - DIFFICULTY_CELLS d) (generateCompleteGrid m).1;
             solution := (generateCompleteGrid m).1 |},
          (shuffleArray (seq 0 81) (generateCompleteGrid m).2).2).
Proof.
  cbn [createPuzzle].
  pose proof (isValidGrid_full _ (generateCompleteGrid_full m)) as Hvalid.
  destruct (generateCompleteGrid m) as [sol m1]. cbn [fst snd] in *.
  rewrite Hvalid. cbn [negb].
  by destruct (shuffleArray (seq 0 81) m1).
Qed.

Lemma createDailyPuzzle_unfold (dateStr : string) (d : Difficulty) :
  createDailyPuzzle dateStr d
  = createDailyPuzzleFromSolution
      (generateSeededGrid {| seed := getDateSeed dateStr |}).1
      (generateSeededGrid {| seed := getDateSeed dateStr |}).2 dateStr d.
Proof.
  unfold createDailyPuzzle.
  pose proof (isValidGrid_full _
    (generateSeededGrid_full {| seed := getDateSeed dateStr |})) as Hvalid.
  destruct (generateSeededGrid _) as [sol rng1]. cbn [fst snd] in *.
  by rewrite Hvalid.
Qed.

(** *** Properties of the generator *)

(** The daily puzzle of 1 June 2025, computed by the model. *)
Example createDailyPuzzle_2025_06_01 :
  getDateSeed "2025-06-01" = 274311004%Z ∧
  dailySolution (createDailyPuzzle "2025-06-01" hard)
  = [8; 3; 9; 5; 2; 4; 7; 6; 1;
     7; 4; 6; 8; 3; 1; 2; 9; 5;
     1; 2; 5; 7; 9; 6; 4; 8; 3;
     4; 7; 3; 1; 8; 5; 9; 2; 6;
     6; 5; 2; 4; 7; 9; 1; 3; 8;
     9; 8; 1; 3; 6; 2; 5; 4; 7;
     5; 6; 7; 9; 4; 8; 3; 1; 2;
     2; 1; 4; 6; 5; 3; 8; 7; 9;
     3; 9; 8; 2; 1; 7; 6; 5; 4]%Z ∧
  dailyPuzzle (createDailyPuzzle "2025-06-01" hard)
  = [8; 3; 0; 0; 2; 0; 0; 6; 1;
     0; 0; 0; 0; 3; 0; 2; 0; 0;
     0; 0; 0; 0; 0; 0; 4; 8; 3;
     0; 7; 0; 0; 0; 0; 9; 0; 6;
     0; 0; 2; 0; 0; 9; 0; 3; 0;
     0; 0; 1; 3; 6; 2; 0; 4; 0;
     5; 0; 7; 0; 0; 0; 0; 0; 2;
     0; 0; 4; 6; 0; 0; 0; 0; 0;
     0; 9; 8; 0; 0; 0; 0; 0; 0]%Z.
Proof. vm_compute. by repeat split. Qed.

(** C4: every solution grid a generator call produces has, in each row,
    column and box, a permutation of the digits 1 to 9; the backtracking
    search from the empty grid returns true for every sequence of
    shuffles, seeded or not. *)
Theorem generated_solution_valid :
  (∀ m, (solve (shuffleArray oneToNine) canPlace 81 0
           (replicate 81 0%Z) m).1.1 = true
        ∧ validSolution (generateCompleteGrid m).1) ∧
  (∀ rng, (solve (shuffleArraySeeded oneToNine) canPlaceSeeded 81 0
             (replicate 81 0%Z) rng).1.1 = true
          ∧ validSolution (generateSeededGrid rng).1) ∧
  (∀ fuel d m, ∃ p m', createPuzzle (S fuel) d m = Some (p, m')
                       ∧ validSolution (solution p)) ∧
  (∀ dateStr d, validSolution (dailySolution (createDailyPuzzle dateStr d))).
Proof.
  split; [|split; [|split]].
  - intros m. split.
    + apply solve_from_empty; [apply shuffleArray_Permutation|done].
    + apply partialFill_validSolution, generateCompleteGrid_full.
  - intros rng. split.
    + apply solve_from_empty;
        [apply shuffleArraySeeded_Permutation|apply canPlaceSeeded_canPlace].
    + apply partialFill_validSolution, generateSeededGrid_full.
  - intros fuel d m. eexists _, _. split; [apply createPuzzle_unfold|].
    apply partialFill_validSolution, generateCompleteGrid_full.
  - intros dateStr d. rewrite createDailyPuzzle_unfold.
    unfold createDailyPuzzleFromSolution.
    destruct (shuffleArraySeeded (seq 0 81) _) as [positions ?].
    cbn [dailySolution].
    apply partialFill_validSolution, generateSeededGrid_full.
Qed.

(** C9: every grid returned by [generateCompleteGrid] and by
    [generateSeededGrid] passes [isValidGrid], so [createPuzzle] never
    calls itself again (one attempt gives the result of any number of
    attempts) and [createDailyPuzzle] never takes the branch that
    reseeds with [seed + 1]. *)
Theorem validation_never_fails :
  (∀ m, isValidGrid (generateCompleteGrid m).1 = true) ∧
  (∀ rng, isValidGrid (generateSeededGrid rng).1 = true) ∧
  (∀ fuel d m, createPuzzle (S fuel) d m = createPuzzle 1 d m
               ∧ createPuzzle 1 d m ≠ None) ∧
  (∀ dateStr d,
     createDailyPuzzle dateStr d
     = createDailyPuzzleFromSolution
         (generateSeededGrid {| seed := getDateSeed dateStr |}).1
         (generateSeededGrid {| seed := getDateSeed dateStr |}).2 dateStr d).
Proof.
  split; [|split; [|split]].
  - intros m. apply isValidGrid_full, generateCompleteGrid_full.
  - intros rng. apply isValidGrid_full, generateSeededGrid_full.
  - intros fuel d m. by rewrite !createPuzzle_unfold.
  - apply createDailyPuzzle_unfold.
Qed.

(** C3: for every difficulty, [createPuzzle] returns a puzzle with exactly
    [81 - DIFFICULTY_CELLS d] zero cells (the table being 45, 35, 28, 22),
    whose non-zero cells are those of the returned solution. *)
Theorem createPuzzle_zero_count (fuel : nat) (d : Difficulty) (m : MathRandom) :
  ∃ p m',
    createPuzzle (S fuel) d m = Some (p, m') ∧
    length (puzzle p) = 81 ∧ length (solution p) = 81 ∧
    countZeros (puzzle p) = 81 - DIFFICULTY_CELLS d ∧
    (∀ i v, puzzle p !! i = Some v → v ≠ 0%Z → solution p !! i = Some v) ∧
    DIFFICULTY_CELLS d
    = match d with easy => 45 | medium => 35 | hard => 28 | extreme => 22 end.
Proof.
  eexists _, _. split; [apply createPuzzle_unfold|]. cbn [puzzle solution].
  pose proof (generateCompleteGrid_full m) as Hfull.
  split; [|split; [|split; [|split]]].
  - rewrite removeCells_length. by destruct Hfull.
  - by destruct Hfull.
  - apply removeCells_shuffled;
      [apply shuffleArray_Permutation|done|lia].
  - intros i v. apply removeCells_lookup.
  - done.
Qed.

(** C1: the daily puzzle is a function of the date string and the
    difficulty alone. Its solution is the grid generated from the
    Mulberry32 stream seeded with the hash of the date, its puzzle
    removes cells along the shuffle drawn from the same stream, continued
    from the state generation left it in; the embedding takes no
    [MathRandom] oracle on this path because the source draws nothing
    from it. Two calls therefore agree on all 81 cells of both arrays. *)
Theorem createDailyPuzzle_deterministic (dateStr : string) (d : Difficulty) :
  let rng0 := {| seed := getDateSeed dateStr |} in
  let sol := (generateSeededGrid rng0).1 in
  let rng1 := (generateSeededGrid rng0).2 in
  let positions := (shuffleArraySeeded (seq 0 81) rng1).1 in
  dailySolution (createDailyPuzzle dateStr d) = sol ∧
  dailyPuzzle (createDailyPuzzle dateStr d)
  = removeCells positions 0 (81 - DIFFICULTY_CELLS d) sol ∧
  length (dailySolution (createDailyPuzzle dateStr d)) = 81 ∧
  length (dailyPuzzle (createDailyPuzzle dateStr d)) = 81 ∧
  ∀ first second : DailyPuzzle,
    first = createDailyPuzzle dateStr d →
    second = createDailyPuzzle dateStr d →
    ∀ i, i < 81 →
      dailyPuzzle first !! i = dailyPuzzle second !! i ∧
      dailySolution first !! i = dailySolution second !! i.
Proof.
  intros rng0 sol rng1 positions.
  rewrite createDailyPuzzle_unfold. unfold createDailyPuzzleFromSolution.
  fold rng0. fold sol. fold rng1.
  destruct (shuffleArraySeeded (seq 0 81) rng1) as [ps rng2] eqn:Hs.
  subst positions. cbn [dailySolution dailyPuzzle fst snd].
  pose proof (generateSeededGrid_full rng0) as Hfull. fold sol in Hfull.
  split; [done|]. split; [done|]. split; [by destruct Hfull|].
  split; [rewrite removeCells_length; by destruct Hfull|].
  intros first second -> -> i Hi. split; reflexivity.
Qed.

End SudokuFacts.

(** ** Correctness of the hint solver *)

Module HintsFacts.
Import JS Hints.

(** *** Vocabulary of the proofs *)

(** A hint that removes notes: its [notesToRemove] is a non-empty list. *)
Definition removesNotes (h : Hint) : Prop :=
  ∃ l, notesToRemove h = Some l ∧ l ≠ [].

(** A hint of one of the named techniques. *)
Definition named (names : list string) (h : Hint) : Prop := technique h ∈ names.

(** The 27 units, in the order the detectors scan them. *)
Definition allUnits : list (list nat) :=
  (getRowIndices <$> seq 0 9) ++ (getColIndices <$> seq 0 9) ++
  (boxRow ← seq 0 3; boxCol ← seq 0 3; [getBoxIndices boxRow boxCol]).

(** The twelve detectors as [getHint] calls them, each with the names of
    the technique it reports. *)
Definition detectorResults (grid : list Z) (notes : list (list Z))
  : list (list string * option Hint) :=
  let candidates := getAllCandidates grid notes in
  [ (["Invalid Notes"], findInvalidNotes grid notes candidates);
    (["Last Free Cell"], findLastFreeCell grid candidates);
    (["Naked Single"], findNakedSingle grid candidates);
    (["Hidden Single"], findHiddenSingle grid candidates);
    (["Pointing Pairs"; "Pointing Triples"],
     findPointingPairs grid candidates notes);
    (["Naked Pairs"], findNakedPairs grid candidates notes);
    (["Hidden Pairs"], findHiddenPairs grid candidates notes);
    (["Naked Triples"], findNakedTriples grid candidates notes);
    (["Hidden Triples"], findHiddenTriples grid candidates notes);
    (["X-Wing"], findXWing grid candidates notes);
    (["Y-Wing"], findYWing grid candidates notes);
    (["Swordfish"], findSwordfish grid candidates notes) ].

(** *** Loops with early return *)

Lemma firstSome_Some {A B : Type} (f : A → option B) (l : list A) (r : B) :
  firstSome f l = Some r → ∃ x, x ∈ l ∧ f x = Some r.
Proof.
  induction l as [|x l IH]; [done|]. simpl.
  destruct (f x) as [r'|] eqn:Hx.
  - intros [= ->]. exists x. split; [left|done].
  - intros (y & Hy & Hfy)%IH. exists y. split; [by right|done].
Qed.

Lemma firstSome_None {A B : Type} (f : A → option B) (l : list A) :
  firstSome f l = None ↔ ∀ x, x ∈ l → f x = None.
Proof.
  induction l as [|x l IH]; simpl.
  - split; [|done]. intros _ x Hx. by apply elem_of_nil in Hx.
  - destruct (f x) as [r|] eqn:Hx.
    + split; [done|]. intros H. rewrite H in Hx; [done|left].
    + rewrite IH. split.
      * intros H y [->|Hy]%elem_of_cons; [done|by apply H].
      * intros H y Hy. apply H. by right.
Qed.

Lemma firstSome_app {A B : Type} (f : A → option B) (l1 l2 : list A) :
  firstSome f (l1 ++ l2)
  = match firstSome f l1 with Some r => Some r | None => firstSome f l2 end.
Proof.
  induction l1 as [|x l1 IH]; [done|]. simpl. by destruct (f x).
Qed.

(** Every result of a loop satisfies what every result of its body does. *)
Lemma firstSome_all {A B : Type} (P : B → Prop) (f : A → option B)
    (l : list A) (r : B) :
  (∀ x r, x ∈ l → f x = Some r → P r) → firstSome f l = Some r → P r.
Proof. intros H (x & Hx & Hfx)%firstSome_Some. by apply (H x). Qed.

Lemma positive_length_nonempty {A : Type} (l : list A) : 0 < length l → l ≠ [].
Proof. by destruct l; simpl; [lia|]. Qed.

Lemma orElse_all {B : Type} (P : B → Prop) (a b : option B) (r : B) :
  (a = Some r → P r) → (b = Some r → P r) →
  match a with Some r => Some r | None => b end = Some r → P r.
Proof. destruct a; [intros H _ [= ->]; by apply H|auto]. Qed.

(** Reduces a goal [e = Some h → P h], where [e] is made of loops, tests
    and matches that end in hints, to the hints [e] can end in. *)
Ltac each_hint :=
  repeat first
    [ progress cbv beta zeta
    | match goal with
      | |- None = Some _ → _ => discriminate
      | |- Some _ = Some _ → _ => intros [= <-]
      | |- firstSome _ _ = Some ?h → ?G =>
          let P := eval pattern h in G in
          match P with ?F _ => apply (firstSome_all F); intros ? ? _ end
      | |- match _ with Some r => Some r | None => _ end = Some ?h → ?G =>
          let P := eval pattern h in G in
          match P with ?F _ => apply (orElse_all F) end
      | |- match ?x with _ => _ end = Some _ → _ => destruct x eqn:?
      end ].

Ltac solve_hint :=
  split;
  [ unfold named; cbn [technique]; repeat case_decide;
    rewrite ?elem_of_cons; auto
  | eexists; split; [reflexivity|by apply positive_length_nonempty] ].

(** *** What each detector returns *)

Lemma findInvalidNotes_hint grid notes candidates h :
  findInvalidNotes grid notes candidates = Some h →
  named ["Invalid Notes"] h ∧ removesNotes h.
Proof.
  unfold findInvalidNotes, invalidNotesAt. each_hint. split.
  - unfold named. cbn [technique]. rewrite ?elem_of_cons. auto.
  - eexists. split; [reflexivity|].
    apply positive_length_nonempty. by rewrite length_fmap.
Qed.

Lemma findPointingPairs_hint grid candidates notes h :
  findPointingPairs grid candidates notes = Some h →
  named ["Pointing Pairs"; "Pointing Triples"] h ∧ removesNotes h.
Proof.
  unfold findPointingPairs, pointingAt, pointingAlong.
  each_hint; solve_hint.
Qed.

Lemma findNakedPairs_hint grid candidates notes h :
  findNakedPairs grid candidates notes = Some h →
  named ["Naked Pairs"] h ∧ removesNotes h.
Proof.
  unfold findNakedPairs, scanUnits, nakedPairsUnit.
  each_hint; solve_hint.
Qed.

Lemma findHiddenPairs_hint grid candidates notes h :
  findHiddenPairs grid candidates notes = Some h →
  named ["Hidden Pairs"] h ∧ removesNotes h.
Proof.
  unfold findHiddenPairs, scanUnits, hiddenPairsUnit.
  each_hint; solve_hint.
Qed.

Lemma findNakedTriples_hint grid candidates notes h :
  findNakedTriples grid candidates notes = Some h →
  named ["Naked Triples"] h ∧ removesNotes h.
Proof.
  unfold findNakedTriples, scanUnits, nakedTriplesUnit.
  each_hint; solve_hint.
Qed.

Lemma findHiddenTriples_hint grid candidates notes h :
  findHiddenTriples grid candidates notes = Some h →
  named ["Hidden Triples"] h ∧ removesNotes h.
Proof.
  unfold findHiddenTriples, scanUnits, hiddenTriplesUnit.
  each_hint; solve_hint.
Qed.

Lemma findXWing_hint grid candidates notes h :
  findXWing grid candidates notes = Some h →
  named ["X-Wing"] h ∧ removesNotes h.
Proof.
  unfold findXWing, xWingRows, xWingCols.
  each_hint; solve_hint.
Qed.

Lemma findYWing_hint grid candidates notes h :
  findYWing grid candidates notes = Some h →
  named ["Y-Wing"] h ∧ removesNotes h.
Proof.
  unfold findYWing, yWingCheck.
  each_hint; solve_hint.
Qed.

Lemma findSwordfish_hint grid candidates notes h :
  findSwordfish grid candidates notes = Some h →
  named ["Swordfish"] h ∧ removesNotes h.
Proof.
  unfold findSwordfish, swordfishRows, swordfishCols.
  each_hint; solve_hint.
Qed.

Ltac solve_single :=
  split;
  [ unfold named; cbn [technique]; rewrite ?elem_of_cons; auto
  | reflexivity ].

Lemma findLastFreeCell_hint grid candidates h :
  findLastFreeCell grid candidates = Some h →
  named ["Last Free Cell"] h ∧ notesToRemove h = None.
Proof.
  unfold findLastFreeCell, lastFreeCellIn. each_hint; solve_single.
Qed.

Lemma findNakedSingle_hint grid candidates h :
  findNakedSingle grid candidates = Some h →
  named ["Naked Single"] h ∧ notesToRemove h = None.
Proof.
  unfold findNakedSingle, nakedSingleAt. each_hint; solve_single.
Qed.

Lemma findHiddenSingle_hint grid candidates h :
  findHiddenSingle grid candidates = Some h →
  named ["Hidden Single"] h ∧ notesToRemove h = None.
Proof.
  unfold findHiddenSingle, hiddenSingleIn. each_hint; solve_single.
Qed.

(** *** Detectors on a grid without empty cell *)

Lemma firstSome_is_Some {A B : Type} (f : A → option B) (l : list A) (x : A) :
  x ∈ l → is_Some (f x) → is_Some (firstSome f l).
Proof.
  intros Hx [r Hr]. destruct (firstSome f l) eqn:E; [by eexists|].
  rewrite firstSome_None in E. rewrite (E x Hx) in Hr. done.
Qed.

(** The first iteration whose body returns decides the loop. *)
Lemma firstSome_first {A B : Type} (f : A → option B) (l : list A)
    (k : nat) (x : A) (r : B) :
  l !! k = Some x → f x = Some r →
  (∀ j y, j < k → l !! j = Some y → f y = None) →
  firstSome f l = Some r.
Proof.
  revert k. induction l as [|y l IH]; intros k Hk Hx Hbefore; [done|].
  destruct k as [|k]; simpl in *.
  - simplify_eq. by rewrite Hx.
  - rewrite (Hbefore 0 y) by (done || lia).
    apply (IH k); [done..|]. intros j z Hj Hz. apply (Hbefore (S j)); [lia|done].
Qed.

Lemma orElse_None {B : Type} (a b : option B) :
  a = None → b = None →
  match a with Some r => Some r | None => b end = None.
Proof. by intros -> ->. Qed.

Lemma filter_all_false {A : Type} (P : A → Prop) `{∀ x, Decision (P x)}
    (l : list A) :
  (∀ x, ¬ P x) → filter P l = [].
Proof.
  intros HP. apply elem_of_nil_inv. intros x [Hx _]%list_elem_of_filter.
  by apply (HP x).
Qed.

Lemma omap_all_None {A B : Type} (f : A → option B) (l : list A) :
  (∀ x, f x = None) → omap f l = [].
Proof. intros Hf. induction l as [|x l IH]; [done|]. simpl. by rewrite Hf. Qed.

Lemma scanUnits_None (checkUnit : list nat → string → option Hint) :
  (∀ indices unitName, checkUnit indices unitName = None) →
  scanUnits checkUnit = None.
Proof.
  intros H. unfold scanUnits.
  repeat first [apply H | apply firstSome_None; intros ? _ | apply orElse_None].
Qed.

Lemma getAllCandidates_lookup (grid : list Z) (notes : list (list Z)) (i : nat) :
  i < 81 →
  getAllCandidates grid notes !!! i = set_of_list (getCandidates grid notes i).
Proof.
  intros Hi. unfold getAllCandidates. apply list_lookup_total_correct.
  rewrite list_lookup_fmap.
  by rewrite (proj2 (lookup_seq 0 81 i i)) by (split; [done|lia]).
Qed.

Lemma getAllCandidates_full (grid : list Z) (notes : list (list Z)) :
  (∀ i, grid !! i ≠ Some 0%Z) →
  ∀ i, getAllCandidates grid notes !!! i = [].
Proof.
  intros Hg i. destruct (decide (i < 81)) as [Hi|Hi].
  - rewrite getAllCandidates_lookup by done. unfold getCandidates.
    by rewrite decide_True by apply Hg.
  - unfold getAllCandidates. rewrite list_lookup_total_alt, list_lookup_fmap.
    by rewrite lookup_seq_ge by lia.
Qed.

Section full_grid.
Variable grid : list Z.
Variables candidates notes : list (list Z).
Hypothesis no_empty_cell : ∀ i, grid !! i ≠ Some 0%Z.
Hypothesis no_candidate : ∀ i, candidates !!! i = [].

Lemma no_cell_with (num : Z) (l : list nat) :
  filter (λ i, num ∈ candidates !!! i) l = [].
Proof.
  apply filter_all_false. intros i. rewrite no_candidate. apply not_elem_of_nil.
Qed.

Lemma findInvalidNotes_full : findInvalidNotes grid notes candidates = None.
Proof.
  apply firstSome_None. intros i _. unfold invalidNotesAt.
  by rewrite decide_True by apply no_empty_cell.
Qed.

Lemma findLastFreeCell_full : findLastFreeCell grid candidates = None.
Proof.
  assert (∀ u t, lastFreeCellIn grid candidates u t = None) as H.
  { intros u t. unfold lastFreeCellIn.
    by rewrite filter_all_false by apply no_empty_cell. }
  unfold findLastFreeCell.
  repeat first [apply H | apply firstSome_None; intros ? _ | apply orElse_None].
Qed.

Lemma findNakedSingle_full : findNakedSingle grid candidates = None.
Proof.
  apply firstSome_None. intros i _. unfold nakedSingleAt.
  by rewrite decide_True by apply no_empty_cell.
Qed.

Lemma findHiddenSingle_full : findHiddenSingle grid candidates = None.
Proof.
  assert (∀ u t, hiddenSingleIn grid candidates u t = None) as H.
  { intros u t. apply firstSome_None. intros num _.
    case_decide; [done|]. by rewrite no_cell_with. }
  unfold findHiddenSingle.
  repeat first [apply H | apply firstSome_None; intros ? _ | apply orElse_None].
Qed.

Lemma findPointingPairs_full : findPointingPairs grid candidates notes = None.
Proof.
  unfold findPointingPairs.
  repeat (apply firstSome_None; intros ? _).
  unfold pointingAt. cbv zeta. case_decide; [done|]. by rewrite no_cell_with.
Qed.

Lemma findNakedPairs_full : findNakedPairs grid candidates notes = None.
Proof.
  apply scanUnits_None. intros u t. unfold nakedPairsUnit.
  rewrite filter_all_false; [done|]. intros i [Hi _]. by apply no_empty_cell in Hi.
Qed.

Lemma findNakedTriples_full : findNakedTriples grid candidates notes = None.
Proof.
  apply scanUnits_None. intros u t. unfold nakedTriplesUnit.
  rewrite filter_all_false; [done|]. intros i [Hi _]. by apply no_empty_cell in Hi.
Qed.

Lemma findHiddenPairs_full : findHiddenPairs grid candidates notes = None.
Proof.
  apply scanUnits_None. intros u t. unfold hiddenPairsUnit.
  rewrite filter_all_false by apply no_empty_cell.
  by apply firstSome_None.
Qed.

Lemma findHiddenTriples_full : findHiddenTriples grid candidates notes = None.
Proof.
  apply scanUnits_None. intros u t. unfold hiddenTriplesUnit.
  rewrite filter_all_false by apply no_empty_cell.
  by apply firstSome_None.
Qed.

Lemma findXWing_full : findXWing grid candidates notes = None.
Proof.
  apply firstSome_None. intros num _. apply orElse_None.
  - apply firstSome_None. intros row1 _. by rewrite no_cell_with.
  - apply firstSome_None. intros col1 _. by rewrite no_cell_with.
Qed.

Lemma findYWing_full : findYWing grid candidates notes = None.
Proof.
  unfold findYWing. rewrite filter_all_false; [done|].
  intros i [Hi _]. by apply no_empty_cell in Hi.
Qed.

Lemma linesWithNum_full (num : Z) (lineIndices : nat → list nat)
    (across : nat → nat) :
  linesWithNum candidates num lineIndices across = [].
Proof.
  apply omap_all_None. intros line. rewrite no_cell_with.
  rewrite decide_False; [done|]. simpl. lia.
Qed.

Lemma findSwordfish_full : findSwordfish grid candidates notes = None.
Proof.
  apply firstSome_None. intros num _. unfold swordfishRows, swordfishCols.
  by rewrite !linesWithNum_full.
Qed.

End full_grid.

(** *** Single-placement detectors find the pattern they look for *)

Lemma orElse_is_Some {B : Type} (a b : option B) :
  is_Some a ∨ is_Some b →
  is_Some (match a with Some r => Some r | None => b end).
Proof. destruct a; [by eexists|]. by intros [[? [=]]|?]. Qed.

(** A property of a unit-wise check, once it holds in one unit, holds for
    the three loops over rows, columns and boxes. *)
Lemma units_is_Some (rowCheck colCheck : nat → option Hint)
    (boxCheck : nat → nat → option Hint) (check : list nat → Prop)
    (u : list nat) :
  (∀ row, check (getRowIndices row) → is_Some (rowCheck row)) →
  (∀ col, check (getColIndices col) → is_Some (colCheck col)) →
  (∀ boxRow boxCol,
     check (getBoxIndices boxRow boxCol) → is_Some (boxCheck boxRow boxCol)) →
  u ∈ allUnits → check u →
  is_Some (match firstSome rowCheck (seq 0 9) with
           | Some r => Some r
           | None =>
               match firstSome colCheck (seq 0 9) with
               | Some r => Some r
               | None =>
                   firstSome (λ boxRow,
                     firstSome (boxCheck boxRow) (seq 0 3)) (seq 0 3)
               end
           end).
Proof.
  intros Hrow Hcol Hbox Hu Hcheck. unfold allUnits in Hu.
  apply elem_of_app in Hu as [Hu|Hu]; [|apply elem_of_app in Hu as [Hu|Hu]].
  - apply list_elem_of_fmap in Hu as (row & -> & Hin).
    apply orElse_is_Some. left. apply (firstSome_is_Some _ _ row); auto.
  - apply list_elem_of_fmap in Hu as (col & -> & Hin).
    apply orElse_is_Some. right. apply orElse_is_Some. left.
    apply (firstSome_is_Some _ _ col); auto.
  - apply list_elem_of_bind in Hu as (boxRow & Hu & Hr).
    apply list_elem_of_bind in Hu as (boxCol & Hu & Hc).
    apply list_elem_of_singleton in Hu as ->.
    apply orElse_is_Some. right. apply orElse_is_Some. right.
    apply (firstSome_is_Some _ _ boxRow); [done|].
    apply (firstSome_is_Some _ _ boxCol); auto.
Qed.

Lemma findNakedSingle_found grid candidates i :
  i < 81 → grid !! i = Some 0%Z → length (candidates !!! i) = 1 →
  is_Some (findNakedSingle grid candidates).
Proof.
  intros Hi Hg Hc. apply (firstSome_is_Some _ _ i); [apply elem_of_seq; lia|].
  unfold nakedSingleAt. rewrite decide_False by (by intros []).
  rewrite decide_True by done.
  destruct (candidates !!! i) as [|v l]; [done|]. by eexists.
Qed.

Lemma findLastFreeCell_found grid candidates u cell v :
  u ∈ allUnits → filter (λ i, grid !! i = Some 0%Z) u = [cell] →
  head (candidates !!! cell) = Some v → v ≠ 0%Z →
  is_Some (findLastFreeCell grid candidates).
Proof.
  intros Hu Hcell Hv Hv0.
  assert (∀ t, is_Some (lastFreeCellIn grid candidates u t)) as H.
  { intros t. unfold lastFreeCellIn.
    rewrite Hcell, Hv, decide_True by done. by eexists. }
  unfold findLastFreeCell.
  apply (units_is_Some _ _ _
           (λ u, ∀ t, is_Some (lastFreeCellIn grid candidates u t)) u);
    [by (intros; auto)..|done|done].
Qed.

Lemma findHiddenSingle_found grid candidates u num cell :
  u ∈ allUnits → num ∈ digits →
  ¬ Exists (λ i, grid !! i = Some num) u →
  filter (λ i, num ∈ candidates !!! i) u = [cell] →
  is_Some (findHiddenSingle grid candidates).
Proof.
  intros Hu Hnum Hfree Hcell.
  assert (∀ t, is_Some (hiddenSingleIn grid candidates u t)) as H.
  { intros t. apply (firstSome_is_Some _ _ num); [done|].
    rewrite decide_False, Hcell by done. by eexists. }
  unfold findHiddenSingle.
  apply (units_is_Some _ _ _
           (λ u, ∀ t, is_Some (hiddenSingleIn grid candidates u t)) u);
    [by (intros; auto)..|done|done].
Qed.

(** *** Properties of the hint solver *)

Lemma detectorResults_named grid notes names h :
  (names, Some h) ∈ detectorResults grid notes → named names h.
Proof.
  unfold detectorResults. cbv zeta. rewrite !elem_of_cons, elem_of_nil.
  intros [H|[H|[H|[H|[H|[H|[H|[H|[H|[H|[H|[H|[]]]]]]]]]]]]];
    injection H as -> H; symmetry in H;
    [ apply findInvalidNotes_hint in H | apply findLastFreeCell_hint in H
    | apply findNakedSingle_hint in H | apply findHiddenSingle_hint in H
    | apply findPointingPairs_hint in H | apply findNakedPairs_hint in H
    | apply findHiddenPairs_hint in H | apply findNakedTriples_hint in H
    | apply findHiddenTriples_hint in H | apply findXWing_hint in H
    | apply findYWing_hint in H | apply findSwordfish_hint in H ];
    by destruct H.
Qed.

(** C2: [getHint] computes the candidates once and returns the result of
    the first detector, in the order Invalid Notes, Last Free Cell, Naked
    Single, Hidden Single, Pointing Pairs/Triples, Naked Pairs, Hidden
    Pairs, Naked Triples, Hidden Triples, X-Wing, Y-Wing, Swordfish, that
    returns a hint; that hint carries the name of its technique; when all
    twelve return none, so does [getHint]. *)
Theorem getHint_priority (grid solution : list Z) (notes : list (list Z)) :
  let results := detectorResults grid notes in
  length results = 12 ∧
  getHint grid solution notes = firstSome snd results ∧
  (∀ k names h,
     results !! k = Some (names, Some h) →
     (∀ j r, j < k → results !! j = Some r → r.2 = None) →
     getHint grid solution notes = Some h ∧ named names h) ∧
  ((∀ r, r ∈ results → r.2 = None) → getHint grid solution notes = None).
Proof.
  intros results.
  assert (getHint grid solution notes = firstSome snd results) as Heq.
  { unfold getHint, results, detectorResults. cbn [firstSome snd].
    by destruct (findSwordfish _ _ _). }
  split; [done|]. split; [done|]. rewrite Heq. split.
  - intros k names h Hk Hbefore. split.
    + by apply (firstSome_first _ _ k (names, Some h)).
    + apply (detectorResults_named grid notes).
      apply list_elem_of_lookup. by exists k.
  - intros Hnone. by apply firstSome_None.
Qed.

(** C10: the result of [getHint] does not depend on the solution it is
    given. *)
Theorem getHint_ignores_solution (grid : list Z) (notes : list (list Z))
    (s1 s2 : list Z) :
  getHint grid s1 notes = getHint grid s2 notes.
Proof. reflexivity. Qed.

(** Scanning continues past a pattern that touches no note: on the empty
    grid with the notes {1,2} in cells 0 and 1 and {1,5} in cell 9, the
    naked pair of cells 0 and 1 is first met in row 1, where no other cell
    has notes, and is reported for box 1, where cell 9 loses its note 1. *)
Example findNakedPairs_scanning_continues :
  let grid := replicate 81 0%Z in
  let notes := [[1; 2]; [1; 2]; []; []; []; []; []; []; []; [1; 5]]%Z in
  let candidates := getAllCandidates grid notes in
  nakedPairsUnit grid candidates notes (getRowIndices 0) "row 1" = None ∧
  ∃ h, findNakedPairs grid candidates notes = Some h ∧
       cellIndex h = 0 ∧ notesToRemove h = Some [(9, 1%Z)] ∧
       explanation h
       = "Cells form a naked pair with {1, 2} in box 1. These numbers can be removed from other cells.".
Proof.
  split; [by vm_compute|]. eexists. split; [vm_compute; reflexivity|].
  by vm_compute.
Qed.

(** C7: on a grid of 81 cells none of which is empty, and without
    duplicate in a row, column or box, [getHint] returns none, whatever
    the notes are. *)
Theorem getHint_full_grid (grid solution : list Z) (notes : list (list Z)) :
  length grid = 81 → 0%Z ∉ grid → Sudoku.isValidGrid grid = true →
  (∀ r, r ∈ detectorResults grid notes → r.2 = None) ∧
  getHint grid solution notes = None.
Proof.
  intros _ Hzero _.
  assert (∀ i, grid !! i ≠ Some 0%Z) as Hg.
  { intros i Hi. apply Hzero. by apply list_elem_of_lookup_2 in Hi. }
  pose proof (getAllCandidates_full grid notes Hg) as Hc.
  unfold getHint, detectorResults. cbv zeta.
  rewrite findInvalidNotes_full, findLastFreeCell_full, findNakedSingle_full,
    findHiddenSingle_full, findPointingPairs_full, findNakedPairs_full,
    findHiddenPairs_full, findNakedTriples_full, findHiddenTriples_full,
    findXWing_full, findYWing_full, findSwordfish_full by done.
  split; [|done]. intros r. rewrite !elem_of_cons, elem_of_nil.
  intros H. repeat destruct H as [->|H]; done.
Qed.

Lemma getHint_full_grid_witness :
  (∀ r, r ∈ detectorResults SudokuFacts.referenceGrid [] → r.2 = None) ∧
  getHint SudokuFacts.referenceGrid SudokuFacts.referenceGrid [] = None.
Proof.
  apply getHint_full_grid.
  - reflexivity.
  - apply (proj1 (bool_decide_eq_false _)). vm_compute. reflexivity.
  - vm_compute. reflexivity.
Defined.

(** C8, as the code has it: when no note is invalid and no unit has a
    last free cell to report, and [X] is the first empty cell, in index
    order, whose candidate set has exactly one member, [v] being that
    member, [getHint] returns the Naked Single hint for [X] with value
    [v]. *)
Theorem getHint_first_naked_single (grid solution : list Z)
    (notes : list (list Z)) (X : nat) (v : Z) :
  let candidates := getAllCandidates grid notes in
  X < 81 → grid !! X = Some 0%Z → candidates !!! X = [v] →
  (∀ Y, Y < X → grid !! Y = Some 0%Z → length (candidates !!! Y) ≠ 1) →
  findInvalidNotes grid notes candidates = None →
  findLastFreeCell grid candidates = None →
  ∃ h, getHint grid solution notes = Some h ∧
       technique h = "Naked Single" ∧ cellIndex h = X ∧ value h = v.
Proof.
  intros candidates HX Hempty Hv Hfirst Hinvalid Hlast.
  assert (∃ h, nakedSingleAt grid candidates X = Some h ∧
               technique h = "Naked Single" ∧ cellIndex h = X ∧ value h = v)
    as (h & Hh & Hprops).
  { unfold nakedSingleAt. rewrite decide_False by (by intros []).
    rewrite Hv. simpl. eexists. split; [reflexivity|done]. }
  exists h. split; [|done].
  unfold getHint. fold candidates. cbv zeta. rewrite Hinvalid, Hlast.
  assert (findNakedSingle grid candidates = Some h) as ->; [|done].
  apply (firstSome_first _ _ X X); [by apply lookup_seq_lt|done|].
  intros j Y Hj [-> _]%lookup_seq. simpl. unfold nakedSingleAt.
  case_decide as Hg; [done|]. rewrite decide_False; [done|].
  apply Hfirst; [done|]. by destruct (decide (grid !! j = Some 0%Z)).
Qed.

Lemma getHint_first_naked_single_witness :
  ∃ h, getHint (replicate 81 0%Z) [] [[]; [2%Z]] = Some h ∧
       technique h = "Naked Single" ∧ cellIndex h = 1 ∧ value h = 2%Z.
Proof.
  apply (getHint_first_naked_single (replicate 81 0%Z) [] [[]; [2%Z]] 1 2).
  - lia.
  - reflexivity.
  - vm_compute. reflexivity.
  - intros Y HY _. assert (Y = 0) as -> by lia. vm_compute. lia.
  - vm_compute. reflexivity.
  - vm_compute. reflexivity.
Defined.

(** C8 as stated fails when an earlier cell also has a single candidate:
    on the empty grid with the notes {1} in cell 0 and {2} in cell 1, cell
    1 is empty with the single candidate 2, no note is invalid, no unit
    has a last free cell, and [getHint] returns the Naked Single of cell
    0. *)
Lemma getHint_naked_single_counterexample :
  (replicate 81 0%Z) !! 1 = Some 0%Z ∧
  getAllCandidates (replicate 81 0%Z) [[1%Z]; [2%Z]] !!! 1 = [2%Z] ∧
  findInvalidNotes (replicate 81 0%Z) [[1%Z]; [2%Z]]
    (getAllCandidates (replicate 81 0%Z) [[1%Z]; [2%Z]]) = None ∧
  findLastFreeCell (replicate 81 0%Z)
    (getAllCandidates (replicate 81 0%Z) [[1%Z]; [2%Z]]) = None ∧
  (∃ h, getHint (replicate 81 0%Z) [] [[1%Z]; [2%Z]] = Some h ∧
        technique h = "Naked Single" ∧ cellIndex h = 0 ∧ value h = 1%Z) ∧
  ¬ (∃ h, getHint (replicate 81 0%Z) [] [[1%Z]; [2%Z]] = Some h ∧
          cellIndex h = 1 ∧ value h = 2%Z).
Proof.
  split; [reflexivity|]. split; [by vm_compute|].
  split; [by vm_compute|]. split; [by vm_compute|].
  assert (∃ h, getHint (replicate 81 0%Z) [] [[1%Z]; [2%Z]] = Some h ∧
               technique h = "Naked Single" ∧ cellIndex h = 0 ∧ value h = 1%Z)
    as (h & Hh & Ht & Hc & Hv).
  { eexists. split; [vm_compute; reflexivity|]. by vm_compute. }
  split; [by exists h|]. intros (h' & Hh' & Hc' & _).
  rewrite Hh in Hh'. simplify_eq. congruence.
Qed.

(** C5: a filled cell has no candidate; an empty cell with a non-empty
    note set has the legal values that are also noted; an empty cell
    without notes has all its legal values; in every case the candidates
    are among the legal values. *)
Theorem getCandidates_spec (grid : list Z) (notes : list (list Z)) (index : nat) :
  (grid !! index ≠ Some 0%Z → getCandidates grid notes index = []) ∧
  (grid !! index = Some 0%Z →
     (∀ s, notes !! index = Some s → s ≠ [] →
        getCandidates grid notes index
          = filter (λ n, n ∈ s) (getPossibleValues grid index) ∧
        ∀ n, n ∈ getCandidates grid notes index
             ↔ n ∈ getPossibleValues grid index ∧ n ∈ s) ∧
     (notes !! index = None ∨ notes !! index = Some [] →
        getCandidates grid notes index = getPossibleValues grid index)) ∧
  (∀ n, n ∈ getCandidates grid notes index → n ∈ getPossibleValues grid index).
Proof.
  unfold getCandidates. split; [|split].
  - intros Hf. by rewrite decide_True.
  - intros He. rewrite decide_False by (by intros []). split.
    + intros s -> Hs. rewrite decide_True by (destruct s; simpl; [done|lia]).
      split; [done|]. intros n. rewrite list_elem_of_filter. tauto.
    + intros [-> | ->]; [done|]. by rewrite decide_False by (simpl; lia).
  - intros n. case_decide; [by rewrite elem_of_nil|].
    destruct (notes !! index) as [s|]; [|done].
    case_decide; [|done]. rewrite list_elem_of_filter. tauto.
Qed.

Lemma getCandidates_spec_witness :
  getCandidates (replicate 81 0%Z) [[1; 2]%Z] 0 = [1; 2]%Z ∧
  ∀ n, n ∈ getCandidates (replicate 81 0%Z) [[1; 2]%Z] 0 →
       n ∈ getPossibleValues (replicate 81 0%Z) 0.
Proof.
  split; [reflexivity|].
  apply (getCandidates_spec (replicate 81 0%Z) [[1; 2]%Z] 0).
Defined.

End HintsFacts.

(** ** Further properties of the generator module *)

Module SudokuMore.
Import JS Sudoku SudokuFacts.

(** *** Sets *)

Lemma elem_of_foldl_set_add {A : Type} `{EqDecision A} (acc l : list A) (x : A) :
  x ∈ foldl set_add acc l ↔ x ∈ acc ∨ x ∈ l.
Proof.
  revert acc. induction l as [|y l IH]; intros acc; simpl.
  - rewrite elem_of_nil. tauto.
  - rewrite IH, elem_of_set_add, elem_of_cons. tauto.
Qed.

Lemma elem_of_set_of_list {A : Type} `{EqDecision A} (l : list A) (x : A) :
  x ∈ set_of_list l ↔ x ∈ l.
Proof.
  unfold set_of_list. rewrite elem_of_foldl_set_add, elem_of_nil. tauto.
Qed.

Lemma NoDup_foldl_set_add {A : Type} `{EqDecision A} (acc l : list A) :
  NoDup acc → NoDup (foldl set_add acc l).
Proof.
  revert acc. induction l as [|y l IH]; intros acc Hacc; [done|]. simpl.
  apply IH. unfold set_add. case_decide; [done|].
  apply NoDup_app. split; [done|]. split; [|apply NoDup_singleton].
  intros x Hx ->%list_elem_of_singleton. done.
Qed.

Lemma NoDup_set_of_list {A : Type} `{EqDecision A} (l : list A) :
  NoDup (set_of_list l).
Proof. apply NoDup_foldl_set_add, NoDup_nil_2. Qed.

Lemma foldl_set_add_NoDup {A : Type} `{EqDecision A} (acc l : list A) :
  NoDup (acc ++ l) → foldl set_add acc l = acc ++ l.
Proof.
  revert acc. induction l as [|y l IH]; intros acc Hnd; simpl.
  - by rewrite app_nil_r.
  - unfold set_add. rewrite decide_False.
    + rewrite IH; rewrite <- app_assoc; done.
    + apply NoDup_app in Hnd as (_ & Hdisj & _). intros Hy.
      apply (Hdisj y Hy). left.
Qed.

(** A list without repetition is the set of its elements, in its order. *)
Lemma set_of_list_NoDup {A : Type} `{EqDecision A} (l : list A) :
  NoDup l → set_of_list l = l.
Proof. intros H. unfold set_of_list. by rewrite foldl_set_add_NoDup. Qed.

Lemma set_of_list_length_le {A : Type} `{EqDecision A} (l : list A) :
  length (set_of_list l) ≤ length l.
Proof.
  apply submseteq_length, NoDup_submseteq; [apply NoDup_set_of_list|].
  intros x. by rewrite elem_of_set_of_list.
Qed.

Lemma set_of_list_full_length {A : Type} `{EqDecision A} (l : list A) :
  length (set_of_list l) = length l ↔ NoDup l.
Proof.
  split.
  - intros Hlen.
    assert (set_of_list l ≡ₚ l) as <-; [|apply NoDup_set_of_list].
    apply submseteq_length_Permutation; [|lia].
    apply NoDup_submseteq; [apply NoDup_set_of_list|].
    intros x. by rewrite elem_of_set_of_list.
  - intros H. by rewrite set_of_list_NoDup.
Qed.

(** *** Solved puzzles *)

Lemma isPuzzleSolved_lookup (grid solution : list Z) :
  isPuzzleSolved grid solution = true
  ↔ ∀ i v, grid !! i = Some v → solution !! i = Some v.
Proof.
  unfold isPuzzleSolved. rewrite forallb_forall. split.
  - intros H i v Hi.
    assert ((i, v) ∈ imap pair grid) as Hin%list_elem_of_In
      by (by apply (elem_of_lookup_imap_2 pair)).
    by apply H, bool_decide_eq_true in Hin.
  - intros H [i v] Hin%list_elem_of_In.
    apply elem_of_lookup_imap_1 in Hin as (i' & v' & [= -> ->] & Hi).
    by apply bool_decide_eq_true, H.
Qed.

Lemma prefix_lookup_iff {A : Type} (l k : list A) :
  l `prefix_of` k ↔ ∀ i x, l !! i = Some x → k !! i = Some x.
Proof.
  split.
  - intros H i x Hi. by apply (prefix_lookup_Some l).
  - intros H. exists (drop (length l) k). apply list_eq. intros i.
    destruct (decide (i < length l)) as [Hi|Hi].
    + rewrite lookup_app_l by done.
      destruct (lookup_lt_is_Some_2 l i Hi) as [x Hx]. rewrite Hx. by apply H.
    + rewrite lookup_app_r, lookup_drop by lia. f_equal. lia.
Qed.

(** X1: [isPuzzleSolved] holds exactly when the grid is an initial segment
    of the solution: for arrays of the same length, when they are equal;
    the empty grid counts as solved, and so does every grid against
    itself. *)
Theorem isPuzzleSolved_prefix (grid solution : list Z) :
  (isPuzzleSolved grid solution = true ↔ grid `prefix_of` solution) ∧
  (length grid = length solution →
   (isPuzzleSolved grid solution = true ↔ grid = solution)) ∧
  isPuzzleSolved [] solution = true ∧
  isPuzzleSolved grid grid = true.
Proof.
  assert (isPuzzleSolved grid solution = true ↔ grid `prefix_of` solution)
    as Hspec by (by rewrite isPuzzleSolved_lookup, prefix_lookup_iff).
  split; [done|]. split; [|split].
  - intros Hlen. rewrite Hspec. split.
    + intros H. by apply prefix_length_eq; [|lia].
    + by intros ->.
  - done.
  - by apply isPuzzleSolved_lookup.
Qed.

(** *** Valid placements *)

Ltac in_list :=
  repeat first [apply list_elem_of_here | apply list_elem_of_further].

Lemma isValidPlacement_placeCells (g : list Z) (index : nat) (num : Z) :
  isValidPlacement g index num = true
  ↔ ∀ j, j ∈ placeCells (index `div` 9) (index `mod` 9) → j ≠ index →
         g !! j ≠ Some num.
Proof.
  pose proof (Nat.div_mod index 9) as Hindex.
  unfold isValidPlacement, placeCells. cbv zeta.
  set (row := index `div` 9) in *. set (col := index `mod` 9) in *.
  set (br := row `div` 3). set (bc := col `div` 3).
  cbn [seq fmap list_fmap mbind list_bind app forallb].
  rewrite ?andb_true_r, !andb_true_iff, !negb_true_iff, !bool_decide_eq_false.
  split.
  - intros H j Hj Hne. rewrite !elem_of_cons, elem_of_nil in Hj.
    intros Hg. repeat destruct Hj as [->|Hj]; [..|done];
      (destruct H as (((? & ? & ? & ? & ? & ? & ? & ? & ?) &
                       (? & ? & ? & ? & ? & ? & ? & ? & ?)) &
                      ((? & ? & ?) & (? & ? & ?) & (? & ? & ?)));
       match goal with
       | Hk : ¬ (_ ∧ g !! ?e = Some num), Hg : g !! ?e = Some num |- _ =>
           apply Hk; split; [lia|done]
       end).
  - intros H.
    repeat split; intros [Hc Hg];
      match type of Hg with
      | g !! ?e = Some num => apply (H e); [in_list|lia|done]
      end.
Qed.

Lemma isValidPlacement_related (g : list Z) (index : nat) (num : Z) :
  index < 81 →
  isValidPlacement g index num = true
  ↔ ∀ j, j < 81 → j ≠ index → related index j = true → g !! j ≠ Some num.
Proof.
  intros Hi. rewrite isValidPlacement_placeCells. split.
  - intros H j Hj Hne Hrel. apply H; [|done]. by apply related_placeCells.
  - intros H j Hj Hne. pose proof (placeCells_lt _ _ Hi Hj).
    apply H; [done..|]. by apply related_placeCells.
Qed.

(** *** What [isValidGrid] accepts *)

(** No two cells of a unit read the same value, the value 0 apart.  A
    cell beyond the end of the array reads as [None] (undefined), which
    the code treats like any other value different from 0. *)
Definition conflictFree (g : list Z) : Prop :=
  ∀ i j, i < 81 → j < 81 → i ≠ j → related i j = true →
         g !! i ≠ Some 0%Z → g !! i ≠ g !! j.

Lemma noRepeat_spec (g : list Z) (seen : list (option Z)) (cells : list nat) :
  noRepeat g seen cells = true
  ↔ NoDup (filter (λ v, v ≠ Some 0%Z) ((λ i, g !! i) <$> cells)) ∧
    ∀ x, x ∈ filter (λ v, v ≠ Some 0%Z) ((λ i, g !! i) <$> cells) →
         x ∉ seen.
Proof.
  revert seen. induction cells as [|i cells IH]; intros seen.
  - cbn. split; [|done]. intros _. split; [constructor|].
    by intros x ?%elem_of_nil.
  - rewrite fmap_cons, filter_cons. cbn [noRepeat]. case_decide as Hv.
    + case_decide as Hseen.
      * split; [done|]. intros [_ H]. exfalso. by apply (H (g !! i)); [left|].
      * rewrite IH, NoDup_cons. split.
        -- intros [Hnd H]. split; [split; [|done]|].
           ++ intros Hin. apply (H _ Hin), elem_of_set_add. by right.
           ++ intros x [->|Hin]%elem_of_cons; [done|].
              intros Hx. apply (H _ Hin), elem_of_set_add. by left.
        -- intros [[Hi Hnd] H]. split; [done|].
           intros x Hin [Hx| ->]%elem_of_set_add; [|done].
           by apply (H x); [right|].
    + apply IH.
Qed.

Lemma NoDup_filter_fmap {A B : Type} (f : A → B) (P : B → Prop)
    `{∀ x, Decision (P x)} (l : list A) :
  NoDup l →
  NoDup (filter P (f <$> l))
  ↔ ∀ i j, i ∈ l → j ∈ l → P (f i) → f i = f j → i = j.
Proof.
  induction 1 as [|a l Ha Hnd IH].
  - split; [|constructor]. by intros _ i j ?%elem_of_nil.
  - rewrite fmap_cons, filter_cons. case_decide as HP.
    + rewrite NoDup_cons, IH. split.
      * intros [Hfa H'] i j [->|Hi]%elem_of_cons [->|Hj]%elem_of_cons HPi Heq.
        -- done.
        -- exfalso. apply Hfa, list_elem_of_filter. split; [done|].
           rewrite Heq. by apply list_elem_of_fmap_2.
        -- exfalso. apply Hfa, list_elem_of_filter. split; [done|].
           rewrite <- Heq. by apply list_elem_of_fmap_2.
        -- by apply H'.
      * intros H'. split.
        -- intros [_ (j & Heq & Hj)%list_elem_of_fmap]%list_elem_of_filter.
           apply Ha. by rewrite (H' a j) by (done || by left || by right).
        -- intros i j Hi Hj. apply H'; by right.
    + rewrite IH. split.
      * intros H' i j [->|Hi]%elem_of_cons [->|Hj]%elem_of_cons HPi Heq.
        -- done.
        -- done.
        -- by rewrite Heq in HPi.
        -- by apply H'.
      * intros H' i j Hi Hj. apply H'; by right.
Qed.

Lemma common_unit_table :
  forallb (λ i,
    forallb (λ j,
      implb (related i j)
        (existsb (λ u, bool_decide (i ∈ u) && bool_decide (j ∈ u)) units))
      (seq 0 81)) (seq 0 81) = true.
Proof. vm_compute. reflexivity. Qed.

Lemma related_common_unit (i j : nat) :
  i < 81 → j < 81 → related i j = true → ∃ u, u ∈ units ∧ i ∈ u ∧ j ∈ u.
Proof.
  intros Hi Hj Hrel.
  pose proof (forallb_seq_lt _ _ _ common_unit_table Hi) as H. cbv beta in H.
  apply (forallb_seq_lt _ _ j) in H; [|done]. cbv beta in H.
  rewrite Hrel in H. apply existsb_exists in H as (u & Hu%list_elem_of_In & H).
  apply andb_true_iff in H as [H1%bool_decide_eq_true H2%bool_decide_eq_true].
  by exists u.
Qed.

Lemma isValidGrid_conflictFree (g : list Z) :
  isValidGrid g = true ↔ conflictFree g.
Proof.
  rewrite isValidGrid_units, forallb_forall. split.
  - intros H i j Hi Hj Hij Hrel Hv Heq.
    destruct (related_common_unit i j Hi Hj Hrel) as (u & Hu & Hiu & Hju).
    destruct (unit_facts u Hu) as (Hnd & _).
    apply list_elem_of_In, H, noRepeat_spec in Hu as [Hu _].
    apply Hij.
    apply (proj1 (NoDup_filter_fmap (λ i, g !! i) _ u Hnd) Hu i j); done.
  - intros H u Hu%list_elem_of_In.
    destruct (unit_facts u Hu) as (Hnd & _ & Hrel).
    apply noRepeat_spec. split; [|by intros x _ ?%elem_of_nil].
    apply NoDup_filter_fmap; [done|]. intros i j Hi Hj Hv Heq.
    destruct (decide (i = j)) as [|Hij]; [done|]. exfalso.
    destruct (Hrel i Hi) as [Hi81 Hr]. destruct (Hrel j Hj) as [Hj81 _].
    by apply (H i j); [..|apply Hr| |].
Qed.

Lemma conflictFree_consistent (g : list Z) :
  length g = 81 → conflictFree g ↔ consistent g.
Proof.
  intros Hlen. split.
  - intros H i j v Hi Hj Hij Hrel Hv Hgi Hgj.
    apply (H i j); [done..| |congruence]. rewrite Hgi. congruence.
  - intros H i j Hi Hj Hij Hrel Hv Heq.
    destruct (lookup_lt_is_Some_2 g i) as [v Hgi]; [lia|].
    apply (H i j v); [done..| |done|congruence]. congruence.
Qed.

(** X2: [isValidGrid] accepts a grid exactly when no two different cells
    of a row, column or box read the same value other than 0, a read past
    the end of the array counting as a value of its own.  So an array of
    fewer than 80 cells is always rejected, and for 81 cells the test is
    the usual one: no digit twice in a unit. *)
Theorem isValidGrid_spec (g : list Z) :
  (isValidGrid g = true ↔ conflictFree g) ∧
  (length g < 80 → isValidGrid g = false) ∧
  (length g = 81 → (isValidGrid g = true ↔ consistent g)).
Proof.
  split; [apply isValidGrid_conflictFree|]. split.
  - intros Hlen. apply not_true_is_false. intros H%isValidGrid_conflictFree.
    apply (H 79 80); [lia..|done| |].
    + by rewrite lookup_ge_None_2 by lia.
    + by rewrite !lookup_ge_None_2 by lia.
  - intros Hlen. by rewrite isValidGrid_conflictFree, conflictFree_consistent.
Qed.

Lemma consistent_insert (g : list Z) (index : nat) (num : Z) :
  length g = 81 → index < 81 → consistent g →
  isValidPlacement g index num = true → consistent (<[index:=num]> g).
Proof.
  intros Hlen Hidx Hcons Hplace i j v Hi Hj Hij Hrel Hv Hgi Hgj.
  rewrite isValidPlacement_related in Hplace by done.
  destruct (decide (i = index)) as [->|Hi'];
    [|destruct (decide (j = index)) as [->|Hj']].
  - rewrite list_lookup_insert_eq in Hgi by lia.
    rewrite list_lookup_insert_ne in Hgj by done. simplify_eq.
    by apply (Hplace j).
  - rewrite list_lookup_insert_eq in Hgj by lia.
    rewrite list_lookup_insert_ne in Hgi by done. simplify_eq.
    apply (Hplace i); [done..| |done]. by rewrite related_sym.
  - rewrite list_lookup_insert_ne in Hgi, Hgj by done.
    by apply (Hcons i j v).
Qed.

(** X3: on a grid of 81 cells that passes [isValidGrid], a placement
    that [isValidPlacement] accepts gives a grid that passes
    [isValidGrid] again; and a digit other than 0 whose placement gives a
    grid that passes is accepted by [isValidPlacement]. *)
Theorem isValidPlacement_keeps_valid (g : list Z) (index : nat) (num : Z) :
  length g = 81 → index < 81 → isValidGrid g = true →
  (isValidPlacement g index num = true →
   isValidGrid (<[index:=num]> g) = true) ∧
  (num ≠ 0%Z → isValidGrid (<[index:=num]> g) = true →
   isValidPlacement g index num = true).
Proof.
  intros Hlen Hidx Hvalid.
  apply isValidGrid_conflictFree, conflictFree_consistent in Hvalid; [|done].
  split.
  - intros Hplace. apply isValidGrid_conflictFree, conflictFree_consistent.
    + by rewrite length_insert.
    + by apply consistent_insert.
  - intros Hnum Hvalid'.
    apply isValidGrid_conflictFree, conflictFree_consistent in Hvalid';
      [|by rewrite length_insert].
    apply isValidPlacement_related; [done|]. intros j Hj Hne Hrel Hgj.
    apply (Hvalid' index j num); [done..| |].
    + apply list_lookup_insert_eq. lia.
    + by rewrite list_lookup_insert_ne.
Qed.

Lemma isValidPlacement_keeps_valid_witness :
  isValidGrid (replicate 81 0%Z) = true ∧
  isValidPlacement (replicate 81 0%Z) 40 5 = true ∧
  isValidGrid (<[40:=5%Z]> (replicate 81 0%Z)) = true.
Proof.
  split; [by vm_compute|]. split; [by vm_compute|].
  refine (proj1 (isValidPlacement_keeps_valid (replicate 81 0%Z) 40 5
                   _ _ _) _); [by vm_compute|lia|by vm_compute|by vm_compute].
Defined.

(** *** Partial copies of a solution *)

(** The grid of a game in which no mistake stands: every cell is empty
    or holds the digit of the solution. *)
Definition partialCopy (g s : list Z) : Prop :=
  Forall2 (λ x y, x = 0%Z ∨ x = y) g s.

#[global] Instance partialCopy_dec (g s : list Z) : Decision (partialCopy g s).
Proof. unfold partialCopy. apply _. Defined.

Lemma partialCopy_lookup (g s : list Z) (i : nat) (v : Z) :
  partialCopy g s → g !! i = Some v → v ≠ 0%Z → s !! i = Some v.
Proof.
  intros H Hg Hv.
  destruct (Forall2_lookup_l _ _ _ _ _ H Hg) as (y & Hs & [?| ->]); done.
Qed.

Lemma unit_cases (u : list nat) :
  u ∈ units →
  (∃ row, row < 9 ∧ u = getRowIndices row) ∨
  (∃ col, col < 9 ∧ u = getColIndices col) ∨
  (∃ boxRow boxCol, boxRow < 3 ∧ boxCol < 3 ∧ u = getBoxIndices boxRow boxCol).
Proof.
  unfold units. rewrite !elem_of_app.
  intros [(r & -> & Hr%elem_of_seq)%list_elem_of_fmap
         |[(c & -> & Hc%elem_of_seq)%list_elem_of_fmap
          |(br & (bc & ->%list_elem_of_singleton & Hbc%elem_of_seq)%list_elem_of_bind
               & Hbr%elem_of_seq)%list_elem_of_bind]].
  - left. exists r. split; [lia|done].
  - right. left. exists c. split; [lia|done].
  - right. right. exists br, bc. split; [lia|]. split; [lia|done].
Qed.

Lemma validSolution_unit (s : list Z) (u : list nat) :
  validSolution s → u ∈ units → permutationOfDigits s u.
Proof.
  intros (_ & Hrow & Hcol & Hbox)
    [(r & ? & ->)|[(c & ? & ->)|(br & bc & ? & ? & ->)]]%unit_cases; auto.
Qed.

Lemma own_row (i : nat) : i < 81 → i ∈ getRowIndices (i `div` 9).
Proof.
  intros Hi. unfold getRowIndices. apply list_elem_of_fmap.
  exists (i `mod` 9). split.
  - pose proof (Nat.div_mod i 9). lia.
  - apply elem_of_seq. pose proof (Nat.mod_upper_bound i 9). lia.
Qed.

Lemma NoDup_fmap_inj_on {A B : Type} (f : A → B) (l : list A) (i j : A) :
  NoDup (f <$> l) → i ∈ l → j ∈ l → f i = f j → i = j.
Proof.
  intros Hnd [p Hp]%list_elem_of_lookup [q Hq]%list_elem_of_lookup Heq.
  assert (p = q) as ->; [|congruence].
  apply (NoDup_lookup (f <$> l) p q (f i)); [done|..].
  - by rewrite list_lookup_fmap, Hp.
  - by rewrite list_lookup_fmap, Hq, Heq.
Qed.

Lemma validSolution_partialFill (s : list Z) :
  validSolution s → partialFill 81 s.
Proof.
  intros Hs. split; [by destruct Hs|]. split; [|split].
  - intros i j v Hi Hj Hij Hrel Hv Hsi Hsj.
    destruct (related_common_unit i j Hi Hj Hrel) as (u & Hu & Hiu & Hju).
    pose proof (validSolution_unit s u Hs Hu) as Hperm.
    destruct (unit_facts u Hu) as (Hnd & _).
    assert (NoDup ((λ i, s !! i) <$> u)) as Hvals.
    { unfold permutationOfDigits in Hperm. rewrite Hperm.
      apply (NoDup_fmap_2 _).
      apply (bool_decide_unpack (NoDup oneToNine)). by vm_compute. }
    apply Hij, (NoDup_fmap_inj_on (λ i, s !! i) u); [done..|congruence].
  - intros k Hk.
    assert (s !! k ∈ (λ i, s !! i) <$> getRowIndices (k `div` 9)) as Hin
      by apply (list_elem_of_fmap_2 (λ i, s !! i)), own_row, Hk.
    rewrite (validSolution_unit s _ Hs) in Hin.
    + apply list_elem_of_fmap in Hin as (v & Hv & Hin). by exists v.
    + apply row_in_units, Nat.Div0.div_lt_upper_bound. lia.
  - intros k Hk. lia.
Qed.

Lemma partialCopy_consistent (g s : list Z) :
  consistent s → partialCopy g s → consistent g.
Proof.
  intros Hs Hg i j v Hi Hj Hij Hrel Hv Hgi Hgj.
  apply (Hs i j v); try done; by eapply partialCopy_lookup.
Qed.

Lemma partialCopy_isValidGrid (g s : list Z) :
  validSolution s → partialCopy g s → isValidGrid g = true.
Proof.
  intros (Hlen & Hcons & _)%validSolution_partialFill Hg.
  pose proof (Forall2_length _ _ _ Hg) as Hlen'.
  apply isValidGrid_conflictFree, conflictFree_consistent; [lia|].
  by apply (partialCopy_consistent g s).
Qed.

Lemma partialCopy_isValidPlacement (g s : list Z) (i : nat) (v : Z) :
  validSolution s → partialCopy g s → s !! i = Some v →
  isValidPlacement g i v = true.
Proof.
  intros (Hlen & Hcons & Hfill & _)%validSolution_partialFill Hg Hsi.
  assert (i < 81) as Hi by (apply lookup_lt_Some in Hsi; lia).
  apply isValidPlacement_related; [done|]. intros j Hj Hne Hrel Hgj.
  destruct (Hfill i Hi) as (v' & Hv'%oneToNine_nonzero & Hsi').
  simplify_eq.
  apply (Hcons i j v); [done..|]. by apply (partialCopy_lookup g).
Qed.

(** X4: in a grid whose cells are empty or hold the digit of a valid
    solution, [isValidGrid] finds no conflict, and [isValidPlacement]
    accepts the solution's digit in every cell. *)
Theorem solution_digit_is_valid_placement (g s : list Z) :
  validSolution s → partialCopy g s →
  isValidGrid g = true ∧
  ∀ i v, s !! i = Some v → isValidPlacement g i v = true.
Proof.
  intros Hs Hg. split; [by apply (partialCopy_isValidGrid g s)|].
  intros i v. by apply partialCopy_isValidPlacement.
Qed.

Lemma solution_digit_is_valid_placement_witness :
  validSolution referenceGrid ∧
  partialCopy (<[40:=0%Z]> referenceGrid) referenceGrid ∧
  isValidGrid (<[40:=0%Z]> referenceGrid) = true ∧
  ∀ i v, referenceGrid !! i = Some v →
         isValidPlacement (<[40:=0%Z]> referenceGrid) i v = true.
Proof.
  assert (validSolution referenceGrid) as Hs
    by apply partialFill_validSolution, referenceGrid_full.
  assert (partialCopy (<[40:=0%Z]> referenceGrid) referenceGrid) as Hg.
  { apply (bool_decide_unpack _). by vm_compute. }
  split; [done|]. split; [done|].
  exact (solution_digit_is_valid_placement _ _ Hs Hg).
Defined.

(** *** The generated puzzles as the game receives them *)

Lemma countZeros_pos (g : list Z) :
  0 < countZeros g → ∃ i, g !! i = Some 0%Z.
Proof.
  unfold countZeros. intros H.
  destruct (filter (λ v, v = 0%Z) g) as [|x l] eqn:Hf; [simpl in H; lia|].
  assert (x ∈ filter (λ v, v = 0%Z) g) as Hx by (rewrite Hf; left).
  apply list_elem_of_filter in Hx as [-> Hx%list_elem_of_lookup]. done.
Qed.

Lemma removeCells_partialCopy (positions : list nat) (removed k : nat)
    (g : list Z) :
  partialCopy (removeCells positions removed k g) g.
Proof.
  apply Forall2_same_length_lookup. split; [apply removeCells_length|].
  intros i x y Hx Hy. destruct (decide (x = 0%Z)) as [|Hx0]; [by left|].
  right. apply removeCells_lookup in Hx; [congruence|done].
Qed.

(** What the game is handed when cells are removed from a completed grid
    along a shuffle of the 81 positions. *)
Lemma removeCells_playable (positions : list nat) (k : nat) (sol : list Z) :
  positions ≡ₚ seq 0 81 → partialFill 81 sol → 0 < k ≤ 81 →
  let puzzle := removeCells positions 0 k sol in
  partialCopy puzzle sol ∧
  isValidGrid puzzle = true ∧
  isPuzzleSolved puzzle sol = false ∧
  ∀ i v, sol !! i = Some v → isValidPlacement puzzle i v = true.
Proof.
  intros Hperm Hfull Hk puzzle.
  pose proof (removeCells_partialCopy positions 0 k sol) as Hcopy.
  fold puzzle in Hcopy. split; [done|].
  pose proof (partialFill_validSolution sol Hfull) as Hsol.
  split; [by apply (partialCopy_isValidGrid puzzle sol)|].
  split; [|intros i v; by apply partialCopy_isValidPlacement].
  apply not_true_is_false. intros Hsolved.
  destruct (countZeros_pos puzzle) as [i Hi].
  { unfold puzzle. rewrite removeCells_shuffled by (done || lia). lia. }
  rewrite isPuzzleSolved_lookup in Hsolved. apply Hsolved in Hi.
  destruct Hfull as (Hlen & _ & Hfill & _).
  pose proof (lookup_lt_Some _ _ _ Hi) as Hi81.
  destruct (Hfill i) as (v & Hv%oneToNine_nonzero & Hsi); [lia|].
  congruence.
Qed.

(** X5: the puzzle [createPuzzle] returns is ready to play: each cell
    is empty or holds the solution's digit, it passes [isValidGrid], it is
    not yet solved, and the solution's digit is a valid placement in every
    cell. *)
Theorem createPuzzle_playable (fuel : nat) (d : Difficulty) (m : MathRandom) :
  ∃ p m',
    createPuzzle (S fuel) d m = Some (p, m') ∧
    partialCopy (puzzle p) (solution p) ∧
    isValidGrid (puzzle p) = true ∧
    isPuzzleSolved (puzzle p) (solution p) = false ∧
    ∀ i v, solution p !! i = Some v → isValidPlacement (puzzle p) i v = true.
Proof.
  eexists _, _. split; [apply createPuzzle_unfold|]. cbn [puzzle solution].
  apply removeCells_playable.
  - apply shuffleArray_Permutation.
  - apply generateCompleteGrid_full.
  - destruct d; cbn; lia.
Qed.

(** X6: the daily puzzle echoes its date string, has exactly
    [81 - DIFFICULTY_CELLS d] empty cells among its 81, each other cell
    holding the solution's digit; it passes [isValidGrid], is not yet
    solved, and the solution's digit is a valid placement in every
    cell. *)
Theorem createDailyPuzzle_playable (dateStr : string) (d : Difficulty) :
  let p := createDailyPuzzle dateStr d in
  date p = dateStr ∧
  length (dailyPuzzle p) = 81 ∧
  countZeros (dailyPuzzle p) = 81 - DIFFICULTY_CELLS d ∧
  partialCopy (dailyPuzzle p) (dailySolution p) ∧
  isValidGrid (dailyPuzzle p) = true ∧
  isPuzzleSolved (dailyPuzzle p) (dailySolution p) = false ∧
  ∀ i v, dailySolution p !! i = Some v →
         isValidPlacement (dailyPuzzle p) i v = true.
Proof.
  intros p. subst p. rewrite createDailyPuzzle_unfold.
  unfold createDailyPuzzleFromSolution.
  pose proof (generateSeededGrid_full {| seed := getDateSeed dateStr |})
    as Hfull.
  destruct (generateSeededGrid _) as [sol rng1]. cbn [fst snd] in *.
  pose proof (shuffleArraySeeded_Permutation (seq 0 81) rng1) as Hperm.
  destruct (shuffleArraySeeded (seq 0 81) rng1) as [positions rng2].
  cbn [fst date dailyPuzzle dailySolution] in *.
  split; [done|]. split; [|split].
  - rewrite removeCells_length. by destruct Hfull.
  - apply removeCells_shuffled; [done..|lia].
  - apply removeCells_playable; [done..|]. destruct d; cbn; lia.
Qed.

(** *** Completed groups *)

Lemma filter_length_Forall {A : Type} (P : A → Prop) `{∀ x, Decision (P x)}
    (l : list A) :
  length (filter P l) = length l ↔ Forall P l.
Proof.
  induction l as [|x l IH].
  - split; [constructor|done].
  - rewrite filter_cons, Forall_cons. case_decide as Hx; simpl.
    + rewrite <- IH. split; [intros [=]; done|intros [_ ->]; done].
    + pose proof (length_filter P l). split; [lia|tauto].
Qed.

Lemma filter_Forall_id {A : Type} (P : A → Prop) `{∀ x, Decision (P x)}
    (l : list A) :
  Forall P l → filter P l = l.
Proof.
  induction 1 as [|x l Hx Hl IH]; [done|].
  by rewrite filter_cons, decide_True, IH by done.
Qed.

Lemma isGroupComplete_nine (g : list Z) (indices : list nat) :
  length indices = 9 →
  isGroupComplete g indices = true
  ↔ (∀ i, i ∈ indices → g !! i ≠ Some 0%Z) ∧
    NoDup ((λ i, g !! i) <$> indices).
Proof.
  intros Hlen. unfold isGroupComplete. cbv zeta.
  set (vals := (λ i, g !! i) <$> indices).
  assert (length vals = 9) as Hvals by (unfold vals; by rewrite length_fmap).
  assert ((∀ i, i ∈ indices → g !! i ≠ Some 0%Z)
          ↔ Forall (λ v, v ≠ Some 0%Z) vals) as ->.
  { unfold vals. rewrite Forall_fmap, Forall_forall. done. }
  split.
  - case_decide as Hn; [done|]. intros Hset%bool_decide_eq_true.
    assert (Forall (λ v, v ≠ Some 0%Z) vals) as Hall
      by (apply (proj1 (filter_length_Forall _ vals)); lia).
    split; [done|]. rewrite filter_Forall_id in Hset by done.
    apply set_of_list_full_length. lia.
  - intros [Hall Hnd]. rewrite filter_Forall_id by done.
    rewrite decide_False by lia. apply bool_decide_eq_true.
    by rewrite set_of_list_NoDup.
Qed.

Lemma isGroupComplete_short (g : list Z) (indices : list nat) :
  length indices < 9 → isGroupComplete g indices = false.
Proof.
  intros Hlen. unfold isGroupComplete. cbv zeta.
  rewrite decide_True; [done|].
  pose proof (length_filter (λ v, v ≠ Some 0%Z) ((λ i, g !! i) <$> indices))
    as Hle.
  rewrite length_fmap in Hle. lia.
Qed.

(** X7: for nine indices, [isGroupComplete] holds exactly when none of
    the nine reads gives 0 and the nine reads are pairwise different (a
    read outside the array counts as a value); with fewer than nine
    indices it is false. *)
Theorem isGroupComplete_spec (g : list Z) (indices : list nat) :
  (length indices = 9 →
   (isGroupComplete g indices = true
    ↔ (∀ i, i ∈ indices → g !! i ≠ Some 0%Z) ∧
      NoDup ((λ i, g !! i) <$> indices))) ∧
  (length indices < 9 → isGroupComplete g indices = false).
Proof.
  split; [apply isGroupComplete_nine|apply isGroupComplete_short].
Qed.

(** X8: in a game without a standing mistake, the completion check of a
    row, column or box fires exactly when its nine cells all hold the
    solution's digits. *)
Theorem isGroupComplete_filled_unit (g s : list Z) (u : list nat) :
  validSolution s → partialCopy g s → u ∈ units →
  isGroupComplete g u = true ↔ ∀ i, i ∈ u → g !! i = s !! i.
Proof.
  intros Hs Hg Hu. destruct (unit_facts u Hu) as (_ & Hlen & Hin).
  pose proof (validSolution_partialFill s Hs) as Hfull.
  rewrite isGroupComplete_nine by done. split.
  - intros [Hnz _] i Hi.
    destruct (Hin i Hi) as [Hi81 _].
    destruct (lookup_lt_is_Some_2 g i) as [x Hx].
    { apply Forall2_length in Hg. destruct Hs as [Hs _]. lia. }
    rewrite Hx. symmetry. apply (partialCopy_lookup g s); [done..|].
    intros ->. by apply (Hnz i).
  - intros Heq.
    assert ((λ i, g !! i) <$> u = (λ i, s !! i) <$> u) as Hvals.
    { apply list_fmap_ext. intros k i Hk. apply Heq.
      by apply list_elem_of_lookup_2 in Hk. }
    split.
    + intros i Hi. rewrite (Heq i Hi). destruct (Hin i Hi) as [Hi81 _].
      destruct Hfull as (_ & _ & Hfill & _).
      destruct (Hfill i Hi81) as (v & Hv%oneToNine_nonzero & ->). congruence.
    + rewrite Hvals. by apply unit_values_NoDup.
Qed.

Lemma isGroupComplete_filled_unit_witness :
  isGroupComplete (<[40:=0%Z]> referenceGrid) (getRowIndices 0) = true
  ↔ ∀ i, i ∈ getRowIndices 0 →
         <[40:=0%Z]> referenceGrid !! i = referenceGrid !! i.
Proof.
  apply (isGroupComplete_filled_unit (<[40:=0%Z]> referenceGrid)
           referenceGrid (getRowIndices 0)).
  - apply partialFill_validSolution, referenceGrid_full.
  - apply (bool_decide_unpack _). by vm_compute.
  - apply row_in_units. lia.
Defined.

(** *** Random numbers and shuffles *)

Lemma toInt32_range (z : Z) : (- 2 ^ 31 ≤ toInt32 z < 2 ^ 31)%Z.
Proof.
  unfold toInt32. pose proof (Z.mod_pos_bound (z + 2 ^ 31) (2 ^ 32)). lia.
Qed.

Lemma next_seed (rng : SeededRandom) :
  seed (next rng).2 = roundDouble (seed rng + 0x6D2B79F5).
Proof. reflexivity. Qed.

Lemma next_seed_exact (rng : SeededRandom) :
  (- 2 ^ 53 ≤ seed rng + 0x6D2B79F5 ≤ 2 ^ 53)%Z →
  seed (next rng).2 = (seed rng + 0x6D2B79F5)%Z.
Proof. intros Hs. rewrite next_seed. apply roundDouble_exact. lia. Qed.

(** From 2^53 on the addition rounds: the seed 2^53 becomes
    2^53 + 1831565812, not 2^53 + 1831565813. *)
Example next_rounds_seed :
  next {| seed := 2 ^ 53 |}
  = (3850105811%Z, {| seed := 9007201086306804 |}).
Proof. by vm_compute. Qed.

(** X9: [next] returns a fraction in [0, 1) (its numerator over 2^32 is
    below 2^32), and [nextInt(min, max)], for integers [min ≤ max] less
    than 2^21 apart and within 2^53 of zero (where every operation is
    exact), returns the integer [floor (next() * (max - min + 1)) + min],
    which lies between [min] and [max], both included. Each call
    replaces the seed by the double nearest to the seed plus 0x6D2B79F5,
    which is that sum itself while it is within 2^53 of zero. *)
Theorem nextInt_range (min max : Z) (rng : SeededRandom) :
  (min ≤ max)%Z → (max - min < 2 ^ 21)%Z →
  (- 2 ^ 53 ≤ min)%Z → (max ≤ 2 ^ 53)%Z →
  (0 ≤ (next rng).1 < 2 ^ 32)%Z ∧
  (nextInt min max rng).1
  = ((next rng).1 * (max - min + 1) / 2 ^ 32 + min)%Z ∧
  (min ≤ (nextInt min max rng).1 ≤ max)%Z ∧
  seed (nextInt min max rng).2 = roundDouble (seed rng + 0x6D2B79F5) ∧
  ((- 2 ^ 53 ≤ seed rng + 0x6D2B79F5 ≤ 2 ^ 53)%Z →
   seed (nextInt min max rng).2 = (seed rng + 0x6D2B79F5)%Z).
Proof.
  intros Hle Hnear Hmin Hmax. pose proof (next_range rng) as Hu.
  split; [done|].
  pose proof (next_seed rng) as Hseed.
  pose proof (next_seed_exact rng) as Hexact. unfold nextInt.
  destruct (next rng) as [u rng']. cbn [fst snd] in *.
  rewrite (roundDouble_exact (max - min)) by lia.
  rewrite (roundDouble_exact (max - min + 1)) by lia.
  rewrite (roundDouble_exact (u * (max - min + 1))) by nia.
  assert (0 ≤ u * (max - min + 1) / 2 ^ 32)%Z by (apply Z.div_pos; nia).
  assert (u * (max - min + 1) / 2 ^ 32 < max - min + 1)%Z
    by (apply Z.div_lt_upper_bound; nia).
  rewrite roundDouble_exact by lia.
  split; [done|]. split; [lia|]. done.
Qed.

Lemma nextInt_range_witness :
  (1 ≤ (nextInt 1 6 {| seed := 42 |}).1 ≤ 6)%Z ∧
  seed (nextInt 1 6 {| seed := 42 |}).2 = 1831565855%Z.
Proof.
  destruct (nextInt_range 1 6 {| seed := 42 |}) as (_ & _ & Hr & _ & Hs);
    [lia..|].
  split; [exact Hr|]. apply Hs. cbn [seed]. lia.
Defined.

(** X10: the seed of a date string is an integer between 0 and 2^31, and
    the seed of the empty string is 0. *)
Theorem getDateSeed_range (dateStr : string) :
  (0 ≤ getDateSeed dateStr ≤ 2 ^ 31)%Z ∧ getDateSeed "" = 0%Z.
Proof.
  split; [|done]. unfold getDateSeed.
  match goal with
  | |- context [foldl ?f 0%Z ?l] =>
      assert (∀ codes acc, (- 2 ^ 31 ≤ acc < 2 ^ 31)%Z →
                           (- 2 ^ 31 ≤ foldl f acc codes < 2 ^ 31)%Z)
        as Hfold;
      [|pose proof (Hfold l 0%Z ltac:(lia)); lia]
  end.
  induction codes as [|c l IH]; intros acc Hacc; [done|].
  cbn [foldl]. apply IH, toInt32_range.
Qed.

(** The seed after [n] draws. *)
Fixpoint seedAfter (n : nat) (s : Z) : Z :=
  match n with
  | 0 => s
  | S n => seedAfter n (roundDouble (s + 0x6D2B79F5))
  end.

Lemma seedAfter_exact (n : nat) (s : Z) :
  (- 2 ^ 53 ≤ s)%Z → (s + Z.of_nat n * 0x6D2B79F5 ≤ 2 ^ 53)%Z →
  seedAfter n s = (s + Z.of_nat n * 0x6D2B79F5)%Z.
Proof.
  revert s. induction n as [|n IH]; intros s Hlo Hhi; cbn [seedAfter].
  - lia.
  - rewrite (roundDouble_exact (s + _)) by lia. rewrite IH by lia. lia.
Qed.

Lemma shuffleSeededLoop_draws {T : Type} (i : nat) (l : list T)
    (rng : SeededRandom) :
  seed (shuffleSeededLoop i l rng).2 = seedAfter i (seed rng).
Proof.
  revert l rng. induction i as [|i IH]; intros l rng.
  - done.
  - cbn [shuffleSeededLoop seedAfter]. pose proof (next_seed rng) as Hseed.
    destruct (next rng) as [u rng']. cbn [snd] in Hseed.
    by rewrite IH, Hseed.
Qed.

Lemma shuffleLoop_draws {T : Type} (i : nat) (l : list T) (m : MathRandom) :
  source (shuffleLoop i l m).2 = source m ∧
  drawn (shuffleLoop i l m).2 = drawn m + i.
Proof.
  revert l m. induction i as [|i IH]; intros l m.
  - cbn [shuffleLoop snd]. split; [done|lia].
  - cbn [shuffleLoop randomBelow].
    destruct (IH (swap l (S i) (source m (drawn m) `mod` (S i + 1)))
                 {| source := source m; drawn := S (drawn m) |}) as [-> ->].
    cbn [source drawn]. split; [done|lia].
Qed.

(** X11: both shuffles return a permutation of the array they are given,
    of the same length, after exactly [length - 1] draws (none for an
    empty array). The seeded one leaves the seed that [length - 1]
    successive additions of 0x6D2B79F5, each rounded to a double, make
    of the seed it was given, which is the seed plus [length - 1] times
    0x6D2B79F5 while the seeds stay within 2^53 of zero; the other
    leaves [Math.random] advanced by [length - 1] draws. *)
Theorem shuffle_permutation_draws {T : Type} (array : list T) :
  (∀ rng,
     (shuffleArraySeeded array rng).1 ≡ₚ array ∧
     length (shuffleArraySeeded array rng).1 = length array ∧
     seed (shuffleArraySeeded array rng).2
     = seedAfter (length array - 1) (seed rng) ∧
     ((- 2 ^ 53 ≤ seed rng)%Z →
      (seed rng + Z.of_nat (length array - 1) * 0x6D2B79F5 ≤ 2 ^ 53)%Z →
      seed (shuffleArraySeeded array rng).2
      = (seed rng + Z.of_nat (length array - 1) * 0x6D2B79F5)%Z)) ∧
  (∀ m,
     (shuffleArray array m).1 ≡ₚ array ∧
     length (shuffleArray array m).1 = length array ∧
     source (shuffleArray array m).2 = source m ∧
     drawn (shuffleArray array m).2 = drawn m + (length array - 1)).
Proof.
  split.
  - intros rng. pose proof (shuffleArraySeeded_Permutation array rng) as Hp.
    split; [done|]. split; [by rewrite Hp|].
    unfold shuffleArraySeeded. rewrite shuffleSeededLoop_draws.
    split; [done|]. apply seedAfter_exact.
  - intros m. pose proof (shuffleArray_Permutation array m) as Hp.
    split; [done|]. split; [by rewrite Hp|].
    apply shuffleLoop_draws.
Qed.

Lemma shuffle_permutation_draws_witness :
  seed (shuffleArraySeeded (seq 0 81) {| seed := 20250601 |}).2
  = (20250601 + 80 * 0x6D2B79F5)%Z.
Proof.
  destruct (shuffle_permutation_draws (seq 0 81)) as [Hs _].
  destruct (Hs {| seed := 20250601 |}) as (_ & _ & _ & Hseed).
  apply Hseed; cbn [seed length seq]; lia.
Defined.

(** Past 2^53 the seed falls behind the exact sum: two draws from
    2^53 - 0x6D2B79F5 leave 2^53 + 0x6D2B79F5 - 1. *)
Example seedAfter_rounds :
  seed (shuffleArraySeeded [1; 2; 3] {| seed := 2 ^ 53 - 0x6D2B79F5 |}).2
  = (2 ^ 53 + 0x6D2B79F5 - 1)%Z.
Proof. by vm_compute. Qed.

(** *** The cells of a row, a column, a box *)

Ltac div_lia := zify; Z.to_euclidean_division_equations; lia.

Lemma elem_of_getRowIndices (row i : nat) :
  i ∈ getRowIndices row ↔ i `div` 9 = row.
Proof.
  unfold getRowIndices. rewrite list_elem_of_fmap. split.
  - intros (k & -> & Hk%elem_of_seq). div_lia.
  - intros <-. exists (i `mod` 9). rewrite elem_of_seq. div_lia.
Qed.

Lemma elem_of_getColIndices (col i : nat) :
  col < 9 → i ∈ getColIndices col ↔ i < 81 ∧ i `mod` 9 = col.
Proof.
  intros Hcol. unfold getColIndices. rewrite list_elem_of_fmap. split.
  - intros (k & -> & Hk%elem_of_seq). div_lia.
  - intros [Hi <-]. exists (i `div` 9). rewrite elem_of_seq. div_lia.
Qed.

Lemma elem_of_getBoxIndices (boxRow boxCol i : nat) :
  boxCol < 3 →
  i ∈ getBoxIndices boxRow boxCol
  ↔ (i `div` 9) `div` 3 = boxRow ∧ (i `mod` 9) `div` 3 = boxCol.
Proof.
  intros Hbc. unfold getBoxIndices. rewrite list_elem_of_bind. split.
  - intros (r & (c & ->%list_elem_of_singleton & Hc%elem_of_seq)%list_elem_of_bind
              & Hr%elem_of_seq). div_lia.
  - intros [<- <-]. exists ((i `div` 9) `mod` 3). rewrite elem_of_seq.
    split; [|lia]. apply list_elem_of_bind. exists ((i `mod` 9) `mod` 3).
    rewrite elem_of_seq, list_elem_of_singleton. div_lia.
Qed.

(** X12: [getRowIndices], [getColIndices] and [getBoxIndices] list nine
    different cells each: the cells of row [row] are those with
    [index div 9 = row], the cells of column [col < 9] those below 81 with
    [index mod 9 = col], and the cells of box [(boxRow, boxCol)],
    [boxCol < 3], those whose row is in band [boxRow] and whose column is
    in stack [boxCol]. *)
Theorem unit_indices_spec :
  (∀ row i, i ∈ getRowIndices row ↔ i `div` 9 = row) ∧
  (∀ col i, col < 9 → (i ∈ getColIndices col ↔ i < 81 ∧ i `mod` 9 = col)) ∧
  (∀ boxRow boxCol i, boxCol < 3 →
     (i ∈ getBoxIndices boxRow boxCol
      ↔ (i `div` 9) `div` 3 = boxRow ∧ (i `mod` 9) `div` 3 = boxCol)) ∧
  (∀ row, length (getRowIndices row) = 9 ∧ NoDup (getRowIndices row)) ∧
  (∀ col, length (getColIndices col) = 9 ∧ NoDup (getColIndices col)) ∧
  (∀ boxRow boxCol,
     length (getBoxIndices boxRow boxCol) = 9 ∧
     NoDup (getBoxIndices boxRow boxCol)).
Proof.
  split; [apply elem_of_getRowIndices|].
  split; [apply elem_of_getColIndices|].
  split; [apply elem_of_getBoxIndices|].
  split; [|split].
  - intros row. split; [done|]. unfold getRowIndices.
    apply NoDup_fmap_2; [intros x y; lia|apply NoDup_seq].
  - intros col. split; [done|]. unfold getColIndices.
    apply NoDup_fmap_2; [intros x y; lia|apply NoDup_seq].
  - intros br bc. split; [done|]. unfold getBoxIndices.
    cbn [seq mbind list_bind app fmap list_fmap].
    rewrite !NoDup_cons, !elem_of_cons, !elem_of_nil.
    repeat split; try lia. apply NoDup_nil_2.
Qed.

(** *** Scoring *)

Lemma double_exact (n : Z) (k : nat) :
  (Z.abs n ≤ 2 ^ 53)%Z → double n k = Dyadic n k.
Proof.
  intros Hn. unfold double. rewrite roundDouble_exact by done.
  assert (2 ^ 53 < 2 ^ (1024 + Z.of_nat k))%Z
    by (apply Z.pow_lt_mono_r; lia).
  repeat case_decide; [lia..|done].
Qed.

(** X25: for an integer combo within 2^48 of zero the score of a
    placement is the combo times 10, 15, 20 or 30 (easy, medium, hard,
    extreme): no product is rounded and the floor does not round
    either. The score of combo 1 is the floor of ten times the
    multiplier that [getDifficultyMultiplier] returns. *)
Theorem calculateScore_linear (combo : Z) (d : Difficulty) :
  (Z.abs combo ≤ 2 ^ 48)%Z →
  calculateScore combo d
  = Dyadic (combo * match d with
                    | easy => 10 | medium => 15 | hard => 20 | extreme => 30
                    end) 0 ∧
  floor (mul (Dyadic 10 0) (getDifficultyMultiplier d)) = calculateScore 1 d.
Proof.
  intros Hc. split; [|by destruct d].
  unfold calculateScore. cbv zeta. unfold mul at 2.
  rewrite double_exact by lia.
  destruct d; cbn [DIFFICULTY_MULTIPLIER mul]; rewrite double_exact by lia;
    cbn [floor Nat.add]; f_equal.
  1,3,4: change (2 ^ Z.of_nat 0)%Z with 1%Z; rewrite Z.div_1_r; lia.
  change (2 ^ Z.of_nat 1)%Z with 2%Z.
  replace (10 * combo * 3)%Z with (combo * 15 * 2)%Z by lia.
  by rewrite Z.div_mul.
Qed.

Lemma calculateScore_linear_witness :
  calculateScore 7 medium = Dyadic 105 0.
Proof.
  refine (proj1 (calculateScore_linear 7 medium _)). simpl. lia.
Defined.

(** Past that the products round: fifteen times 2^52 + 1 ends in 55, the
    score in 56. *)
Example calculateScore_rounds :
  calculateScore (2 ^ 52 + 1) medium = Dyadic 67553994410557456 0 ∧
  ((2 ^ 52 + 1) * 15 = 67553994410557455)%Z.
Proof. by vm_compute. Qed.

End SudokuMore.

(** ** Further properties of the hint solver *)

Module HintsMore.
Import JS Hints SudokuFacts SudokuMore HintsFacts.

(** *** Geometry *)

Lemma cellsSeeEachOther_related (a b : nat) :
  cellsSeeEachOther a b = related a b.
Proof. reflexivity. Qed.

Lemma allUnits_units : allUnits = units.
Proof. reflexivity. Qed.

Lemma related_refl (a : nat) : related a a = true.
Proof. unfold related. by rewrite bool_decide_eq_true_2. Qed.

Lemma same_unit_related (u : list nat) (a b : nat) :
  u ∈ units → a ∈ u → b ∈ u → related a b = true.
Proof.
  intros Hu Ha Hb. destruct (decide (a = b)) as [->|Hab]; [apply related_refl|].
  destruct (unit_facts u Hu) as (_ & _ & H). by apply (H a Ha).
Qed.

(** X13: two cells see each other exactly when a row, a column or a box
    holds both; the relation is symmetric and every cell sees itself. *)
Theorem cellsSeeEachOther_spec (a b : nat) :
  cellsSeeEachOther a b = cellsSeeEachOther b a ∧
  cellsSeeEachOther a a = true ∧
  (a < 81 → b < 81 →
   (cellsSeeEachOther a b = true ↔ ∃ u, u ∈ allUnits ∧ a ∈ u ∧ b ∈ u)).
Proof.
  rewrite !cellsSeeEachOther_related, allUnits_units.
  split; [apply related_sym|]. split; [apply related_refl|].
  intros Ha Hb. split.
  - by apply related_common_unit.
  - intros (u & Hu & Hau & Hbu). by apply (same_unit_related u).
Qed.

(** X14: [getCellInfo] gives the row and column with
    [index = row * 9 + col] and [col < 9], and the box
    [(row div 3, col div 3)]; a cell below 81 has [row < 9] and lies in
    the row, the column and the box that [getRowIndices],
    [getColIndices] and [getBoxIndices] list for them. *)
Theorem getCellInfo_spec (index : nat) :
  let info := getCellInfo index in
  index = row info * 9 + col info ∧ col info < 9 ∧
  boxRow info = row info `div` 3 ∧ boxCol info = col info `div` 3 ∧
  index ∈ getRowIndices (row info) ∧
  (index < 81 →
   row info < 9 ∧ boxRow info < 3 ∧ boxCol info < 3 ∧
   index ∈ getColIndices (col info) ∧
   index ∈ getBoxIndices (boxRow info) (boxCol info)).
Proof.
  cbn [getCellInfo row col boxRow boxCol].
  split; [div_lia|]. split; [div_lia|]. split; [done|]. split; [done|].
  split; [by apply elem_of_getRowIndices|]. intros Hi.
  split; [div_lia|]. split; [div_lia|]. split; [div_lia|]. split.
  - apply elem_of_getColIndices; [div_lia|done].
  - apply elem_of_getBoxIndices; [div_lia|done].
Qed.

(** *** Possible values *)

Lemma elem_of_foldl_addUsed (g : list Z) (used : list (option Z))
    (l : list nat) (x : option Z) :
  x ∈ foldl (addUsed g) used l
  ↔ x ∈ used ∨ (x ≠ Some 0%Z ∧ ∃ i, i ∈ l ∧ g !! i = x).
Proof.
  revert used. induction l as [|i l IH]; intros used; cbn [foldl].
  - split; [by left|]. intros [?|(_ & i & ?%elem_of_nil & _)]; done.
  - rewrite IH. unfold addUsed. case_decide as Hi.
    + rewrite elem_of_set_add. split.
      * intros [[?| ->]|(Hx & j & Hj & Hgj)]; [by left| |].
        -- right. split; [done|]. exists i. split; [left|done].
        -- right. split; [done|]. exists j. split; [by right|done].
      * intros [?|(Hx & j & [->|Hj]%elem_of_cons & Hgj)];
          [by left; left|by left; right|].
        right. split; [done|]. by exists j.
    + split.
      * intros [?|(Hx & j & Hj & Hgj)]; [by left|].
        right. split; [done|]. exists j. split; [by right|done].
      * intros [?|(Hx & j & [->|Hj]%elem_of_cons & Hgj)]; [by left| |].
        -- congruence.
        -- right. split; [done|]. by exists j.
Qed.

Lemma digits_nonzero (n : Z) : n ∈ digits → n ≠ 0%Z.
Proof. apply oneToNine_nonzero. Qed.

(** The cells [getPossibleValues] reads for a cell are those [canPlace]
    reads. *)
Lemma getPossibleValues_placeCells (g : list Z) (index : nat) (n : Z) :
  n ∈ getPossibleValues g index
  ↔ g !! index = Some 0%Z ∧ n ∈ digits ∧
    ∀ j, j ∈ placeCells (index `div` 9) (index `mod` 9) → g !! j ≠ Some n.
Proof.
  unfold getPossibleValues. case_decide as Hg.
  - split; [by intros ?%elem_of_nil|]. by intros [? _].
  - cbv zeta. rewrite list_elem_of_filter.
    rewrite !elem_of_foldl_addUsed, elem_of_nil.
    cbn [getCellInfo row col boxRow boxCol].
    change (getBoxIndices ((index `div` 9) `div` 3) ((index `mod` 9) `div` 3))
      with (r ← seq 0 3; c ← seq 0 3;
            [((index `div` 9) `div` 3 * 3 + r) * 9
             + ((index `mod` 9) `div` 3 * 3 + c)]).
    unfold placeCells, getRowIndices, getColIndices. split.
    + intros [Hn Hd]. split; [done|]. split; [done|].
      intros j Hj Hgj. apply Hn.
      assert (Some n ≠ Some 0%Z) as Hn0
        by (intros [= ->]; by apply digits_nonzero in Hd).
      rewrite !elem_of_app in Hj. destruct Hj as [Hj|[Hj|Hj]].
      * left. left. right. split; [done|]. by exists j.
      * left. right. split; [done|]. by exists j.
      * right. split; [done|]. by exists j.
    + intros (_ & Hd & Hn). split; [|done].
      intros [[[[]|(_ & j & Hj & Hgj)]|(_ & j & Hj & Hgj)]|(_ & j & Hj & Hgj)];
        apply (Hn j); try done; rewrite !elem_of_app; auto.
Qed.

Lemma getPossibleValues_related (g : list Z) (index : nat) (n : Z) :
  index < 81 →
  n ∈ getPossibleValues g index
  ↔ g !! index = Some 0%Z ∧ n ∈ digits ∧
    ∀ j, j < 81 → related index j = true → g !! j ≠ Some n.
Proof.
  intros Hi. rewrite getPossibleValues_placeCells. split.
  - intros (Hg & Hd & Hn). split; [done|]. split; [done|].
    intros j Hj Hrel. by apply Hn, related_placeCells.
  - intros (Hg & Hd & Hn). split; [done|]. split; [done|].
    intros j Hj. pose proof (placeCells_lt _ _ Hi Hj).
    apply Hn; [done|]. by apply related_placeCells.
Qed.

(** X15: for a cell of the grid, the possible values are the digits 1 to
    9, in increasing order, that [isValidPlacement] accepts there, when
    the cell is empty; a cell that is not empty has none. *)
Theorem getPossibleValues_spec (g : list Z) (index : nat) :
  index < 81 →
  (∀ n, n ∈ getPossibleValues g index
        ↔ g !! index = Some 0%Z ∧ n ∈ digits ∧
          Sudoku.isValidPlacement g index n = true) ∧
  getPossibleValues g index `sublist_of` digits ∧
  (g !! index ≠ Some 0%Z → getPossibleValues g index = []).
Proof.
  intros Hi. split; [|split].
  - intros n. rewrite getPossibleValues_related by done.
    rewrite isValidPlacement_related by done. split.
    + intros (Hg & Hd & Hn). split; [done|]. split; [done|].
      intros j Hj _. by apply Hn.
    + intros (Hg & Hd & Hn). split; [done|]. split; [done|].
      intros j Hj Hrel. destruct (decide (j = index)) as [->|Hne].
      * rewrite Hg. intros [= <-]. by apply digits_nonzero in Hd.
      * by apply Hn.
  - unfold getPossibleValues. case_decide; [apply sublist_nil_l|].
    apply sublist_filter.
  - intros Hg. unfold getPossibleValues. by rewrite decide_True.
Qed.

Lemma getPossibleValues_spec_witness :
  5%Z ∈ getPossibleValues (replicate 81 0%Z) 40
  ↔ replicate 81 0%Z !! 40 = Some 0%Z ∧ 5%Z ∈ digits ∧
    Sudoku.isValidPlacement (replicate 81 0%Z) 40 5 = true.
Proof.
  refine (proj1 (getPossibleValues_spec (replicate 81 0%Z) 40 _) 5%Z). lia.
Defined.

(** *** Elimination information *)

(** The set [used] of [getPossibleValues]. *)
Definition usedValues (g : list Z) (index : nat) : list (option Z) :=
  let info := getCellInfo index in
  foldl (addUsed g)
    (foldl (addUsed g) (foldl (addUsed g) [] (getRowIndices (row info)))
       (getColIndices (col info)))
    (getBoxIndices (boxRow info) (boxCol info)).

Lemma getPossibleValues_used (g : list Z) (index : nat) :
  g !! index = Some 0%Z →
  getPossibleValues g index
  = filter (λ n, Some n ∉ usedValues g index) digits.
Proof.
  intros Hg. unfold getPossibleValues. by rewrite decide_False by (by intros ?).
Qed.

Lemma NoDup_foldl_addUsed (g : list Z) (used : list (option Z)) (l : list nat) :
  NoDup used → NoDup (foldl (addUsed g) used l).
Proof.
  revert used. induction l as [|i l IH]; intros used Hnd; [done|].
  cbn [foldl]. apply IH. unfold addUsed. case_decide; [|done].
  unfold set_add. case_decide; [done|].
  apply NoDup_app. split; [done|]. split; [|apply NoDup_singleton].
  by intros x Hx ->%list_elem_of_singleton.
Qed.

Lemma foldl_addElimination (g : list Z) (why : string)
    (st : list (option Z) * list Elimination) (l : list nat) :
  st.1 = number <$> st.2 →
  (foldl (addElimination g why) st l).1
  = number <$> (foldl (addElimination g why) st l).2 ∧
  (foldl (addElimination g why) st l).1 = foldl (addUsed g) st.1 l ∧
  ∀ e, e ∈ (foldl (addElimination g why) st l).2 →
       e ∈ st.2 ∨ (cell e ∈ l ∧ reason e = why ∧ number e = g !! cell e
                   ∧ number e ≠ Some 0%Z).
Proof.
  revert st. induction l as [|i l IH]; intros st Hst; cbn [foldl].
  - split; [done|]. split; [done|]. by left.
  - destruct (IH (addElimination g why st i)) as (H1 & H2 & H3).
    { unfold addElimination. case_decide as Hc; [|done]. cbn [fst snd].
      destruct Hc as [_ Hc]. unfold set_add. rewrite decide_False by done.
      by rewrite fmap_app, Hst. }
    split; [done|]. split.
    + rewrite H2. f_equal. unfold addElimination, addUsed.
      case_decide as Hc.
      * destruct Hc as [Hc _]. by rewrite decide_True.
      * case_decide as Hz; [|done]. unfold set_add.
        rewrite decide_True; [done|]. apply dec_stable. tauto.
    + intros e [He|(Hc & ? & ? & ?)]%H3.
      * unfold addElimination in He. case_decide as Hc; [|by left].
        cbn [snd] in He. apply elem_of_app in He as [?| ->%list_elem_of_singleton];
          [by left|]. right. cbn [cell reason number].
        split; [left|]. destruct Hc. done.
      * right. split; [by right|done].
Qed.

Lemma getEliminationInfo_numbers (g : list Z) (index : nat) :
  number <$> getEliminationInfo g index = usedValues g index.
Proof.
  unfold getEliminationInfo, usedValues. cbv zeta.
  set (info := getCellInfo index).
  destruct (foldl_addElimination g ("row " +:+ pretty (row info + 1))
              ([], []) (getRowIndices (row info))) as (A1 & A2 & _); [done|].
  destruct (foldl_addElimination g ("column " +:+ pretty (col info + 1))
              _ (getColIndices (col info)) A1) as (B1 & B2 & _).
  destruct (foldl_addElimination g
              ("box " +:+ pretty (boxRow info * 3 + boxCol info + 1))
              _ (getBoxIndices (boxRow info) (boxCol info)) B1)
    as (C1 & C2 & _).
  by rewrite <- C1, C2, B2, A2.
Qed.

Lemma getEliminationInfo_entries (g : list Z) (index : nat) (e : Elimination) :
  e ∈ getEliminationInfo g index →
  number e = g !! cell e ∧ number e ≠ Some 0%Z ∧
  cell e ∈ placeCells (index `div` 9) (index `mod` 9).
Proof.
  unfold getEliminationInfo. cbv zeta.
  set (info := getCellInfo index).
  destruct (foldl_addElimination g ("row " +:+ pretty (row info + 1))
              ([], []) (getRowIndices (row info))) as (A1 & _ & A3); [done|].
  destruct (foldl_addElimination g ("column " +:+ pretty (col info + 1))
              _ (getColIndices (col info)) A1) as (B1 & _ & B3).
  destruct (foldl_addElimination g
              ("box " +:+ pretty (boxRow info * 3 + boxCol info + 1))
              _ (getBoxIndices (boxRow info) (boxCol info)) B1)
    as (_ & _ & C3).
  change (placeCells (index `div` 9) (index `mod` 9))
    with (getRowIndices (row info) ++ getColIndices (col info)
          ++ getBoxIndices (boxRow info) (boxCol info)).
  rewrite !elem_of_app.
  intros [[[[]%elem_of_nil|(? & _ & ? & ?)]%A3|(? & _ & ? & ?)]%B3
         |(? & _ & ? & ?)]%C3; auto.
Qed.

(** X16: the entries of [getEliminationInfo] carry pairwise different
    numbers, each the non-zero value of the entry's cell, a cell of the
    row, column or box of the cell asked about; and for an empty cell a
    digit is missing from [getPossibleValues] exactly when an entry
    carries it. *)
Theorem getEliminationInfo_spec (g : list Z) (index : nat) :
  let elims := getEliminationInfo g index in
  NoDup (number <$> elims) ∧
  (∀ e, e ∈ elims →
        number e = g !! cell e ∧ number e ≠ Some 0%Z ∧
        cell e ∈ getRowIndices (row (getCellInfo index))
                 ++ getColIndices (col (getCellInfo index))
                 ++ getBoxIndices (boxRow (getCellInfo index))
                      (boxCol (getCellInfo index))) ∧
  (g !! index = Some 0%Z →
   ∀ n, n ∈ digits →
        (n ∉ getPossibleValues g index
         ↔ ∃ e, e ∈ elims ∧ number e = Some n)).
Proof.
  intros elims. subst elims. split; [|split].
  - rewrite getEliminationInfo_numbers. unfold usedValues.
    do 3 apply NoDup_foldl_addUsed. apply NoDup_nil_2.
  - apply getEliminationInfo_entries.
  - intros Hg n Hn. rewrite getPossibleValues_used by done.
    rewrite list_elem_of_filter, <- getEliminationInfo_numbers. split.
    + intros H.
      destruct (decide (Some n ∈ number <$> getEliminationInfo g index))
        as [(e & He & Hin)%list_elem_of_fmap|Hnot]; [by exists e|].
      exfalso. by apply H.
    + intros (e & He & Hnum) [Hnot _]. apply Hnot.
      apply list_elem_of_fmap. by exists e.
Qed.

(** *** Candidates *)

Lemma elem_of_getCandidates (g : list Z) (notes : list (list Z)) (i : nat)
    (n : Z) :
  n ∈ getCandidates g notes i
  ↔ n ∈ getPossibleValues g i ∧ (notes !!! i = [] ∨ n ∈ notes !!! i).
Proof.
  unfold getCandidates. case_decide as Hg.
  { unfold getPossibleValues. rewrite decide_True by done.
    split; [by intros ?%elem_of_nil|]. by intros [?%elem_of_nil _]. }
  rewrite list_lookup_total_alt. destruct (notes !! i) as [cellNotes|]; simpl.
  - case_decide as Hlen.
    + rewrite list_elem_of_filter. split; [intros [? ?]; auto|].
      intros [? [->|?]]; [simpl in Hlen; lia|done].
    + destruct cellNotes; [|simpl in Hlen; lia]. split; [auto|by intros [? _]].
  - split; [auto|by intros [? _]].
Qed.

Lemma elem_of_getAllCandidates (g : list Z) (notes : list (list Z)) (i : nat)
    (n : Z) :
  n ∈ getAllCandidates g notes !!! i
  ↔ i < 81 ∧ n ∈ getPossibleValues g i ∧
    (notes !!! i = [] ∨ n ∈ notes !!! i).
Proof.
  destruct (decide (i < 81)) as [Hi|Hi].
  - rewrite getAllCandidates_lookup, elem_of_set_of_list, elem_of_getCandidates
      by done. tauto.
  - unfold getAllCandidates.
    rewrite list_lookup_total_alt, list_lookup_fmap, lookup_seq_ge by lia.
    simpl. split; [by intros ?%elem_of_nil|]. by intros [? _].
Qed.

Lemma NoDup_getAllCandidates (g : list Z) (notes : list (list Z)) (i : nat) :
  NoDup (getAllCandidates g notes !!! i).
Proof.
  destruct (decide (i < 81)) as [Hi|Hi].
  - rewrite getAllCandidates_lookup by done. apply NoDup_set_of_list.
  - unfold getAllCandidates.
    rewrite list_lookup_total_alt, list_lookup_fmap, lookup_seq_ge by lia.
    apply NoDup_nil_2.
Qed.

(** X17: [getAllCandidates] has 81 entries without repetition; a number
    is a candidate of a cell exactly when it is a possible value of the
    cell and the cell's notes are empty (or missing) or contain it. *)
Theorem getAllCandidates_spec (g : list Z) (notes : list (list Z)) :
  length (getAllCandidates g notes) = 81 ∧
  ∀ i, NoDup (getAllCandidates g notes !!! i) ∧
       ∀ n, n ∈ getAllCandidates g notes !!! i
            ↔ i < 81 ∧ n ∈ getPossibleValues g i ∧
              (notes !!! i = [] ∨ n ∈ notes !!! i).
Proof.
  split; [done|]. intros i.
  split; [apply NoDup_getAllCandidates|apply elem_of_getAllCandidates].
Qed.

End HintsMore.

(** ** Soundness of the hints *)

Module HintsSound.
Import JS Hints SudokuFacts SudokuMore HintsFacts HintsMore.

(** *** Vocabulary of the proofs *)

(** The player has not struck the solution's digit from the notes of an
    empty cell: the notes of the cell are empty (or missing) or hold
    it. *)
Definition notesKeepSolution (g s : list Z) (notes : list (list Z)) : Prop :=
  ∀ i v, g !! i = Some 0%Z → s !! i = Some v →
         notes !!! i = [] ∨ v ∈ notes !!! i.

(** The hint gives the solution's digit for an empty cell. *)
Definition givesSolution (g s : list Z) (h : Hint) : Prop :=
  g !! cellIndex h = Some 0%Z ∧ s !! cellIndex h = Some (value h).

(** The hint tells the player to remove the note [n] from the cell [c]. *)
Definition removal (h : Hint) (c : nat) (n : Z) : Prop :=
  ∃ l, notesToRemove h = Some l ∧ (c, n) ∈ l.

(** The hint removes no note that is the solution's digit of its cell. *)
Definition keepsSolution (s : list Z) (h : Hint) : Prop :=
  ∀ c n, removal h c n → s !! c ≠ Some n.

(** The hint removes only notes the player made, in empty cells. *)
Definition removesRealNotes (g : list Z) (notes : list (list Z)) (h : Hint)
  : Prop :=
  ∀ c n, removal h c n → c < 81 ∧ g !! c = Some 0%Z ∧ n ∈ notes !!! c.

(** *** Loops *)

Lemma scanUnits_Some (checkUnit : list nat → string → option Hint) (h : Hint) :
  scanUnits checkUnit = Some h →
  ∃ u name, u ∈ units ∧ checkUnit u name = Some h.
Proof.
  unfold scanUnits.
  destruct (firstSome _ (seq 0 9)) as [r|] eqn:Hrow.
  { intros [= ->]. apply firstSome_Some in Hrow as (row & Hin%elem_of_seq & Hr).
    eexists _, _. split; [|done]. apply row_in_units. lia. }
  clear Hrow. destruct (firstSome _ (seq 0 9)) as [r|] eqn:Hcol.
  { intros [= ->]. apply firstSome_Some in Hcol as (col & Hin%elem_of_seq & Hr).
    eexists _, _. split; [|done]. apply col_in_units. lia. }
  intros (br & Hbr%elem_of_seq & (bc & Hbc%elem_of_seq & Hr)%firstSome_Some)
    %firstSome_Some.
  eexists _, _. split; [|done]. apply box_in_units; lia.
Qed.

Lemma unit_loops_Some (fr fc : nat → option Hint)
    (fb : nat → nat → option Hint) (h : Hint) :
  (firstSome fr (seq 0 9) orElse firstSome fc (seq 0 9)
   orElse firstSome (λ br, firstSome (fb br) (seq 0 3)) (seq 0 3)) = Some h →
  (∃ r, r < 9 ∧ fr r = Some h) ∨ (∃ c, c < 9 ∧ fc c = Some h) ∨
  (∃ br bc, br < 3 ∧ bc < 3 ∧ fb br bc = Some h).
Proof.
  destruct (firstSome fr _) as [r|] eqn:Hrow.
  { intros [= ->]. apply firstSome_Some in Hrow as (row & Hin%elem_of_seq & Hr).
    left. exists row. split; [lia|done]. }
  destruct (firstSome fc _) as [r|] eqn:Hcol.
  { intros [= ->]. apply firstSome_Some in Hcol as (col & Hin%elem_of_seq & Hr).
    right. left. exists col. split; [lia|done]. }
  intros (br & Hbr%elem_of_seq & (bc & Hbc%elem_of_seq & Hr)%firstSome_Some)
    %firstSome_Some.
  right. right. exists br, bc. split; [lia|]. split; [lia|done].
Qed.

Lemma elem_of_pairs {A : Type} (l : list A) (x y : A) :
  (x, y) ∈ pairs l → x ∈ l ∧ y ∈ l ∧ (NoDup l → x ≠ y).
Proof.
  induction l as [|a l IH]; cbn [pairs]; [by intros ?%elem_of_nil|].
  rewrite elem_of_app, list_elem_of_fmap, NoDup_cons.
  intros [(b & [= -> ->] & Hb)|(Hx & Hy & Hne)%IH].
  - split; [left|]. split; [by right|]. by intros [Ha _] ->.
  - split; [by right|]. split; [by right|]. intros [_ Hnd]. by apply Hne.
Qed.

Lemma elem_of_triples {A : Type} (l : list A) (x y z : A) :
  (x, y, z) ∈ triples l →
  x ∈ l ∧ y ∈ l ∧ z ∈ l ∧ (NoDup l → x ≠ y ∧ x ≠ z ∧ y ≠ z).
Proof.
  induction l as [|a l IH]; cbn [triples]; [by intros ?%elem_of_nil|].
  rewrite elem_of_app, list_elem_of_fmap, NoDup_cons.
  intros [([b c] & [= -> -> ->] & (Hb & Hc & Hne)%elem_of_pairs)
         |(Hx & Hy & Hz & Hne)%IH].
  - split; [left|]. split; [by right|]. split; [by right|].
    intros [Ha Hnd]. split; [by intros ->|]. split; [by intros ->|by apply Hne].
  - split; [by right|]. split; [by right|]. split; [by right|].
    intros [_ Hnd]. by apply Hne.
Qed.

(** Three different members of a set of three are all its members. *)
Lemma three_of_three {A : Type} (l : list A) (x y z n : A) :
  NoDup l → length l = 3 → x ∈ l → y ∈ l → z ∈ l →
  x ≠ y → x ≠ z → y ≠ z → n ∈ l → n = x ∨ n = y ∨ n = z.
Proof.
  intros Hnd Hlen Hx Hy Hz Hxy Hxz Hyz Hn.
  assert ([x; y; z] ≡ₚ l) as Hperm.
  { apply submseteq_length_Permutation; [|simpl; lia].
    apply NoDup_submseteq.
    - rewrite !NoDup_cons, !elem_of_cons, !elem_of_nil.
      repeat split; try tauto. apply NoDup_nil_2.
    - intros w. rewrite !elem_of_cons, elem_of_nil.
      intros [->|[->|[->|[]]]]; done. }
  rewrite <- Hperm in Hn. rewrite !elem_of_cons, elem_of_nil in Hn. tauto.
Qed.

(** *** The notes a hint removes *)

Lemma elem_of_notedIn (notes : list (list Z)) (nums : list Z)
    (affected : list nat) (c : nat) (n : Z) :
  (c, n) ∈ notedIn notes nums affected →
  c ∈ affected ∧ n ∈ nums ∧ n ∈ notes !!! c.
Proof.
  unfold notedIn. intros (c' & Hin & Hc')%list_elem_of_bind.
  case_decide; [by apply elem_of_nil in Hin|].
  apply list_elem_of_fmap in Hin as (n' & [= -> ->] & [? ?]%list_elem_of_filter).
  done.
Qed.

Lemma elem_of_otherNotes (g : list Z) (notes : list (list Z)) (keep : list Z)
    (patternCells : list nat) (c : nat) (n : Z) :
  (c, n) ∈ otherNotes g notes keep patternCells →
  c ∈ patternCells ∧ n ∈ notes !!! c ∧ (n ∉ keep) ∧
  n ∈ getPossibleValues g c.
Proof.
  unfold otherNotes. intros (c' & Hin & Hc')%list_elem_of_bind.
  case_decide; [|by apply elem_of_nil in Hin].
  apply list_elem_of_fmap in Hin
    as (n' & [= -> ->] & [[? ?] ?]%list_elem_of_filter).
  done.
Qed.

Lemma elem_of_notedCells (notes : list (list Z)) (num : Z)
    (affected : list nat) (c : nat) (n : Z) :
  (c, n) ∈ (λ cell, (cell, num)) <$> notedCells notes num affected →
  n = num ∧ c ∈ affected ∧ num ∈ notes !!! c.
Proof.
  unfold notedCells.
  intros (c' & [= -> ->] & [? ?]%list_elem_of_filter)%list_elem_of_fmap. done.
Qed.

Lemma removal_Some (h : Hint) (l : list (nat * Z)) (c : nat) (n : Z) :
  notesToRemove h = Some l → removal h c n → (c, n) ∈ l.
Proof. intros Hl (l' & Hl' & Hin). congruence. Qed.

Lemma removal_record (ci : nat) (v : Z) (t e : string)
    (hl : list HintHighlight) (en : list (option Z * string))
    (l : list (nat * Z)) (c : nat) (n : Z) :
  removal {| cellIndex := ci; value := v; technique := t; explanation := e;
             highlights := hl; eliminatedNumbers := en;
             notesToRemove := Some l |} c n →
  (c, n) ∈ l.
Proof. by intros (l' & [= <-] & H). Qed.

Ltac hint_found H :=
  apply (inj Some) in H; match type of H with _ = ?h => subst h end.

Lemma invalidNotesAt_inv (g : list Z) (notes : list (list Z)) (i : nat)
    (h : Hint) :
  invalidNotesAt g notes i = Some h →
  g !! i = Some 0%Z ∧
  ∀ c n, removal h c n →
         c = i ∧ n ∈ notes !!! i ∧ n ∉ getPossibleValues g i.
Proof.
  unfold invalidNotesAt. case_decide as Hg; [done|]. cbv zeta.
  case_decide; [done|]. case_decide; [|done]. intros Hh. hint_found Hh.
  split; [done|]. intros c n Hr.
  apply removal_record in Hr.
  apply list_elem_of_fmap in Hr as (n' & [= -> ->] & [? ?]%list_elem_of_filter).
  done.
Qed.

Lemma nakedPairsUnit_inv (g : list Z) (candidates notes : list (list Z))
    (u : list nat) (name : string) (h : Hint) :
  nakedPairsUnit g candidates notes u name = Some h →
  ∃ cellA cellB a0 a1,
    cellA ∈ u ∧ cellB ∈ u ∧ (NoDup u → cellA ≠ cellB) ∧
    g !! cellA = Some 0%Z ∧ g !! cellB = Some 0%Z ∧
    candidates !!! cellA = [a0; a1] ∧ candidates !!! cellB = [a0; a1] ∧
    ∀ c n, removal h c n →
           c ∈ u ∧ c ≠ cellA ∧ c ≠ cellB ∧ g !! c = Some 0%Z ∧
           (n = a0 ∨ n = a1) ∧ n ∈ notes !!! c.
Proof.
  unfold nakedPairsUnit. cbv zeta.
  intros ([cellA cellB] & (HA & HB & Hne)%elem_of_pairs & H)%firstSome_Some.
  apply list_elem_of_filter in HA as [[HgA _] HA].
  apply list_elem_of_filter in HB as [[HgB _] HB].
  cbv beta iota delta [fst snd] in H.
  destruct (candidates !!! cellA) as [|a0 [|a1 [|]]] eqn:HcA; try done.
  destruct (candidates !!! cellB) as [|b0 [|b1 [|]]] eqn:HcB; try done.
  case_decide as Heq; [|done]. destruct Heq as [<- <-].
  case_decide; [|done]. hint_found H.
  exists cellA, cellB, a0, a1. repeat (split; [done|]).
  split; [intros Hnd; by apply Hne, NoDup_filter|]. repeat (split; [done|]).
  intros c n Hr. apply removal_record in Hr.
  apply elem_of_notedIn in Hr as (Hc & Hn & Hnote).
  apply list_elem_of_filter in Hc as [(? & ? & ? & _) ?].
  rewrite !elem_of_cons, elem_of_nil in Hn. tauto.
Qed.

Lemma nakedTriplesUnit_inv (g : list Z) (candidates notes : list (list Z))
    (u : list nat) (name : string) (h : Hint) :
  nakedTriplesUnit g candidates notes u name = Some h →
  ∃ cellA cellB cellC tripleNums,
    cellA ∈ u ∧ cellB ∈ u ∧ cellC ∈ u ∧
    (NoDup u → cellA ≠ cellB ∧ cellA ≠ cellC ∧ cellB ≠ cellC) ∧
    g !! cellA = Some 0%Z ∧ g !! cellB = Some 0%Z ∧ g !! cellC = Some 0%Z ∧
    tripleNums
    = set_of_list (candidates !!! cellA ++ candidates !!! cellB
                   ++ candidates !!! cellC) ∧
    length tripleNums = 3 ∧
    ∀ c n, removal h c n →
           c ∈ u ∧ c ≠ cellA ∧ c ≠ cellB ∧ c ≠ cellC ∧ g !! c = Some 0%Z ∧
           n ∈ tripleNums ∧ n ∈ notes !!! c.
Proof.
  unfold nakedTriplesUnit. cbv zeta.
  intros ([[cellA cellB] cellC] & (HA & HB & HC & Hne)%elem_of_triples & H)
    %firstSome_Some.
  apply list_elem_of_filter in HA as [[HgA _] HA].
  apply list_elem_of_filter in HB as [[HgB _] HB].
  apply list_elem_of_filter in HC as [[HgC _] HC].
  cbn [fst snd mbind list_bind] in H. rewrite app_nil_r in H.
  case_decide as Hlen; [|done]. case_decide; [|done]. hint_found H.
  eexists cellA, cellB, cellC, _. repeat (split; [done|]).
  split; [intros Hnd; by apply Hne, NoDup_filter|]. repeat (split; [done|]).
  intros c n Hr. apply removal_record in Hr.
  apply elem_of_notedIn in Hr as (Hc & Hn & Hnote).
  apply list_elem_of_filter in Hc as [(Hc & ? & _) ?].
  rewrite !elem_of_cons, elem_of_nil in Hc. tauto.
Qed.

Lemma hiddenPairsUnit_inv (g : list Z) (candidates notes : list (list Z))
    (u : list nat) (name : string) (h : Hint) :
  hiddenPairsUnit g candidates notes u name = Some h →
  ∃ n1 n2 p0 p1,
    n1 ∈ digits ∧ n2 ∈ digits ∧ n1 ≠ n2 ∧
    filter (λ i, n1 ∈ candidates !!! i) (filter (λ i, g !! i = Some 0%Z) u)
    = [p0; p1] ∧
    filter (λ i, n2 ∈ candidates !!! i) (filter (λ i, g !! i = Some 0%Z) u)
    = [p0; p1] ∧
    ∀ c n, removal h c n →
           (c = p0 ∨ c = p1) ∧ n ∈ notes !!! c ∧ n ≠ n1 ∧ n ≠ n2 ∧
           n ∈ getPossibleValues g c.
Proof.
  unfold hiddenPairsUnit. cbv zeta.
  intros ([n1 n2] & (H1 & H2 & Hne)%elem_of_pairs & H)%firstSome_Some.
  cbv beta iota delta [fst snd] in H.
  destruct (filter (λ i, n1 ∈ candidates !!! i) _)
    as [|p0 [|p1 [|]]] eqn:Hf1; try done.
  destruct (filter (λ i, n2 ∈ candidates !!! i) _)
    as [|q0 [|q1 [|]]] eqn:Hf2; try done.
  case_decide as Heq; [|done]. destruct Heq as [<- <-].
  case_decide; [|done]. hint_found H.
  exists n1, n2, p0, p1. repeat (split; [done|]).
  split. { apply Hne, (bool_decide_unpack (NoDup digits)). by vm_compute. }
  repeat (split; [done|]).
  intros c n Hr. apply removal_record in Hr.
  apply elem_of_otherNotes in Hr as (Hc & Hnote & Hkeep & Hposs).
  rewrite !elem_of_cons, elem_of_nil in Hc.
  rewrite !elem_of_cons, elem_of_nil in Hkeep. tauto.
Qed.

Lemma hiddenTriplesUnit_inv (g : list Z) (candidates notes : list (list Z))
    (u : list nat) (name : string) (h : Hint) :
  hiddenTriplesUnit g candidates notes u name = Some h →
  ∀ c n, removal h c n →
         c ∈ u ∧ g !! c = Some 0%Z ∧ n ∈ notes !!! c ∧
         n ∈ getPossibleValues g c.
Proof.
  unfold hiddenTriplesUnit. cbv zeta.
  intros ([[n1 n2] n3] & _ & H)%firstSome_Some. cbv beta iota delta [fst snd] in H.
  destruct (filter _ _) as [|c0 [|c1 [|c2 [|]]]] eqn:Hf; try done.
  case_decide; [|done]. hint_found H.
  intros c n Hr. apply removal_record in Hr.
  apply elem_of_otherNotes in Hr as (Hc & Hnote & _ & Hposs).
  rewrite <- Hf in Hc.
  apply list_elem_of_filter in Hc as [_ [? ?]%list_elem_of_filter]. done.
Qed.

Lemma set_of_list_singleton {A : Type} `{EqDecision A} (l : list A) (x : A) :
  set_of_list l = [x] → ∀ y, y ∈ l → y = x.
Proof.
  intros H y Hy%elem_of_set_of_list. rewrite H in Hy.
  by apply list_elem_of_singleton in Hy.
Qed.

Lemma pointingAlong_inv (candidates notes : list (list Z))
    (boxIndices : list nat) (boxNum : nat) (num : Z)
    (cellsWithNum : list nat) (first : nat) (lineKind : string) (line : nat)
    (lineIndices : list nat) (h : Hint) :
  pointingAlong candidates notes boxIndices boxNum num cellsWithNum first
    lineKind line lineIndices = Some h →
  ∀ c n, removal h c n →
         n = num ∧ c ∈ lineIndices ∧ (c ∉ boxIndices) ∧
         num ∈ candidates !!! c ∧ num ∈ notes !!! c.
Proof.
  unfold pointingAlong. cbv zeta. case_decide; [|done]. intros Hh. hint_found Hh.
  intros c n Hr. apply removal_record in Hr.
  apply elem_of_notedCells in Hr as (-> & [[? ?] ?]%list_elem_of_filter & ?).
  done.
Qed.

Lemma pointingAt_inv (g : list Z) (candidates notes : list (list Z))
    (boxRow boxCol : nat) (num : Z) (h : Hint) :
  pointingAt g candidates notes boxRow boxCol num = Some h →
  (∀ i, i ∈ getBoxIndices boxRow boxCol → g !! i ≠ Some num) ∧
  ∃ first lineIndices,
    first ∈ getBoxIndices boxRow boxCol ∧ num ∈ candidates !!! first ∧
    ((∃ r, lineIndices = getRowIndices r ∧
           ∀ i, i ∈ getBoxIndices boxRow boxCol → num ∈ candidates !!! i →
                row (getCellInfo i) = r) ∨
     (∃ c, lineIndices = getColIndices c ∧
           ∀ i, i ∈ getBoxIndices boxRow boxCol → num ∈ candidates !!! i →
                col (getCellInfo i) = c)) ∧
    ∀ c n, removal h c n →
           n = num ∧ c ∈ lineIndices ∧ (c ∉ getBoxIndices boxRow boxCol) ∧
           num ∈ candidates !!! c ∧ num ∈ notes !!! c.
Proof.
  unfold pointingAt. cbv zeta. case_decide as Hplaced; [done|].
  case_decide as Hlen; [done|].
  destruct (filter _ _) as [|first rest] eqn:Hf; [done|].
  assert (first ∈ filter (λ i, num ∈ candidates !!! i)
                     (getBoxIndices boxRow boxCol))
    as [Hcand Hfirst]%list_elem_of_filter by (rewrite Hf; left).
  intros H. split.
  { intros i Hi Hgi. apply Hplaced, Exists_exists. by exists i. }
  destruct (match set_of_list ((λ i, row (getCellInfo i)) <$> first :: rest)
            with [r] => _ | _ => None end) as [h'|] eqn:Hrow.
  - apply (inj Some) in H. subst h'.
    destruct (set_of_list ((λ i, row (getCellInfo i)) <$> first :: rest))
      as [|r [|]] eqn:Hset; try done.
    exists first, (getRowIndices r). split; [done|]. split; [done|]. split.
    + left. exists r. split; [done|]. intros i Hi Hc.
      apply (set_of_list_singleton _ _ Hset).
      apply (list_elem_of_fmap_2 (λ i, row (getCellInfo i))).
      rewrite <- Hf. by apply list_elem_of_filter.
    + by eapply pointingAlong_inv.
  - destruct (set_of_list ((λ i, col (getCellInfo i)) <$> first :: rest))
      as [|c [|]] eqn:Hset; try done.
    exists first, (getColIndices c). split; [done|]. split; [done|]. split.
    + right. exists c. split; [done|]. intros i Hi Hc.
      apply (set_of_list_singleton _ _ Hset).
      apply (list_elem_of_fmap_2 (λ i, col (getCellInfo i))).
      rewrite <- Hf. by apply list_elem_of_filter.
    + by eapply pointingAlong_inv.
Qed.

Lemma xWingRows_inv (candidates notes : list (list Z)) (num : Z) (h : Hint) :
  xWingRows candidates notes num = Some h →
  ∃ row1 row2 x0 x1 y0 y1,
    row1 < row2 ∧ row2 < 9 ∧
    filter (λ i, num ∈ candidates !!! i) (getRowIndices row1) = [x0; x1] ∧
    filter (λ i, num ∈ candidates !!! i) (getRowIndices row2) = [y0; y1] ∧
    col (getCellInfo x0) = col (getCellInfo y0) ∧
    col (getCellInfo x1) = col (getCellInfo y1) ∧
    ∀ c n, removal h c n →
           n = num ∧
           (c ∈ getColIndices (col (getCellInfo x0)) ∨
            c ∈ getColIndices (col (getCellInfo x1))) ∧
           (c ∉ [x0; x1; y0; y1]) ∧
           num ∈ candidates !!! c ∧ num ∈ notes !!! c.
Proof.
  unfold xWingRows. cbv zeta.
  intros (row1 & Hrow1%elem_of_seq & H)%firstSome_Some.
  destruct (filter _ (getRowIndices row1)) as [|x0 [|x1 [|]]] eqn:Hf1; try done.
  apply firstSome_Some in H as (row2 & Hrow2%elem_of_seq & H).
  destruct (filter _ (getRowIndices row2)) as [|y0 [|y1 [|]]] eqn:Hf2; try done.
  case_decide as Hcols; [|done]. destruct Hcols as [Hc0 Hc1].
  case_decide; [|done]. hint_found H.
  exists row1, row2, x0, x1, y0, y1.
  split; [lia|]. split; [lia|]. repeat (split; [done|]).
  intros c n Hr. apply removal_record in Hr.
  apply elem_of_notedCells in Hr as (-> & Hc & Hnote). split; [done|].
  apply list_elem_of_bind in Hc as (cl & [[Hx Hcand] Hin]%list_elem_of_filter & Hcl).
  cbv beta iota delta [fmap list_fmap] in Hcl. rewrite !elem_of_cons, elem_of_nil in Hcl.
  split; [destruct Hcl as [->|[->|[]]]; auto|]. done.
Qed.

Lemma xWingCols_inv (candidates notes : list (list Z)) (num : Z) (h : Hint) :
  xWingCols candidates notes num = Some h →
  ∃ col1 col2 x0 x1 y0 y1,
    col1 < col2 ∧ col2 < 9 ∧
    filter (λ i, num ∈ candidates !!! i) (getColIndices col1) = [x0; x1] ∧
    filter (λ i, num ∈ candidates !!! i) (getColIndices col2) = [y0; y1] ∧
    row (getCellInfo x0) = row (getCellInfo y0) ∧
    row (getCellInfo x1) = row (getCellInfo y1) ∧
    ∀ c n, removal h c n →
           n = num ∧
           (c ∈ getRowIndices (row (getCellInfo x0)) ∨
            c ∈ getRowIndices (row (getCellInfo x1))) ∧
           (c ∉ [x0; x1; y0; y1]) ∧
           num ∈ candidates !!! c ∧ num ∈ notes !!! c.
Proof.
  unfold xWingCols. cbv zeta.
  intros (col1 & Hcol1%elem_of_seq & H)%firstSome_Some.
  destruct (filter _ (getColIndices col1)) as [|x0 [|x1 [|]]] eqn:Hf1; try done.
  apply firstSome_Some in H as (col2 & Hcol2%elem_of_seq & H).
  destruct (filter _ (getColIndices col2)) as [|y0 [|y1 [|]]] eqn:Hf2; try done.
  case_decide as Hrows; [|done]. destruct Hrows as [Hr0 Hr1].
  case_decide; [|done]. hint_found H.
  exists col1, col2, x0, x1, y0, y1.
  split; [lia|]. split; [lia|]. repeat (split; [done|]).
  intros c n Hr. apply removal_record in Hr.
  apply elem_of_notedCells in Hr as (-> & Hc & Hnote). split; [done|].
  apply list_elem_of_bind in Hc as (rw & [[Hx Hcand] Hin]%list_elem_of_filter & Hrw).
  cbv beta iota delta [fmap list_fmap] in Hrw. rewrite !elem_of_cons, elem_of_nil in Hrw.
  split; [destruct Hrw as [->|[->|[]]]; auto|]. done.
Qed.

Lemma findXWing_inv (g : list Z) (candidates notes : list (list Z)) (h : Hint) :
  findXWing g candidates notes = Some h →
  ∃ num, num ∈ digits ∧
         (xWingRows candidates notes num = Some h ∨
          xWingCols candidates notes num = Some h).
Proof.
  unfold findXWing. intros (num & Hnum & H)%firstSome_Some.
  exists num. split; [done|].
  destruct (xWingRows candidates notes num); [left|right]; done.
Qed.

Lemma yWingCheck_inv (g : list Z) (candidates notes : list (list Z))
    (pivot wing1 wing2 : nat) (a b x y : Z) (h : Hint) :
  yWingCheck g candidates notes pivot wing1 wing2 a b x y = Some h →
  ∃ c, head (filter (λ n, n ≠ x) (candidates !!! wing1)) = Some c ∧
       head (filter (λ n, n ≠ y) (candidates !!! wing2)) = Some c ∧
       ∀ c' n, removal h c' n →
               n = c ∧ c' < 81 ∧ c' ≠ pivot ∧ c' ≠ wing1 ∧ c' ≠ wing2 ∧
               g !! c' = Some 0%Z ∧ c ∈ candidates !!! c' ∧
               related c' wing1 = true ∧ related c' wing2 = true ∧
               c ∈ notes !!! c'.
Proof.
  unfold yWingCheck. case_decide as Hxy; [|done]. cbv zeta.
  destruct (head (filter (λ n, n ≠ x) _)) as [c|] eqn:Hc1; [|done].
  case_decide as Hc2; [|done]. case_decide; [|done]. intros Hh. hint_found Hh.
  exists c. split; [done|]. split; [done|].
  intros c' n Hr. apply removal_record in Hr.
  apply elem_of_notedCells in Hr as (-> & Hc & Hnote).
  apply list_elem_of_filter in Hc
    as [(? & ? & ? & ? & ? & ?%Is_true_true & ?%Is_true_true) Hlt%elem_of_seq].
  repeat (split; [done || lia|]). done.
Qed.

Lemma findYWing_inv (g : list Z) (candidates notes : list (list Z)) (h : Hint) :
  findYWing g candidates notes = Some h →
  ∃ pivot wing1 wing2 a b x y,
    pivot < 81 ∧ g !! pivot = Some 0%Z ∧ candidates !!! pivot = [a; b] ∧
    wing1 < 81 ∧ wing1 ≠ pivot ∧ related pivot wing1 = true ∧
    g !! wing1 = Some 0%Z ∧ length (candidates !!! wing1) = 2 ∧
    wing2 < 81 ∧ wing2 ≠ pivot ∧ related pivot wing2 = true ∧
    g !! wing2 = Some 0%Z ∧ length (candidates !!! wing2) = 2 ∧
    (x = a ∧ y = b ∨ x = b ∧ y = a) ∧
    x ∈ candidates !!! wing1 ∧ y ∈ candidates !!! wing2 ∧
    yWingCheck g candidates notes pivot wing1 wing2 a b x y = Some h.
Proof.
  unfold findYWing. cbv zeta.
  intros (pivot & [[Hgp _] Hp%elem_of_seq]%list_elem_of_filter & H)
    %firstSome_Some.
  destruct (candidates !!! pivot) as [|a [|b [|]]] eqn:Hcp; try done.
  apply firstSome_Some in H as ([w1 w2] & (Hw1 & Hw2 & _)%elem_of_pairs & H).
  apply list_elem_of_filter in Hw1
    as [(? & ?%Is_true_true & _)
        [[? ?] ?%elem_of_seq]%list_elem_of_filter].
  apply list_elem_of_filter in Hw2
    as [(? & ?%Is_true_true & _)
        [[? ?] ?%elem_of_seq]%list_elem_of_filter].
  cbv beta iota delta [fst snd] in H.
  assert (∀ x y, yWingCheck g candidates notes pivot w1 w2 a b x y = Some h →
                 x ∈ candidates !!! w1 ∧ y ∈ candidates !!! w2) as Hxy.
  { intros x y. unfold yWingCheck. by case_decide. }
  destruct (yWingCheck g candidates notes pivot w1 w2 a b a b) as [h'|] eqn:Hab.
  - apply (inj Some) in H. subst h'. destruct (Hxy _ _ Hab).
    exists pivot, w1, w2, a, b, a, b.
    repeat (split; [done || lia || auto|]). done.
  - destruct (Hxy _ _ H).
    exists pivot, w1, w2, a, b, b, a.
    repeat (split; [done || lia || auto|]). done.
Qed.

Lemma elem_of_linesWithNum (candidates : list (list Z)) (num : Z)
    (lineIndices : nat → list nat) (across : nat → nat)
    (line : nat) (places : list nat) :
  (line, places) ∈ linesWithNum candidates num lineIndices across →
  line < 9 ∧ 2 ≤ length places ∧
  places
  = across <$> filter (λ i, num ∈ candidates !!! i) (lineIndices line).
Proof.
  unfold linesWithNum.
  intros (l & Hl%elem_of_seq & H)%list_elem_of_omap. revert H. cbv zeta.
  case_decide as Hlen; [|done]. intros [= -> <-]. split; [lia|]. split; [lia|done].
Qed.

Lemma linesWithNum_NoDup (candidates : list (list Z)) (num : Z)
    (lineIndices : nat → list nat) (across : nat → nat) :
  NoDup (linesWithNum candidates num lineIndices across).
Proof.
  unfold linesWithNum. apply (NoDup_fmap_1 fst).
  generalize (seq 0 9) (NoDup_seq 0 9).
  induction 1 as [|x l Hx Hnd IH]; [constructor|]. cbn [omap list_omap].
  cbv zeta. case_decide; [|done]. rewrite fmap_cons. apply NoDup_cons.
  split; [|done]. cbn [fst].
  intros ([y p] & -> & (z & Hz & H')%list_elem_of_omap)%list_elem_of_fmap.
  revert H'. case_decide; [|done]. by intros [= -> _].
Qed.

Lemma elem_of_line_triples (candidates : list (list Z)) (num : Z)
    (lineIndices : nat → list nat) (across : nat → nat)
    (l1 l2 l3 : nat) (p1 p2 p3 : list nat) :
  ((l1, p1), (l2, p2), (l3, p3))
    ∈ triples (linesWithNum candidates num lineIndices across) →
  l1 < 9 ∧ l2 < 9 ∧ l3 < 9 ∧ l1 ≠ l2 ∧ l1 ≠ l3 ∧ l2 ≠ l3 ∧
  (∀ l p, (l, p) ∈ [(l1, p1); (l2, p2); (l3, p3)] →
          2 ≤ length p ∧
          p = across <$> filter (λ i, num ∈ candidates !!! i) (lineIndices l)).
Proof.
  intros (H1 & H2 & H3 & Hne)%elem_of_triples.
  destruct (Hne (linesWithNum_NoDup _ _ _ _)) as (H12 & H13 & H23).
  apply elem_of_linesWithNum in H1 as (? & ? & Hp1).
  apply elem_of_linesWithNum in H2 as (? & ? & Hp2).
  apply elem_of_linesWithNum in H3 as (? & ? & Hp3).
  repeat (split; [done|]).
  split; [intros ->; apply H12; congruence|].
  split; [intros ->; apply H13; congruence|].
  split; [intros ->; apply H23; congruence|].
  intros l p. rewrite !elem_of_cons, elem_of_nil.
  intros [[= -> ->]|[[= -> ->]|[[= -> ->]|[]]]]; done.
Qed.

Lemma swordfishRows_inv (candidates notes : list (list Z)) (num : Z)
    (h : Hint) :
  swordfishRows candidates notes num = Some h →
  ∃ r1 r2 r3 cols,
    r1 < 9 ∧ r2 < 9 ∧ r3 < 9 ∧ r1 ≠ r2 ∧ r1 ≠ r3 ∧ r2 ≠ r3 ∧
    NoDup cols ∧ length cols = 3 ∧
    (∀ r, r ∈ [r1; r2; r3] →
          (∃ i, i ∈ getRowIndices r ∧ num ∈ candidates !!! i) ∧
          ∀ i, i ∈ getRowIndices r → num ∈ candidates !!! i →
               col (getCellInfo i) ∈ cols) ∧
    ∀ c n, removal h c n →
           n = num ∧ num ∈ candidates !!! c ∧ num ∈ notes !!! c ∧
           ∃ cl, cl ∈ cols ∧ c ∈ getColIndices cl ∧
                 ∀ r cl', r ∈ [r1; r2; r3] → cl' ∈ cols → c ≠ r * 9 + cl'.
Proof.
  unfold swordfishRows. cbv zeta.
  intros ([[[r1 p1] [r2 p2]] [r3 p3]] & Ht & H)%firstSome_Some.
  apply elem_of_line_triples in Ht
    as (? & ? & ? & ? & ? & ? & Hplaces).
  cbv beta iota delta [fst snd] in H.
  case_decide as Hlen; [|done]. case_decide; [|done]. hint_found H.
  exists r1, r2, r3, (set_of_list (p1 ++ p2 ++ p3)).
  repeat (split; [done|]). split; [apply NoDup_set_of_list|].
  split; [done|]. split.
  - intros r Hr.
    assert (∃ p, (r, p) ∈ [(r1, p1); (r2, p2); (r3, p3)] ∧
                 p ⊆ p1 ++ p2 ++ p3) as (p & Hp & Hsub).
    { rewrite !elem_of_cons, elem_of_nil in Hr.
      destruct Hr as [->|[->|[->|[]]]];
        eexists; (split; [rewrite !elem_of_cons; eauto|]);
        intros x Hx; rewrite !elem_of_app; auto. }
    destruct (Hplaces r p Hp) as [Hlen' ->]. split.
    + destruct (filter _ (getRowIndices r)) as [|i rest] eqn:Hf;
        [simpl in Hlen'; lia|].
      assert (i ∈ filter (λ i, num ∈ candidates !!! i) (getRowIndices r))
        as [? ?]%list_elem_of_filter by (rewrite Hf; left).
      by exists i.
    + intros i Hi Hc. apply elem_of_set_of_list, Hsub.
      apply (list_elem_of_fmap_2 (λ i, col (getCellInfo i))).
      by apply list_elem_of_filter.
  - intros c n Hr. apply removal_record in Hr.
    apply elem_of_notedCells in Hr as (-> & Hc & Hnote).
    apply list_elem_of_bind in Hc
      as (cl & [[Hx Hcand] Hin]%list_elem_of_filter & Hcl).
    repeat (split; [done|]). exists cl. split; [done|]. split; [done|].
    intros r cl' Hr Hcl' ->. apply Hx.
    apply list_elem_of_bind. exists r. split; [|done].
    apply list_elem_of_filter. split; [done|].
    by apply (list_elem_of_fmap_2 (λ col, r * 9 + col)).
Qed.

Lemma swordfishCols_inv (candidates notes : list (list Z)) (num : Z)
    (h : Hint) :
  swordfishCols candidates notes num = Some h →
  ∃ c1 c2 c3 rows,
    c1 < 9 ∧ c2 < 9 ∧ c3 < 9 ∧ c1 ≠ c2 ∧ c1 ≠ c3 ∧ c2 ≠ c3 ∧
    NoDup rows ∧ length rows = 3 ∧
    (∀ cl, cl ∈ [c1; c2; c3] →
           (∃ i, i ∈ getColIndices cl ∧ num ∈ candidates !!! i) ∧
           ∀ i, i ∈ getColIndices cl → num ∈ candidates !!! i →
                row (getCellInfo i) ∈ rows) ∧
    ∀ c n, removal h c n →
           n = num ∧ num ∈ candidates !!! c ∧ num ∈ notes !!! c ∧
           ∃ r, r ∈ rows ∧ c ∈ getRowIndices r ∧
                ∀ r' cl, r' ∈ rows → cl ∈ [c1; c2; c3] → c ≠ r' * 9 + cl.
Proof.
  unfold swordfishCols. cbv zeta.
  intros ([[[c1 p1] [c2 p2]] [c3 p3]] & Ht & H)%firstSome_Some.
  apply elem_of_line_triples in Ht
    as (? & ? & ? & ? & ? & ? & Hplaces).
  cbv beta iota delta [fst snd] in H.
  case_decide as Hlen; [|done]. case_decide; [|done]. hint_found H.
  exists c1, c2, c3, (set_of_list (p1 ++ p2 ++ p3)).
  repeat (split; [done|]). split; [apply NoDup_set_of_list|].
  split; [done|]. split.
  - intros cl Hcl.
    assert (∃ p, (cl, p) ∈ [(c1, p1); (c2, p2); (c3, p3)] ∧
                 p ⊆ p1 ++ p2 ++ p3) as (p & Hp & Hsub).
    { rewrite !elem_of_cons, elem_of_nil in Hcl.
      destruct Hcl as [->|[->|[->|[]]]];
        eexists; (split; [rewrite !elem_of_cons; eauto|]);
        intros x Hx; rewrite !elem_of_app; auto. }
    destruct (Hplaces cl p Hp) as [Hlen' ->]. split.
    + destruct (filter _ (getColIndices cl)) as [|i rest] eqn:Hf;
        [simpl in Hlen'; lia|].
      assert (i ∈ filter (λ i, num ∈ candidates !!! i) (getColIndices cl))
        as [? ?]%list_elem_of_filter by (rewrite Hf; left).
      by exists i.
    + intros i Hi Hc. apply elem_of_set_of_list, Hsub.
      apply (list_elem_of_fmap_2 (λ i, row (getCellInfo i))).
      by apply list_elem_of_filter.
  - intros c n Hr. apply removal_record in Hr.
    apply elem_of_notedCells in Hr as (-> & Hc & Hnote).
    apply list_elem_of_bind in Hc
      as (r & [[Hx Hcand] Hin]%list_elem_of_filter & Hrw).
    repeat (split; [done|]). exists r. split; [done|]. split; [done|].
    intros r' cl Hr' Hcl ->. apply Hx.
    apply list_elem_of_bind. exists r'. split; [|done].
    apply list_elem_of_filter. split; [done|].
    by apply (list_elem_of_fmap_2 (λ col, r' * 9 + col)).
Qed.

Lemma findSwordfish_inv (g : list Z) (candidates notes : list (list Z))
    (h : Hint) :
  findSwordfish g candidates notes = Some h →
  ∃ num, num ∈ digits ∧
         (swordfishRows candidates notes num = Some h ∨
          swordfishCols candidates notes num = Some h).
Proof.
  unfold findSwordfish. intros (num & Hnum & H)%firstSome_Some.
  exists num. split; [done|].
  destruct (swordfishRows candidates notes num); [left|right]; done.
Qed.

Lemma own_row_unit (i : nat) :
  i < 81 →
  i ∈ getRowIndices (row (getCellInfo i)) ∧
  getRowIndices (row (getCellInfo i)) ∈ units.
Proof.
  intros Hi. cbn [getCellInfo row]. split.
  - by apply elem_of_getRowIndices.
  - apply row_in_units. div_lia.
Qed.

Lemma own_col_unit (i : nat) :
  i < 81 →
  i ∈ getColIndices (col (getCellInfo i)) ∧
  getColIndices (col (getCellInfo i)) ∈ units.
Proof.
  intros Hi. cbn [getCellInfo col]. split.
  - apply elem_of_getColIndices; [div_lia|done].
  - apply col_in_units. div_lia.
Qed.

(** Of two candidates, those that are not [x] are the other one. *)
Lemma two_candidates (l : list Z) (x c v : Z) :
  NoDup l → length l = 2 → x ∈ l →
  head (filter (λ n, n ≠ x) l) = Some c → v ∈ l → v = x ∨ v = c.
Proof.
  destruct l as [|p [|q [|]]]; try done. intros Hnd _ Hx Hhead Hv.
  apply NoDup_cons in Hnd as [Hpq _].
  rewrite !elem_of_cons, elem_of_nil in Hpq.
  rewrite !elem_of_cons, elem_of_nil in Hx.
  rewrite !elem_of_cons, elem_of_nil in Hv.
  rewrite !filter_cons, filter_nil in Hhead.
  destruct Hx as [->|[->|[]]].
  - rewrite decide_False, decide_True in Hhead by (intuition congruence).
    injection Hhead as <-. tauto.
  - rewrite decide_True in Hhead by (intuition congruence).
    injection Hhead as <-. tauto.
Qed.

(** *** Only real notes are removed *)

Lemma candidate_empty_cell (g : list Z) (notes : list (list Z)) (i : nat)
    (n : Z) :
  n ∈ getAllCandidates g notes !!! i → i < 81 ∧ g !! i = Some 0%Z.
Proof.
  intros (Hi & Hp%getPossibleValues_placeCells & _)%elem_of_getAllCandidates.
  tauto.
Qed.

Lemma getHint_cases (g solution : list Z) (notes : list (list Z)) (h : Hint) :
  getHint g solution notes = Some h →
  let candidates := getAllCandidates g notes in
  findInvalidNotes g notes candidates = Some h ∨
  findLastFreeCell g candidates = Some h ∨
  findNakedSingle g candidates = Some h ∨
  findHiddenSingle g candidates = Some h ∨
  findPointingPairs g candidates notes = Some h ∨
  findNakedPairs g candidates notes = Some h ∨
  findHiddenPairs g candidates notes = Some h ∨
  findNakedTriples g candidates notes = Some h ∨
  findHiddenTriples g candidates notes = Some h ∨
  findXWing g candidates notes = Some h ∨
  findYWing g candidates notes = Some h ∨
  findSwordfish g candidates notes = Some h.
Proof.
  unfold getHint. cbv zeta. intros H.
  repeat match type of H with
         | match ?x with _ => _ end = _ =>
             destruct x eqn:?; [apply (inj Some) in H; subst; tauto|]
         end.
  tauto.
Qed.

Section real_notes.
Variable g : list Z.
Variable notes : list (list Z).

Local Abbreviation candidates := (getAllCandidates g notes).

Lemma findInvalidNotes_real (h : Hint) :
  findInvalidNotes g notes candidates = Some h → removesRealNotes g notes h.
Proof.
  unfold findInvalidNotes.
  intros (i & Hi%elem_of_seq & (Hg & Hrem)%invalidNotesAt_inv)%firstSome_Some.
  intros c n (-> & ? & _)%Hrem. split; [lia|done].
Qed.

Lemma findNakedPairs_real (h : Hint) :
  findNakedPairs g candidates notes = Some h → removesRealNotes g notes h.
Proof.
  unfold findNakedPairs. intros (u & name & Hu & H)%scanUnits_Some.
  apply nakedPairsUnit_inv in H as (? & ? & ? & ? & _ & _ & _ & _ & _ & _ & _ & Hrem).
  intros c n (Hc & _ & _ & ? & _ & ?)%Hrem.
  destruct (unit_facts u Hu) as (_ & _ & Hlt). by destruct (Hlt c Hc).
Qed.

Lemma findNakedTriples_real (h : Hint) :
  findNakedTriples g candidates notes = Some h → removesRealNotes g notes h.
Proof.
  unfold findNakedTriples. intros (u & name & Hu & H)%scanUnits_Some.
  apply nakedTriplesUnit_inv in H
    as (? & ? & ? & ? & _ & _ & _ & _ & _ & _ & _ & _ & _ & Hrem).
  intros c n (Hc & _ & _ & _ & ? & _ & ?)%Hrem.
  destruct (unit_facts u Hu) as (_ & _ & Hlt). by destruct (Hlt c Hc).
Qed.

Lemma findHiddenPairs_real (h : Hint) :
  findHiddenPairs g candidates notes = Some h → removesRealNotes g notes h.
Proof.
  unfold findHiddenPairs. intros (u & name & Hu & H)%scanUnits_Some.
  apply hiddenPairsUnit_inv in H
    as (n1 & n2 & p0 & p1 & _ & _ & _ & Hf & _ & Hrem).
  intros c n (Hc & ? & _)%Hrem.
  assert (c ∈ [p0; p1]) as Hin
    by (rewrite !elem_of_cons; tauto).
  rewrite <- Hf in Hin.
  apply list_elem_of_filter in Hin as [_ [? Hcu]%list_elem_of_filter].
  destruct (unit_facts u Hu) as (_ & _ & Hlt). by destruct (Hlt c Hcu).
Qed.

Lemma findHiddenTriples_real (h : Hint) :
  findHiddenTriples g candidates notes = Some h → removesRealNotes g notes h.
Proof.
  unfold findHiddenTriples. intros (u & name & Hu & H)%scanUnits_Some.
  intros c n (Hc & ? & ? & _)%(hiddenTriplesUnit_inv _ _ _ _ _ _ H).
  destruct (unit_facts u Hu) as (_ & _ & Hlt). by destruct (Hlt c Hc).
Qed.

Lemma findPointingPairs_real (h : Hint) :
  findPointingPairs g candidates notes = Some h → removesRealNotes g notes h.
Proof.
  unfold findPointingPairs.
  intros (br & _ & (bc & _ & (num & _ & H)%firstSome_Some)%firstSome_Some)
    %firstSome_Some.
  apply pointingAt_inv in H as (_ & first & line & _ & _ & _ & Hrem).
  intros c n (-> & _ & _ & [? ?]%candidate_empty_cell & ?)%Hrem. done.
Qed.

Lemma findXWing_real (h : Hint) :
  findXWing g candidates notes = Some h → removesRealNotes g notes h.
Proof.
  intros (num & _ & [H|H])%findXWing_inv.
  - apply xWingRows_inv in H as (? & ? & ? & ? & ? & ? & _ & _ & _ & _ & _ & _ & Hrem).
    intros c n (-> & _ & _ & [? ?]%candidate_empty_cell & ?)%Hrem. done.
  - apply xWingCols_inv in H as (? & ? & ? & ? & ? & ? & _ & _ & _ & _ & _ & _ & Hrem).
    intros c n (-> & _ & _ & [? ?]%candidate_empty_cell & ?)%Hrem. done.
Qed.

Lemma findYWing_real (h : Hint) :
  findYWing g candidates notes = Some h → removesRealNotes g notes h.
Proof.
  intros (pivot & w1 & w2 & a & b & x & y & _ & _ & _ & _ & _ & _ & _ & _ & _
          & _ & _ & _ & _ & _ & _ & _ & H)%findYWing_inv.
  apply yWingCheck_inv in H as (c0 & _ & _ & Hrem).
  intros c n (-> & ? & _ & _ & _ & ? & _ & _ & _ & ?)%Hrem. done.
Qed.

Lemma findSwordfish_real (h : Hint) :
  findSwordfish g candidates notes = Some h → removesRealNotes g notes h.
Proof.
  intros (num & _ & [H|H])%findSwordfish_inv.
  - apply swordfishRows_inv in H
      as (? & ? & ? & ? & _ & _ & _ & _ & _ & _ & _ & _ & _ & H).
    intros c n (-> & [? ?]%candidate_empty_cell & ? & _)%H. done.
  - apply swordfishCols_inv in H
      as (? & ? & ? & ? & _ & _ & _ & _ & _ & _ & _ & _ & _ & H).
    intros c n (-> & [? ?]%candidate_empty_cell & ? & _)%H. done.
Qed.

Lemma no_removal (h : Hint) (c : nat) (n : Z) :
  notesToRemove h = None → ¬ removal h c n.
Proof. intros Hnone (l & Hl & _). congruence. Qed.

End real_notes.

(** *** A game without a standing mistake *)

Section game.
Variables g s : list Z.
Variable notes : list (list Z).
Hypothesis solution_valid : validSolution s.
Hypothesis no_mistake : partialCopy g s.
Hypothesis notes_fine : notesKeepSolution g s notes.

Local Abbreviation candidates := (getAllCandidates g notes).

Lemma solution_cell (i : nat) : i < 81 → ∃ v, s !! i = Some v ∧ v ∈ digits.
Proof.
  intros Hi.
  destruct (validSolution_partialFill s solution_valid) as (_ & _ & Hfill & _).
  destruct (Hfill i Hi) as (v & Hv & Hsi). by exists v.
Qed.

Lemma solution_digit (i : nat) (v : Z) : s !! i = Some v → v ∈ digits.
Proof.
  intros Hsi. destruct (solution_cell i) as (v' & Hv' & Hd); [|congruence].
  apply lookup_lt_Some in Hsi. destruct solution_valid as [Hlen _]. lia.
Qed.

Lemma solution_differs (i j : nat) (v : Z) :
  i < 81 → j < 81 → i ≠ j → related i j = true →
  s !! i = Some v → s !! j ≠ Some v.
Proof.
  intros Hi Hj Hij Hrel Hsi.
  destruct (validSolution_partialFill s solution_valid) as (_ & Hcons & _).
  apply (Hcons i j v); [done..| |done].
  by apply digits_nonzero, (solution_digit i).
Qed.

Lemma unit_lt (u : list nat) (i : nat) : u ∈ units → i ∈ u → i < 81.
Proof.
  intros Hu Hi. destruct (unit_facts u Hu) as (_ & _ & H).
  by destruct (H i Hi).
Qed.

Lemma solution_unit_inj (u : list nat) (a b : nat) (v : Z) :
  u ∈ units → a ∈ u → b ∈ u → s !! a = Some v → s !! b = Some v → a = b.
Proof.
  intros Hu Ha Hb Hsa Hsb. destruct (decide (a = b)) as [|Hab]; [done|].
  exfalso. apply (solution_differs a b v); [by eapply unit_lt..|done| |done|done].
  by apply (same_unit_related u).
Qed.

Lemma solution_unit_has (u : list nat) (n : Z) :
  u ∈ units → n ∈ digits → ∃ c, c ∈ u ∧ s !! c = Some n.
Proof.
  intros Hu Hn. pose proof (validSolution_unit s u solution_valid Hu) as Hperm.
  assert (Some n ∈ (λ i, s !! i) <$> u) as (c & Hc & Hin)%list_elem_of_fmap.
  { unfold permutationOfDigits in Hperm. rewrite Hperm.
    by apply list_elem_of_fmap_2. }
  by exists c.
Qed.

Lemma grid_length : length g = 81.
Proof.
  apply Forall2_length in no_mistake. destruct solution_valid as [Hlen _]. lia.
Qed.

Lemma candidate_inv (i : nat) (n : Z) :
  n ∈ candidates !!! i →
  i < 81 ∧ g !! i = Some 0%Z ∧ n ∈ digits ∧
  ∀ j, j < 81 → related i j = true → g !! j ≠ Some n.
Proof.
  intros (Hi & Hp & _)%elem_of_getAllCandidates.
  apply getPossibleValues_related in Hp; [|done]. tauto.
Qed.

Lemma candidate_solution (i : nat) (v : Z) :
  g !! i = Some 0%Z → s !! i = Some v → v ∈ candidates !!! i.
Proof.
  intros Hgi Hsi.
  assert (i < 81) as Hi by (apply lookup_lt_Some in Hgi; rewrite grid_length in Hgi; lia).
  apply elem_of_getAllCandidates. split; [done|]. split; [|by apply notes_fine].
  apply getPossibleValues_related; [done|]. split; [done|].
  split; [by apply (solution_digit i)|]. intros j Hj Hrel Hgj.
  assert (v ≠ 0%Z) as Hv by (by apply digits_nonzero, (solution_digit i)).
  assert (i ≠ j) as Hij by (intros ->; congruence).
  apply (solution_differs i j v); [done..|].
  by apply (partialCopy_lookup g).
Qed.

(** A digit not yet placed in a unit has its place among the empty cells
    of the unit that keep it as a candidate. *)
Lemma unplaced_home (u : list nat) (n : Z) :
  u ∈ units → n ∈ digits → (∀ j, j ∈ u → g !! j ≠ Some n) →
  ∃ c, c ∈ u ∧ s !! c = Some n ∧ g !! c = Some 0%Z ∧ n ∈ candidates !!! c.
Proof.
  intros Hu Hn Hfree. destruct (solution_unit_has u n Hu Hn) as (c & Hc & Hsc).
  exists c. split; [done|]. split; [done|].
  destruct (lookup_lt_is_Some_2 g c) as [x Hx].
  { rewrite grid_length. by apply (unit_lt u). }
  assert (x = 0%Z) as ->.
  { destruct (decide (x = 0%Z)) as [|Hx0]; [done|]. exfalso.
    apply (Hfree c Hc). rewrite Hx. f_equal.
    pose proof (partialCopy_lookup g s c x no_mistake Hx Hx0). congruence. }
  split; [done|]. by apply candidate_solution.
Qed.

Lemma candidate_home (u : list nat) (i : nat) (n : Z) :
  u ∈ units → i ∈ u → n ∈ candidates !!! i →
  ∃ c, c ∈ u ∧ s !! c = Some n ∧ g !! c = Some 0%Z ∧ n ∈ candidates !!! c.
Proof.
  intros Hu Hi (Hi81 & _ & Hn & Hfree)%candidate_inv.
  apply unplaced_home; [done..|]. intros j Hj. apply Hfree.
  - by apply (unit_lt u).
  - by apply (same_unit_related u).
Qed.

(** *** The hints that give a digit *)

Lemma lastFreeCellIn_sound (u : list nat) (text : string) (h : Hint) :
  u ∈ units → lastFreeCellIn g candidates u text = Some h →
  givesSolution g s h.
Proof.
  intros Hu. unfold lastFreeCellIn.
  destruct (filter _ u) as [|cell [|]] eqn:Hf; try done.
  destruct (head _) as [v|] eqn:Hhead; [|done]. case_decide; [|done].
  intros [= <-]. unfold givesSolution. cbn [cellIndex value].
  assert (cell ∈ filter (λ i, g !! i = Some 0%Z) u) as [Hg Hcell]%list_elem_of_filter
    by (rewrite Hf; left).
  split; [done|].
  assert (v ∈ candidates !!! cell) as Hv by (by apply head_Some_elem_of).
  destruct (candidate_home u cell v Hu Hcell Hv) as (c & Hc & Hsc & Hgc & _).
  assert (c ∈ filter (λ i, g !! i = Some 0%Z) u) as Hin
    by (by apply list_elem_of_filter).
  rewrite Hf in Hin. by apply list_elem_of_singleton in Hin as ->.
Qed.

Lemma findLastFreeCell_sound (h : Hint) :
  findLastFreeCell g candidates = Some h → givesSolution g s h.
Proof.
  unfold findLastFreeCell.
  intros [(r & Hr & H)|[(c & Hc & H)|(br & bc & Hbr & Hbc & H)]]%unit_loops_Some;
    eapply lastFreeCellIn_sound; try exact H.
  - by apply row_in_units.
  - by apply col_in_units.
  - by apply box_in_units.
Qed.

Lemma findNakedSingle_sound (h : Hint) :
  findNakedSingle g candidates = Some h → givesSolution g s h.
Proof.
  unfold findNakedSingle.
  intros (i & Hi%elem_of_seq & H)%firstSome_Some. revert H.
  unfold nakedSingleAt. case_decide as Hg; [done|].
  case_decide as Hlen; [|done].
  destruct (candidates !!! i) as [|v [|]] eqn:Hc; try done. cbn [head].
  intros [= <-]. unfold givesSolution. cbn [cellIndex value].
  split; [done|].
  destruct (solution_cell i) as (v' & Hsi & _); [lia|].
  pose proof (candidate_solution i v' Hg Hsi) as Hin. rewrite Hc in Hin.
  by apply list_elem_of_singleton in Hin as ->.
Qed.

Lemma hiddenSingleIn_sound (u : list nat) (text : Z → nat → string)
    (h : Hint) :
  u ∈ units → hiddenSingleIn g candidates u text = Some h →
  givesSolution g s h.
Proof.
  intros Hu. unfold hiddenSingleIn.
  intros (num & Hnum & H)%firstSome_Some. revert H.
  case_decide as Hplaced; [done|].
  destruct (filter _ u) as [|cell [|]] eqn:Hf; try done.
  intros [= <-]. unfold givesSolution. cbn [cellIndex value].
  destruct (unplaced_home u num Hu Hnum) as (c & Hc & Hsc & Hgc & Hcand).
  { intros j Hj Hgj. apply Hplaced, Exists_exists. by exists j. }
  assert (c ∈ filter (λ i, num ∈ candidates !!! i) u) as Hin
    by (by apply list_elem_of_filter).
  rewrite Hf in Hin. by apply list_elem_of_singleton in Hin as ->.
Qed.

Lemma findHiddenSingle_sound (h : Hint) :
  findHiddenSingle g candidates = Some h → givesSolution g s h.
Proof.
  unfold findHiddenSingle.
  intros [(r & Hr & H)|[(c & Hc & H)|(br & bc & Hbr & Hbc & H)]]%unit_loops_Some;
    eapply hiddenSingleIn_sound; try exact H.
  - by apply row_in_units.
  - by apply col_in_units.
  - by apply box_in_units.
Qed.

(** *** The hints that remove notes *)

Lemma findInvalidNotes_sound (h : Hint) :
  findInvalidNotes g notes candidates = Some h → keepsSolution s h.
Proof.
  unfold findInvalidNotes.
  intros (i & _ & (Hg & Hrem)%invalidNotesAt_inv)%firstSome_Some.
  intros c n (-> & _ & Hposs)%Hrem Hsc. apply Hposs.
  pose proof (candidate_solution i n Hg Hsc) as Hcand.
  apply elem_of_getAllCandidates in Hcand. tauto.
Qed.

Lemma nakedPairsUnit_sound (u : list nat) (name : string) (h : Hint) :
  u ∈ units → nakedPairsUnit g candidates notes u name = Some h →
  keepsSolution s h.
Proof.
  intros Hu (cellA & cellB & a0 & a1 & HA & HB & Hne & HgA & HgB & HcA & HcB
             & Hrem)%nakedPairsUnit_inv.
  destruct (unit_facts u Hu) as (Hnd & _). specialize (Hne Hnd).
  intros c n (Hc & HcA' & HcB' & _ & Hn & _)%Hrem Hsc.
  destruct (solution_cell cellA) as (vA & HsA & _); [by apply (unit_lt u)|].
  destruct (solution_cell cellB) as (vB & HsB & _); [by apply (unit_lt u)|].
  pose proof (candidate_solution cellA vA HgA HsA) as HvA.
  pose proof (candidate_solution cellB vB HgB HsB) as HvB.
  rewrite HcA in HvA. rewrite HcB in HvB.
  rewrite !elem_of_cons, elem_of_nil in HvA, HvB.
  assert (vA ≠ vB) as Hv.
  { intros ->. by apply Hne, (solution_unit_inj u cellA cellB vB). }
  assert (n = vA ∨ n = vB) as [->| ->].
  { destruct HvA as [->|[->|[]]], HvB as [->|[->|[]]], Hn as [->| ->];
      try (by left); try (by right); by destruct Hv. }
  - by apply HcA', (solution_unit_inj u c cellA vA).
  - by apply HcB', (solution_unit_inj u c cellB vB).
Qed.

Lemma findNakedPairs_sound (h : Hint) :
  findNakedPairs g candidates notes = Some h → keepsSolution s h.
Proof.
  unfold findNakedPairs. intros (u & name & Hu & H)%scanUnits_Some.
  by apply (nakedPairsUnit_sound u name).
Qed.

Lemma nakedTriplesUnit_sound (u : list nat) (name : string) (h : Hint) :
  u ∈ units → nakedTriplesUnit g candidates notes u name = Some h →
  keepsSolution s h.
Proof.
  intros Hu (cellA & cellB & cellC & nums & HA & HB & HC & Hne & HgA & HgB
             & HgC & -> & Hlen & Hrem)%nakedTriplesUnit_inv.
  destruct (unit_facts u Hu) as (Hnd & _).
  destruct (Hne Hnd) as (HAB & HAC & HBC).
  intros c n (Hc & HcA & HcB & HcC & _ & Hn & _)%Hrem Hsc.
  destruct (solution_cell cellA) as (vA & HsA & _); [by apply (unit_lt u)|].
  destruct (solution_cell cellB) as (vB & HsB & _); [by apply (unit_lt u)|].
  destruct (solution_cell cellC) as (vC & HsC & _); [by apply (unit_lt u)|].
  pose proof (candidate_solution cellA vA HgA HsA) as HvA.
  pose proof (candidate_solution cellB vB HgB HsB) as HvB.
  pose proof (candidate_solution cellC vC HgC HsC) as HvC.
  destruct (three_of_three _ vA vB vC n (NoDup_set_of_list _) Hlen)
    as [->|[->| ->]].
  - apply elem_of_set_of_list. rewrite !elem_of_app. auto.
  - apply elem_of_set_of_list. rewrite !elem_of_app. auto.
  - apply elem_of_set_of_list. rewrite !elem_of_app. auto.
  - intros ->. by apply HAB, (solution_unit_inj u cellA cellB vB).
  - intros ->. by apply HAC, (solution_unit_inj u cellA cellC vC).
  - intros ->. by apply HBC, (solution_unit_inj u cellB cellC vC).
  - done.
  - by apply HcA, (solution_unit_inj u c cellA vA).
  - by apply HcB, (solution_unit_inj u c cellB vB).
  - by apply HcC, (solution_unit_inj u c cellC vC).
Qed.

Lemma findNakedTriples_sound (h : Hint) :
  findNakedTriples g candidates notes = Some h → keepsSolution s h.
Proof.
  unfold findNakedTriples. intros (u & name & Hu & H)%scanUnits_Some.
  by apply (nakedTriplesUnit_sound u name).
Qed.

Lemma hiddenPairsUnit_sound (u : list nat) (name : string) (h : Hint) :
  u ∈ units → hiddenPairsUnit g candidates notes u name = Some h →
  keepsSolution s h.
Proof.
  intros Hu (n1 & n2 & p0 & p1 & Hn1 & Hn2 & Hne & Hf1 & Hf2 & Hrem)
    %hiddenPairsUnit_inv.
  intros c n (Hc & _ & Hnn1 & Hnn2 & _)%Hrem Hsc.
  assert (∀ m : Z, filter (λ i, m ∈ candidates !!! i)
                 (filter (λ i, g !! i = Some 0%Z) u) = [p0; p1] →
               (s !! p0 = Some m ∨ s !! p1 = Some m) ∧ p0 ∈ u ∧ p1 ∈ u)
    as Hhome.
  { intros m Hf.
    assert (∀ p, p ∈ [p0; p1] → p ∈ u ∧ m ∈ candidates !!! p) as Hin.
    { intros p Hp. rewrite <- Hf in Hp.
      apply list_elem_of_filter in Hp as [? [_ ?]%list_elem_of_filter]. done. }
    destruct (Hin p0) as [Hp0 Hm0]; [left|].
    destruct (Hin p1) as [Hp1 _]; [right; left|].
    destruct (candidate_home u p0 m Hu Hp0 Hm0) as (c' & Hc' & Hsc' & Hgc' & Hm).
    assert (c' ∈ [p0; p1]) as Hcp.
    { rewrite <- Hf. apply list_elem_of_filter. split; [done|].
      by apply list_elem_of_filter. }
    rewrite !elem_of_cons, elem_of_nil in Hcp.
    split; [|done]. destruct Hcp as [->|[->|[]]]; auto. }
  destruct (Hhome n1 Hf1) as (H1 & Hp0 & Hp1).
  destruct (Hhome n2 Hf2) as (H2 & _ & _).
  destruct Hc as [->| ->]; destruct H1 as [H1|H1], H2 as [H2|H2];
    congruence.
Qed.

Lemma findHiddenPairs_sound (h : Hint) :
  findHiddenPairs g candidates notes = Some h → keepsSolution s h.
Proof.
  unfold findHiddenPairs. intros (u & name & Hu & H)%scanUnits_Some.
  by apply (hiddenPairsUnit_sound u name).
Qed.

Lemma findPointingPairs_sound (h : Hint) :
  findPointingPairs g candidates notes = Some h → keepsSolution s h.
Proof.
  unfold findPointingPairs.
  intros (br & Hbr%elem_of_seq & (bc & Hbc%elem_of_seq
          & (num & Hnum & H)%firstSome_Some)%firstSome_Some)%firstSome_Some.
  apply pointingAt_inv in H
    as (_ & first & line & Hfirst & Hcand & Hline & Hrem).
  assert (getBoxIndices br bc ∈ units) as Hbox by (apply box_in_units; lia).
  destruct (candidate_home _ first num Hbox Hfirst Hcand)
    as (c0 & Hc0 & Hsc0 & _ & Hcand0).
  pose proof (unit_lt _ c0 Hbox Hc0) as Hc081.
  intros c n (-> & Hc & Hout & _)%Hrem Hsc. apply Hout.
  destruct Hline as [(r & -> & Hrow)|(cl & -> & Hcol)].
  - destruct (own_row_unit c0 Hc081) as [Hin Hunit].
    rewrite (Hrow c0 Hc0 Hcand0) in Hin, Hunit.
    by rewrite (solution_unit_inj _ c c0 num Hunit).
  - destruct (own_col_unit c0 Hc081) as [Hin Hunit].
    rewrite (Hcol c0 Hc0 Hcand0) in Hin, Hunit.
    by rewrite (solution_unit_inj _ c c0 num Hunit).
Qed.

(** The cell of a line where [num] goes, among the two cells of the line
    that keep it as a candidate. *)
Lemma home_of_two (u : list nat) (num : Z) (x0 x1 : nat) :
  u ∈ units →
  filter (λ i, num ∈ candidates !!! i) u = [x0; x1] →
  x0 ∈ u ∧ x1 ∈ u ∧ (s !! x0 = Some num ∨ s !! x1 = Some num).
Proof.
  intros Hu Hf.
  assert (∀ p, p ∈ [x0; x1] → p ∈ u ∧ num ∈ candidates !!! p) as Hin.
  { intros p Hp. rewrite <- Hf in Hp.
    by apply list_elem_of_filter in Hp as [? ?]. }
  destruct (Hin x0) as [Hx0 Hc0]; [left|].
  destruct (Hin x1) as [Hx1 _]; [right; left|].
  split; [done|]. split; [done|].
  destruct (candidate_home u x0 num Hu Hx0 Hc0) as (c & Hc & Hsc & _ & Hcand).
  assert (c ∈ [x0; x1]) as Hcx
    by (rewrite <- Hf; by apply list_elem_of_filter).
  rewrite !elem_of_cons, elem_of_nil in Hcx.
  destruct Hcx as [->|[->|[]]]; auto.
Qed.

Lemma xWingRows_sound (num : Z) (h : Hint) :
  xWingRows candidates notes num = Some h → keepsSolution s h.
Proof.
  intros (row1 & row2 & x0 & x1 & y0 & y1 & Hlt & Hlt' & Hf1 & Hf2 & Hc0 & Hc1
          & Hrem)%xWingRows_inv.
  assert (getRowIndices row1 ∈ units) as Hu1 by (apply row_in_units; lia).
  assert (getRowIndices row2 ∈ units) as Hu2 by (apply row_in_units; lia).
  destruct (home_of_two _ num x0 x1 Hu1 Hf1) as (Hx0 & Hx1 & Hh1).
  destruct (home_of_two _ num y0 y1 Hu2 Hf2) as (Hy0 & Hy1 & Hh2).
  pose proof (unit_lt _ _ Hu1 Hx0). pose proof (unit_lt _ _ Hu1 Hx1).
  pose proof (unit_lt _ _ Hu2 Hy0). pose proof (unit_lt _ _ Hu2 Hy1).
  destruct (own_col_unit x0) as [Hx0c Hcu0]; [done|].
  destruct (own_col_unit x1) as [Hx1c Hcu1]; [done|].
  destruct (own_col_unit y0) as [Hy0c _]; [done|].
  destruct (own_col_unit y1) as [Hy1c _]; [done|].
  rewrite <- Hc0 in Hy0c. rewrite <- Hc1 in Hy1c.
  assert (x0 ≠ y0 ∧ x1 ≠ y1) as [Hxy0 Hxy1].
  { apply elem_of_getRowIndices in Hx0, Hx1, Hy0, Hy1.
    split; intros ->; lia. }
  intros c n (-> & Hc & Hout & _)%Hrem Hsc. apply Hout.
  rewrite !elem_of_cons.
  destruct Hh1 as [Hh1|Hh1], Hh2 as [Hh2|Hh2], Hc as [Hc|Hc];
    first
      [ by destruct Hxy0; apply (solution_unit_inj _ x0 y0 num Hcu0)
      | by destruct Hxy1; apply (solution_unit_inj _ x1 y1 num Hcu1)
      | left; by apply (solution_unit_inj _ c x0 num Hcu0)
      | right; left; by apply (solution_unit_inj _ c x1 num Hcu1)
      | right; right; left; by apply (solution_unit_inj _ c y0 num Hcu0)
      | right; right; right; left;
        by apply (solution_unit_inj _ c y1 num Hcu1) ].
Qed.

Lemma xWingCols_sound (num : Z) (h : Hint) :
  xWingCols candidates notes num = Some h → keepsSolution s h.
Proof.
  intros (col1 & col2 & x0 & x1 & y0 & y1 & Hlt & Hlt' & Hf1 & Hf2 & Hr0 & Hr1
          & Hrem)%xWingCols_inv.
  assert (getColIndices col1 ∈ units) as Hu1 by (apply col_in_units; lia).
  assert (getColIndices col2 ∈ units) as Hu2 by (apply col_in_units; lia).
  destruct (home_of_two _ num x0 x1 Hu1 Hf1) as (Hx0 & Hx1 & Hh1).
  destruct (home_of_two _ num y0 y1 Hu2 Hf2) as (Hy0 & Hy1 & Hh2).
  pose proof (unit_lt _ _ Hu1 Hx0). pose proof (unit_lt _ _ Hu1 Hx1).
  pose proof (unit_lt _ _ Hu2 Hy0). pose proof (unit_lt _ _ Hu2 Hy1).
  destruct (own_row_unit x0) as [Hx0r Hru0]; [done|].
  destruct (own_row_unit x1) as [Hx1r Hru1]; [done|].
  destruct (own_row_unit y0) as [Hy0r _]; [done|].
  destruct (own_row_unit y1) as [Hy1r _]; [done|].
  rewrite <- Hr0 in Hy0r. rewrite <- Hr1 in Hy1r.
  assert (x0 ≠ y0 ∧ x1 ≠ y1) as [Hxy0 Hxy1].
  { apply elem_of_getColIndices in Hx0, Hx1, Hy0, Hy1; lia. }
  intros c n (-> & Hc & Hout & _)%Hrem Hsc. apply Hout.
  rewrite !elem_of_cons.
  destruct Hh1 as [Hh1|Hh1], Hh2 as [Hh2|Hh2], Hc as [Hc|Hc];
    first
      [ by destruct Hxy0; apply (solution_unit_inj _ x0 y0 num Hru0)
      | by destruct Hxy1; apply (solution_unit_inj _ x1 y1 num Hru1)
      | left; by apply (solution_unit_inj _ c x0 num Hru0)
      | right; left; by apply (solution_unit_inj _ c x1 num Hru1)
      | right; right; left; by apply (solution_unit_inj _ c y0 num Hru0)
      | right; right; right; left;
        by apply (solution_unit_inj _ c y1 num Hru1) ].
Qed.

Lemma findXWing_sound (h : Hint) :
  findXWing g candidates notes = Some h → keepsSolution s h.
Proof.
  intros (num & _ & [H|H])%findXWing_inv;
    [by apply (xWingRows_sound num)|by apply (xWingCols_sound num)].
Qed.

Lemma findYWing_sound (h : Hint) :
  findYWing g candidates notes = Some h → keepsSolution s h.
Proof.
  intros (pivot & w1 & w2 & a & b & x & y & Hp & Hgp & Hcp & Hw1 & Hw1p & Hrel1
          & Hgw1 & Hlen1 & Hw2 & Hw2p & Hrel2 & Hgw2 & Hlen2 & Hxy & Hx & Hy
          & H)%findYWing_inv.
  apply yWingCheck_inv in H as (c & Hhead1 & Hhead2 & Hrem).
  destruct (solution_cell pivot Hp) as (vp & Hsp & _).
  destruct (solution_cell w1 Hw1) as (v1 & Hs1 & _).
  destruct (solution_cell w2 Hw2) as (v2 & Hs2 & _).
  pose proof (candidate_solution pivot vp Hgp Hsp) as Hvp.
  rewrite Hcp, !elem_of_cons, elem_of_nil in Hvp.
  pose proof (two_candidates _ x c v1 (NoDup_getAllCandidates g notes w1)
                Hlen1 Hx Hhead1 (candidate_solution w1 v1 Hgw1 Hs1)) as Hv1.
  pose proof (two_candidates _ y c v2 (NoDup_getAllCandidates g notes w2)
                Hlen2 Hy Hhead2 (candidate_solution w2 v2 Hgw2 Hs2)) as Hv2.
  pose proof (solution_differs pivot w1 vp Hp Hw1 (not_eq_sym Hw1p) Hrel1 Hsp)
    as Hd1.
  pose proof (solution_differs pivot w2 vp Hp Hw2 (not_eq_sym Hw2p) Hrel2 Hsp)
    as Hd2.
  intros c' n (-> & Hc' & _ & Hc'1 & Hc'2 & _ & _ & Hr1 & Hr2 & _)%Hrem Hsc.
  assert (s !! w1 = Some c ∨ s !! w2 = Some c) as [Hw|Hw].
  { destruct Hv1 as [->| ->]; [|by left]. destruct Hv2 as [->| ->]; [|by right].
    exfalso. destruct Hxy as [[-> ->]|[-> ->]], Hvp as [->|[->|[]]]; congruence. }
  - apply (solution_differs c' w1 c); done.
  - apply (solution_differs c' w2 c); done.
Qed.

(** Three lines with the place of [num] on each: the places lie on three
    different crossing lines. *)
Lemma findSwordfish_sound (h : Hint) :
  findSwordfish g candidates notes = Some h → keepsSolution s h.
Proof.
  intros (num & _ & [H|H])%findSwordfish_inv.
  - apply swordfishRows_inv in H
      as (r1 & r2 & r3 & cols & ? & ? & ? & H12 & H13 & H23 & Hnd & Hlen
          & Hrows & Hrem).
    assert (∀ r, r ∈ [r1; r2; r3] →
              ∃ d, d `div` 9 = r ∧ d < 81 ∧ s !! d = Some num ∧
                   col (getCellInfo d) ∈ cols) as Hhome.
    { intros r Hr. destruct (Hrows r Hr) as [(i & Hi & Hcand) Hcols].
      assert (getRowIndices r ∈ units) as Hu.
      { apply row_in_units. rewrite !elem_of_cons, elem_of_nil in Hr. lia. }
      destruct (candidate_home _ i num Hu Hi Hcand) as (d & Hd & Hsd & _ & Hc).
      exists d. split; [by apply elem_of_getRowIndices|].
      split; [by apply (unit_lt _ d Hu)|]. split; [done|]. by apply Hcols. }
    destruct (Hhome r1) as (d1 & Hr1 & Hd1 & Hs1 & Hc1); [in_list|].
    destruct (Hhome r2) as (d2 & Hr2 & Hd2 & Hs2 & Hc2); [in_list|].
    destruct (Hhome r3) as (d3 & Hr3 & Hd3 & Hs3 & Hc3); [in_list|].
    destruct (own_col_unit d1 Hd1) as [Hin1 Hu1].
    destruct (own_col_unit d2 Hd2) as [Hin2 Hu2].
    destruct (own_col_unit d3 Hd3) as [Hin3 Hu3].
    intros c n (-> & _ & _ & cl & Hcl & Hc & Hout)%Hrem Hsc.
    destruct (three_of_three cols _ _ _ cl Hnd Hlen Hc1 Hc2 Hc3)
      as [->|[->| ->]]; try done.
    + intros Heq. rewrite <- Heq in Hin2.
      pose proof (solution_unit_inj _ d1 d2 num Hu1 Hin1 Hin2 Hs1 Hs2). lia.
    + intros Heq. rewrite <- Heq in Hin3.
      pose proof (solution_unit_inj _ d1 d3 num Hu1 Hin1 Hin3 Hs1 Hs3). lia.
    + intros Heq. rewrite <- Heq in Hin3.
      pose proof (solution_unit_inj _ d2 d3 num Hu2 Hin2 Hin3 Hs2 Hs3). lia.
    + pose proof (solution_unit_inj _ c d1 num Hu1 Hc Hin1 Hsc Hs1) as ->.
      apply (Hout r1 (col (getCellInfo d1))); [in_list|done|].
      cbn [getCellInfo col]. div_lia.
    + pose proof (solution_unit_inj _ c d2 num Hu2 Hc Hin2 Hsc Hs2) as ->.
      apply (Hout r2 (col (getCellInfo d2))); [in_list|done|].
      cbn [getCellInfo col]. div_lia.
    + pose proof (solution_unit_inj _ c d3 num Hu3 Hc Hin3 Hsc Hs3) as ->.
      apply (Hout r3 (col (getCellInfo d3))); [in_list|done|].
      cbn [getCellInfo col]. div_lia.
  - apply swordfishCols_inv in H
      as (c1 & c2 & c3 & rows & ? & ? & ? & H12 & H13 & H23 & Hnd & Hlen
          & Hcols & Hrem).
    assert (∀ cl, cl ∈ [c1; c2; c3] →
              ∃ d, d `mod` 9 = cl ∧ d < 81 ∧ s !! d = Some num ∧
                   row (getCellInfo d) ∈ rows) as Hhome.
    { intros cl Hcl. destruct (Hcols cl Hcl) as [(i & Hi & Hcand) Hrows].
      assert (cl < 9) as Hcl9
        by (rewrite !elem_of_cons, elem_of_nil in Hcl; lia).
      assert (getColIndices cl ∈ units) as Hu by (by apply col_in_units).
      destruct (candidate_home _ i num Hu Hi Hcand) as (d & Hd & Hsd & _ & Hc).
      exists d. split; [by apply elem_of_getColIndices in Hd as [_ ?]|].
      split; [by apply (unit_lt _ d Hu)|]. split; [done|]. by apply Hrows. }
    destruct (Hhome c1) as (d1 & Hc1 & Hd1 & Hs1 & Hr1); [in_list|].
    destruct (Hhome c2) as (d2 & Hc2 & Hd2 & Hs2 & Hr2); [in_list|].
    destruct (Hhome c3) as (d3 & Hc3 & Hd3 & Hs3 & Hr3); [in_list|].
    destruct (own_row_unit d1 Hd1) as [Hin1 Hu1].
    destruct (own_row_unit d2 Hd2) as [Hin2 Hu2].
    destruct (own_row_unit d3 Hd3) as [Hin3 Hu3].
    intros c n (-> & _ & _ & r & Hr & Hc & Hout)%Hrem Hsc.
    destruct (three_of_three rows _ _ _ r Hnd Hlen Hr1 Hr2 Hr3)
      as [->|[->| ->]]; try done.
    + intros Heq. rewrite <- Heq in Hin2.
      pose proof (solution_unit_inj _ d1 d2 num Hu1 Hin1 Hin2 Hs1 Hs2). lia.
    + intros Heq. rewrite <- Heq in Hin3.
      pose proof (solution_unit_inj _ d1 d3 num Hu1 Hin1 Hin3 Hs1 Hs3). lia.
    + intros Heq. rewrite <- Heq in Hin3.
      pose proof (solution_unit_inj _ d2 d3 num Hu2 Hin2 Hin3 Hs2 Hs3). lia.
    + pose proof (solution_unit_inj _ c d1 num Hu1 Hc Hin1 Hsc Hs1) as ->.
      apply (Hout (row (getCellInfo d1)) c1); [done|in_list|].
      cbn [getCellInfo row]. div_lia.
    + pose proof (solution_unit_inj _ c d2 num Hu2 Hc Hin2 Hsc Hs2) as ->.
      apply (Hout (row (getCellInfo d2)) c2); [done|in_list|].
      cbn [getCellInfo row]. div_lia.
    + pose proof (solution_unit_inj _ c d3 num Hu3 Hc Hin3 Hsc Hs3) as ->.
      apply (Hout (row (getCellInfo d3)) c3); [done|in_list|].
      cbn [getCellInfo row]. div_lia.
Qed.

End game.

(** *** What the solver tells the player *)

(** A boolean check of [notesKeepSolution] for closed game states. *)
Definition notesKeepSolutionb (g s : list Z) (notes : list (list Z)) : bool :=
  forallb (λ i,
    implb (bool_decide (g !! i = Some 0%Z))
          match s !! i with
          | Some v => bool_decide (notes !!! i = [] ∨ v ∈ notes !!! i)
          | None => true
          end) (seq 0 (length g)).

Lemma notesKeepSolutionb_sound (g s : list Z) (notes : list (list Z)) :
  notesKeepSolutionb g s notes = true → notesKeepSolution g s notes.
Proof.
  unfold notesKeepSolutionb. rewrite forallb_forall. intros H i v Hg Hs.
  specialize (H i). rewrite Hs, bool_decide_eq_true_2 in H by done.
  cbn [implb] in H. apply (proj1 (bool_decide_eq_true _)), H, in_seq.
  apply lookup_lt_Some in Hg. lia.
Qed.

(** X18: whatever the state of the game, every note a hint of [getHint]
    tells the player to remove is a note the player made, in an empty
    cell of the grid. *)
Theorem getHint_removes_real_notes (g solution : list Z)
    (notes : list (list Z)) (h : Hint) :
  getHint g solution notes = Some h →
  ∀ l c n, notesToRemove h = Some l → (c, n) ∈ l →
           c < 81 ∧ g !! c = Some 0%Z ∧ n ∈ notes !!! c.
Proof.
  intros Hh.
  assert (removesRealNotes g notes h) as Hreal;
    [|intros l c n Hl Hin; apply Hreal; by exists l].
  apply getHint_cases in Hh. cbv zeta in Hh.
  destruct Hh as [H|[H|[H|[H|[H|[H|[H|[H|[H|[H|[H|H]]]]]]]]]]].
  - by apply findInvalidNotes_real.
  - apply findLastFreeCell_hint in H as [_ H].
    intros c n Hr. by apply (no_removal h c n) in Hr.
  - apply findNakedSingle_hint in H as [_ H].
    intros c n Hr. by apply (no_removal h c n) in Hr.
  - apply findHiddenSingle_hint in H as [_ H].
    intros c n Hr. by apply (no_removal h c n) in Hr.
  - by apply findPointingPairs_real.
  - by apply findNakedPairs_real.
  - by apply findHiddenPairs_real.
  - by apply findNakedTriples_real.
  - by apply findHiddenTriples_real.
  - by apply findXWing_real.
  - by apply findYWing_real.
  - by apply findSwordfish_real.
Qed.

Lemma getHint_removes_real_notes_witness :
  ∃ h l, getHint (<[40:=0%Z]> referenceGrid) referenceGrid
           (replicate 40 [] ++ [[9; 1]%Z]) = Some h ∧
         notesToRemove h = Some l ∧
         ∀ c n, (c, n) ∈ l →
                c < 81 ∧ <[40:=0%Z]> referenceGrid !! c = Some 0%Z ∧
                n ∈ (replicate 40 [] ++ [[9; 1]%Z]) !!! c.
Proof.
  eexists _, _. split; [vm_compute; reflexivity|]. split; [reflexivity|].
  intros c n Hin.
  eapply (getHint_removes_real_notes (<[40:=0%Z]> referenceGrid) referenceGrid
            (replicate 40 [] ++ [[9; 1]%Z]));
    [vm_compute; reflexivity|reflexivity|exact Hin].
Defined.

(** X19: in a game without a standing mistake, whose notes still hold
    the solution's digit wherever the player made notes, a hint that
    removes no notes (Last Free Cell, Naked Single, Hidden Single) names
    an empty cell and gives the solution's digit for it. *)
Theorem getHint_digit_is_solution (g s : list Z) (notes : list (list Z))
    (h : Hint) :
  validSolution s → partialCopy g s → notesKeepSolution g s notes →
  getHint g s notes = Some h → notesToRemove h = None →
  g !! cellIndex h = Some 0%Z ∧ s !! cellIndex h = Some (value h).
Proof.
  intros Hs Hg Hnotes Hh Hnone. change (givesSolution g s h).
  apply getHint_cases in Hh. cbv zeta in Hh.
  destruct Hh as [H|[H|[H|[H|[H|[H|[H|[H|[H|[H|[H|H]]]]]]]]]]].
  - apply findInvalidNotes_hint in H as [_ (l & Hl & _)]. congruence.
  - by apply (findLastFreeCell_sound g s notes).
  - by apply (findNakedSingle_sound g s notes).
  - by apply (findHiddenSingle_sound g s notes).
  - apply findPointingPairs_hint in H as [_ (l & Hl & _)]. congruence.
  - apply findNakedPairs_hint in H as [_ (l & Hl & _)]. congruence.
  - apply findHiddenPairs_hint in H as [_ (l & Hl & _)]. congruence.
  - apply findNakedTriples_hint in H as [_ (l & Hl & _)]. congruence.
  - apply findHiddenTriples_hint in H as [_ (l & Hl & _)]. congruence.
  - apply findXWing_hint in H as [_ (l & Hl & _)]. congruence.
  - apply findYWing_hint in H as [_ (l & Hl & _)]. congruence.
  - apply findSwordfish_hint in H as [_ (l & Hl & _)]. congruence.
Qed.

Lemma getHint_digit_is_solution_witness :
  ∃ h, getHint (<[40:=0%Z]> referenceGrid) referenceGrid [] = Some h ∧
       <[40:=0%Z]> referenceGrid !! cellIndex h = Some 0%Z ∧
       referenceGrid !! cellIndex h = Some (value h).
Proof.
  eexists. split; [vm_compute; reflexivity|].
  apply (getHint_digit_is_solution (<[40:=0%Z]> referenceGrid) referenceGrid []).
  - apply partialFill_validSolution, referenceGrid_full.
  - apply (bool_decide_unpack _). by vm_compute.
  - apply notesKeepSolutionb_sound. by vm_compute.
  - vm_compute. reflexivity.
  - reflexivity.
Defined.

(** X20: in such a game, no hint of [getHint] other than a Hidden
    Triples hint tells the player to remove a note that is the
    solution's digit of its cell. *)
Theorem getHint_keeps_solution_notes (g s : list Z) (notes : list (list Z))
    (h : Hint) :
  validSolution s → partialCopy g s → notesKeepSolution g s notes →
  getHint g s notes = Some h → technique h ≠ "Hidden Triples" →
  ∀ l c n, notesToRemove h = Some l → (c, n) ∈ l → s !! c ≠ Some n.
Proof.
  intros Hs Hg Hnotes Hh Htech.
  assert (keepsSolution s h) as Hkeeps;
    [|intros l c n Hl Hin; apply Hkeeps; by exists l].
  apply getHint_cases in Hh. cbv zeta in Hh.
  destruct Hh as [H|[H|[H|[H|[H|[H|[H|[H|[H|[H|[H|H]]]]]]]]]]].
  - by apply (findInvalidNotes_sound g s notes).
  - apply findLastFreeCell_hint in H as [_ H].
    intros c n Hr. by apply (no_removal h c n) in Hr.
  - apply findNakedSingle_hint in H as [_ H].
    intros c n Hr. by apply (no_removal h c n) in Hr.
  - apply findHiddenSingle_hint in H as [_ H].
    intros c n Hr. by apply (no_removal h c n) in Hr.
  - by apply (findPointingPairs_sound g s notes).
  - by apply (findNakedPairs_sound g s notes).
  - by apply (findHiddenPairs_sound g s notes).
  - by apply (findNakedTriples_sound g s notes).
  - apply findHiddenTriples_hint in H as [H _]. unfold named in H.
    by apply list_elem_of_singleton in H.
  - by apply (findXWing_sound g s notes).
  - by apply (findYWing_sound g s notes).
  - by apply (findSwordfish_sound g s notes).
Qed.

Lemma getHint_keeps_solution_notes_witness :
  ∃ h l, getHint (<[40:=0%Z]> referenceGrid) referenceGrid
           (replicate 40 [] ++ [[9; 1]%Z]) = Some h ∧
         notesToRemove h = Some l ∧
         ∀ c n, (c, n) ∈ l → referenceGrid !! c ≠ Some n.
Proof.
  eexists _, _. split; [vm_compute; reflexivity|]. split; [reflexivity|].
  intros c n Hin.
  eapply (getHint_keeps_solution_notes (<[40:=0%Z]> referenceGrid)
            referenceGrid (replicate 40 [] ++ [[9; 1]%Z])).
  - apply partialFill_validSolution, referenceGrid_full.
  - apply (bool_decide_unpack _). by vm_compute.
  - apply notesKeepSolutionb_sound. by vm_compute.
  - vm_compute. reflexivity.
  - by vm_compute.
  - reflexivity.
  - exact Hin.
Defined.

(** X21: Hidden Triples hints are not safe. There is a game without a
    standing mistake, with notes that hold the solution's digit in every
    noted cell, in which [getHint] returns a Hidden Triples hint that
    tells the player to remove from a cell the note of its solution's
    digit: the detector does not ask that each of its three numbers still
    has a place among the three cells. *)
Theorem hidden_triples_can_remove_solution :
  ∃ g s notes h l c n,
    validSolution s ∧ partialCopy g s ∧ notesKeepSolution g s notes ∧
    getHint g s notes = Some h ∧ technique h = "Hidden Triples" ∧
    explanation h
    = "{1, 2, 7} can only go in these three cells in row 1. Remove other candidates." ∧
    notesToRemove h = Some l ∧ (c, n) ∈ l ∧ s !! c = Some n.
Proof.
  exists ([1; 2; 3; 4; 5; 6; 0; 0; 0]%Z ++ replicate 72 0%Z), referenceGrid,
    (replicate 6 [] ++ [[7; 8; 9]; [7; 8; 9]; [7; 8; 9]]%Z).
  eexists _, _, 7, 8%Z.
  split; [apply partialFill_validSolution, referenceGrid_full|].
  split; [apply (bool_decide_unpack _); by vm_compute|].
  split; [apply notesKeepSolutionb_sound; by vm_compute|].
  split; [vm_compute; reflexivity|].
  split; [reflexivity|]. split; [reflexivity|]. split; [reflexivity|].
  split; [|reflexivity]. in_list.
Qed.

Lemma replicate_nil_lookup {A : Type} (n i : nat) :
  replicate n (@nil A) !!! i = [].
Proof.
  rewrite list_lookup_total_alt.
  destruct (replicate n [] !! i) as [x|] eqn:Hx; [|done].
  by apply lookup_replicate in Hx as [-> _].
Qed.

Lemma removesNotes_real_note (g : list Z) (notes : list (list Z)) (h : Hint) :
  removesNotes h → removesRealNotes g notes h → ∃ c n, n ∈ notes !!! c.
Proof.
  intros (l & Hl & Hne) Hreal. destruct l as [|[c n] l]; [done|].
  exists c, n. apply (Hreal c n). exists ((c, n) :: l). split; [done|left].
Qed.

(** X26: while the player has made no notes, as at the start of a game,
    [getHint] returns, for any grid and solution, only hints of the three
    techniques that give a digit, Last Free Cell, Naked Single and Hidden
    Single, with nothing to remove: no elimination hint and no Invalid
    Notes hint is returned. In a game without a standing mistake the
    digit is moreover the solution's, for an empty cell. *)
Theorem hints_without_notes (g s : list Z) (notes : list (list Z)) (h : Hint) :
  (∀ i, notes !!! i = []) →
  getHint g s notes = Some h →
  notesToRemove h = None ∧
  named ["Last Free Cell"; "Naked Single"; "Hidden Single"] h ∧
  (validSolution s → partialCopy g s →
   g !! cellIndex h = Some 0%Z ∧ s !! cellIndex h = Some (value h)).
Proof.
  intros Hnotes Hh.
  assert (notesKeepSolution g s notes) as Hkeep by (intros i v _ _; by left).
  assert (∀ h', removesNotes h' → removesRealNotes g notes h' → False)
    as Hnone.
  { intros h' Hrem Hreal.
    destruct (removesNotes_real_note g notes h' Hrem Hreal) as (c & n & Hn).
    rewrite Hnotes in Hn. by apply elem_of_nil in Hn. }
  apply getHint_cases in Hh. cbv zeta in Hh.
  destruct Hh as [H|[H|[H|[H|[H|[H|[H|[H|[H|[H|[H|H]]]]]]]]]]].
  - exfalso. apply (Hnone h); [by apply findInvalidNotes_hint in H as [_ ?]|].
    by apply findInvalidNotes_real.
  - destruct (findLastFreeCell_hint _ _ _ H) as [Hn Hr].
    split; [done|]. split.
    { revert Hn. unfold named. rewrite !elem_of_cons. tauto. }
    intros Hs Hg. by apply (findLastFreeCell_sound g s notes).
  - destruct (findNakedSingle_hint _ _ _ H) as [Hn Hr].
    split; [done|]. split.
    { revert Hn. unfold named. rewrite !elem_of_cons. tauto. }
    intros Hs Hg. by apply (findNakedSingle_sound g s notes).
  - destruct (findHiddenSingle_hint _ _ _ H) as [Hn Hr].
    split; [done|]. split.
    { revert Hn. unfold named. rewrite !elem_of_cons. tauto. }
    intros Hs Hg. by apply (findHiddenSingle_sound g s notes).
  - exfalso. apply (Hnone h); [by apply findPointingPairs_hint in H as [_ ?]|].
    by apply findPointingPairs_real.
  - exfalso. apply (Hnone h); [by apply findNakedPairs_hint in H as [_ ?]|].
    by apply findNakedPairs_real.
  - exfalso. apply (Hnone h); [by apply findHiddenPairs_hint in H as [_ ?]|].
    by apply findHiddenPairs_real.
  - exfalso. apply (Hnone h); [by apply findNakedTriples_hint in H as [_ ?]|].
    by apply findNakedTriples_real.
  - exfalso. apply (Hnone h); [by apply findHiddenTriples_hint in H as [_ ?]|].
    by apply findHiddenTriples_real.
  - exfalso. apply (Hnone h); [by apply findXWing_hint in H as [_ ?]|].
    by apply findXWing_real.
  - exfalso. apply (Hnone h); [by apply findYWing_hint in H as [_ ?]|].
    by apply findYWing_real.
  - exfalso. apply (Hnone h); [by apply findSwordfish_hint in H as [_ ?]|].
    by apply findSwordfish_real.
Qed.

Lemma hints_without_notes_witness :
  ∃ h, getHint (<[40:=0%Z]> (<[41:=0%Z]> referenceGrid)) referenceGrid
         (replicate 81 []) = Some h ∧
       notesToRemove h = None ∧
       named ["Last Free Cell"; "Naked Single"; "Hidden Single"] h ∧
       <[40:=0%Z]> (<[41:=0%Z]> referenceGrid) !! cellIndex h = Some 0%Z ∧
       referenceGrid !! cellIndex h = Some (value h).
Proof.
  eexists. split; [vm_compute; reflexivity|].
  match goal with
  | |- notesToRemove ?h = None ∧ _ =>
      destruct (hints_without_notes (<[40:=0%Z]> (<[41:=0%Z]> referenceGrid))
                  referenceGrid (replicate 81 []) h)
        as (Hr & Hn & Hsol)
  end.
  { intros i. apply replicate_nil_lookup. }
  { vm_compute. reflexivity. }
  split; [exact Hr|]. split; [exact Hn|]. apply Hsol.
  - apply partialFill_validSolution, referenceGrid_full.
  - apply (bool_decide_unpack _). by vm_compute.
Defined.

(** Without notes a grid the solution does not extend still gets a
    digit-giving hint, whose digit need not be the solution's. *)
Example hints_without_notes_any_grid :
  ∃ h, getHint (<[0:=0%Z]> (<[1:=5%Z]> referenceGrid)) referenceGrid [] = Some h ∧
       notesToRemove h = None ∧ technique h = "Last Free Cell".
Proof. eexists. split; [vm_compute; reflexivity|]. by split. Qed.

(** X27: [getHint] returns an Invalid Notes hint exactly when some empty
    cell of the grid holds a note that is not a possible value of the
    cell; the hint then removes, from the cell it points at, all the
    notes of the cell that are not possible values, and nothing else. *)
Theorem invalid_notes_reported_first (g s : list Z) (notes : list (list Z)) :
  ((∃ i n, i < 81 ∧ g !! i = Some 0%Z ∧ n ∈ notes !!! i ∧
           n ∉ getPossibleValues g i)
   ↔ ∃ h, getHint g s notes = Some h ∧ technique h = "Invalid Notes") ∧
  ∀ h, getHint g s notes = Some h → technique h = "Invalid Notes" →
       notesToRemove h
       = Some ((λ n, (cellIndex h, n)) <$>
               filter (λ n, n ∉ getPossibleValues g (cellIndex h))
                      (notes !!! cellIndex h)).
Proof.
  assert (∀ h, getHint g s notes = Some h → technique h = "Invalid Notes" →
               findInvalidNotes g notes (getAllCandidates g notes) = Some h)
    as Hfrom.
  { intros h Hh Htech. apply getHint_cases in Hh. cbv zeta in Hh.
    destruct Hh as [H|[H|[H|[H|[H|[H|[H|[H|[H|[H|[H|H]]]]]]]]]]]; [done|..];
      exfalso;
      [ apply findLastFreeCell_hint in H as [H _]
      | apply findNakedSingle_hint in H as [H _]
      | apply findHiddenSingle_hint in H as [H _]
      | apply findPointingPairs_hint in H as [H _]
      | apply findNakedPairs_hint in H as [H _]
      | apply findHiddenPairs_hint in H as [H _]
      | apply findNakedTriples_hint in H as [H _]
      | apply findHiddenTriples_hint in H as [H _]
      | apply findXWing_hint in H as [H _]
      | apply findYWing_hint in H as [H _]
      | apply findSwordfish_hint in H as [H _] ];
      unfold named in H; rewrite Htech, !elem_of_cons, elem_of_nil in H;
      intuition discriminate. }
  split; [split|].
  - intros (i & n & Hi & Hg & Hn & Hposs).
    assert (is_Some (findInvalidNotes g notes (getAllCandidates g notes)))
      as [h Hh].
    { apply (firstSome_is_Some _ _ i); [apply elem_of_seq; lia|].
      unfold invalidNotesAt. rewrite decide_False by (by intros ?). cbv zeta.
      assert (n ∈ filter (λ note, note ∉ getPossibleValues g i) (notes !!! i))
        as Hin by (by apply list_elem_of_filter).
      rewrite decide_False by (destruct (notes !!! i); [by apply elem_of_nil in Hn|done]).
      rewrite decide_True; [done|].
      destruct (filter _ (notes !!! i)); [by apply elem_of_nil in Hin|simpl; lia]. }
    exists h. split.
    + unfold getHint. cbv zeta. by rewrite Hh.
    + apply findInvalidNotes_hint in Hh as [Hh _]. unfold named in Hh.
      by apply list_elem_of_singleton in Hh.
  - intros (h & Hh & Htech). apply Hfrom in Hh; [|done].
    apply firstSome_Some in Hh as (i & Hi%elem_of_seq & Hh). revert Hh.
    unfold invalidNotesAt. case_decide as Hg; [done|]. cbv zeta.
    case_decide; [done|]. case_decide as Hlen; [|done]. intros _.
    destruct (filter (λ note, note ∉ getPossibleValues g i) (notes !!! i))
      as [|n rest] eqn:Hf; [simpl in Hlen; lia|].
    assert (n ∈ filter (λ note, note ∉ getPossibleValues g i) (notes !!! i))
      as [? ?]%list_elem_of_filter by (rewrite Hf; left).
    exists i, n. split; [lia|done].
  - intros h Hh Htech. apply Hfrom in Hh; [|done].
    apply firstSome_Some in Hh as (i & _ & Hh). revert Hh.
    unfold invalidNotesAt. case_decide; [done|]. cbv zeta.
    case_decide; [done|]. case_decide; [|done]. intros Hh. by hint_found Hh.
Qed.

End HintsSound.

(** ** What the elimination detectors scan *)

Module HintsScan.
Import JS Hints SudokuFacts SudokuMore HintsFacts HintsMore HintsSound.

(** *** Vocabulary of the proofs *)

(** The eight detectors that remove notes. *)
Inductive Detector :=
  | PointingPairs | NakedPairs | HiddenPairs | NakedTriples | HiddenTriples
  | XWing | YWing | Swordfish.

Definition detect (d : Detector)
  : list Z → list (list Z) → list (list Z) → option Hint :=
  match d with
  | PointingPairs => findPointingPairs
  | NakedPairs => findNakedPairs
  | HiddenPairs => findHiddenPairs
  | NakedTriples => findNakedTriples
  | HiddenTriples => findHiddenTriples
  | XWing => findXWing
  | YWing => findYWing
  | Swordfish => findSwordfish
  end.

(** The cells of a Swordfish on [num], and the cells of its columns (or
    rows, [lineIndices]) outside of it that can hold [num]. *)
Definition fishCells (candidates : list (list Z)) (num : Z)
    (rows cols : list nat) : list nat :=
  row ← rows;
  filter (λ idx, num ∈ candidates !!! idx) ((λ col, row * 9 + col) <$> cols).

Definition fishAffected (candidates : list (list Z)) (num : Z)
    (swordfishCells : list nat) (lineIndices : nat → list nat)
    (lines : list nat) : list nat :=
  line ← lines;
  filter (λ i, (i ∉ swordfishCells) ∧ num ∈ candidates !!! i)
         (lineIndices line).

(** [scanned grid candidates notes d l]: among the patterns the detector
    [d] goes through there is one that is structurally valid, a test on
    the grid and the candidates alone, and [l] is the list of the notes
    its elimination removes. Each constructor is one shape of pattern,
    with the tests of the source and its [notesToRemove]. *)
Inductive scanned (grid : list Z) (candidates notes : list (list Z))
  : Detector → list (nat * Z) → Prop :=
  | pointing_row (boxRow boxCol : nat) (num : Z) (r : nat) :
      boxRow < 3 → boxCol < 3 → num ∈ digits →
      ¬ Exists (λ i, grid !! i = Some num) (getBoxIndices boxRow boxCol) →
      2 ≤ length (filter (λ i, num ∈ candidates !!! i)
                         (getBoxIndices boxRow boxCol)) ≤ 3 →
      set_of_list ((λ i, row (getCellInfo i)) <$>
                     filter (λ i, num ∈ candidates !!! i)
                            (getBoxIndices boxRow boxCol)) = [r] →
      scanned grid candidates notes PointingPairs
        ((λ cell, (cell, num)) <$>
           notedCells notes num
             (filter (λ i, (i ∉ getBoxIndices boxRow boxCol) ∧
                           num ∈ candidates !!! i) (getRowIndices r)))
  | pointing_col (boxRow boxCol : nat) (num : Z) (c : nat) :
      boxRow < 3 → boxCol < 3 → num ∈ digits →
      ¬ Exists (λ i, grid !! i = Some num) (getBoxIndices boxRow boxCol) →
      2 ≤ length (filter (λ i, num ∈ candidates !!! i)
                         (getBoxIndices boxRow boxCol)) ≤ 3 →
      set_of_list ((λ i, col (getCellInfo i)) <$>
                     filter (λ i, num ∈ candidates !!! i)
                            (getBoxIndices boxRow boxCol)) = [c] →
      scanned grid candidates notes PointingPairs
        ((λ cell, (cell, num)) <$>
           notedCells notes num
             (filter (λ i, (i ∉ getBoxIndices boxRow boxCol) ∧
                           num ∈ candidates !!! i) (getColIndices c)))
  | naked_pair (u : list nat) (cellA cellB : nat) (a0 a1 : Z) :
      u ∈ allUnits →
      (cellA, cellB)
      ∈ pairs (filter (λ i, grid !! i = Some 0%Z ∧
                            length (candidates !!! i) = 2) u) →
      candidates !!! cellA = [a0; a1] → candidates !!! cellB = [a0; a1] →
      scanned grid candidates notes NakedPairs
        (notedIn notes [a0; a1]
           (filter (λ i, i ≠ cellA ∧ i ≠ cellB ∧ grid !! i = Some 0%Z ∧
                         (a0 ∈ candidates !!! i ∨ a1 ∈ candidates !!! i)) u))
  | hidden_pair (u : list nat) (n1 n2 : Z) (p0 p1 : nat) :
      u ∈ allUnits → (n1, n2) ∈ pairs digits →
      filter (λ i, n1 ∈ candidates !!! i)
             (filter (λ i, grid !! i = Some 0%Z) u) = [p0; p1] →
      filter (λ i, n2 ∈ candidates !!! i)
             (filter (λ i, grid !! i = Some 0%Z) u) = [p0; p1] →
      scanned grid candidates notes HiddenPairs
        (otherNotes grid notes [n1; n2] [p0; p1])
  | naked_triple (u : list nat) (a b c : nat) :
      u ∈ allUnits →
      (a, b, c)
      ∈ triples (filter (λ i, grid !! i = Some 0%Z ∧
                              2 ≤ length (candidates !!! i) ∧
                              length (candidates !!! i) ≤ 3) u) →
      length (set_of_list (cell ← [a; b; c]; candidates !!! cell)) = 3 →
      scanned grid candidates notes NakedTriples
        (notedIn notes (set_of_list (cell ← [a; b; c]; candidates !!! cell))
           (filter (λ i, (i ∉ [a; b; c]) ∧ grid !! i = Some 0%Z ∧
                         Exists (λ n, n ∈ candidates !!! i)
                           (set_of_list
                              (cell ← [a; b; c]; candidates !!! cell))) u))
  | hidden_triple (u : list nat) (n1 n2 n3 : Z) (c0 c1 c2 : nat) :
      u ∈ allUnits → (n1, n2, n3) ∈ triples digits →
      filter (λ i, n1 ∈ candidates !!! i ∨ n2 ∈ candidates !!! i
                   ∨ n3 ∈ candidates !!! i)
             (filter (λ i, grid !! i = Some 0%Z) u) = [c0; c1; c2] →
      scanned grid candidates notes HiddenTriples
        (otherNotes grid notes [n1; n2; n3] [c0; c1; c2])
  | x_wing_rows (num : Z) (row1 row2 x0 x1 y0 y1 : nat) :
      num ∈ digits → row1 < row2 → row2 < 9 →
      filter (λ i, num ∈ candidates !!! i) (getRowIndices row1) = [x0; x1] →
      filter (λ i, num ∈ candidates !!! i) (getRowIndices row2) = [y0; y1] →
      col (getCellInfo x0) = col (getCellInfo y0) →
      col (getCellInfo x1) = col (getCellInfo y1) →
      scanned grid candidates notes XWing
        ((λ cell, (cell, num)) <$>
           notedCells notes num
             (c ← [col (getCellInfo x0); col (getCellInfo x1)];
              filter (λ i, (i ∉ [x0; x1; y0; y1]) ∧ num ∈ candidates !!! i)
                     (getColIndices c)))
  | x_wing_cols (num : Z) (col1 col2 x0 x1 y0 y1 : nat) :
      num ∈ digits → col1 < col2 → col2 < 9 →
      filter (λ i, num ∈ candidates !!! i) (getColIndices col1) = [x0; x1] →
      filter (λ i, num ∈ candidates !!! i) (getColIndices col2) = [y0; y1] →
      row (getCellInfo x0) = row (getCellInfo y0) →
      row (getCellInfo x1) = row (getCellInfo y1) →
      scanned grid candidates notes XWing
        ((λ cell, (cell, num)) <$>
           notedCells notes num
             (r ← [row (getCellInfo x0); row (getCellInfo x1)];
              filter (λ i, (i ∉ [x0; x1; y0; y1]) ∧ num ∈ candidates !!! i)
                     (getRowIndices r)))
  | y_wing (pivot wing1 wing2 : nat) (a b x y c : Z) :
      pivot ∈ filter (λ i, grid !! i = Some 0%Z ∧
                           length (candidates !!! i) = 2) (seq 0 81) →
      candidates !!! pivot = [a; b] →
      (wing1, wing2)
      ∈ pairs (filter (λ cell, cell ≠ pivot ∧ cellsSeeEachOther pivot cell ∧
                               bool_decide (a ∈ candidates !!! cell)
                               ≠ bool_decide (b ∈ candidates !!! cell))
                 (filter (λ i, grid !! i = Some 0%Z ∧
                               length (candidates !!! i) = 2) (seq 0 81))) →
      (x = a ∧ y = b) ∨ (x = b ∧ y = a) →
      x ∈ candidates !!! wing1 → y ∈ candidates !!! wing2 →
      head (filter (λ n, n ≠ x) (candidates !!! wing1)) = Some c →
      head (filter (λ n, n ≠ y) (candidates !!! wing2)) = Some c →
      scanned grid candidates notes YWing
        ((λ cell, (cell, c)) <$>
           notedCells notes c
             (filter (λ i, i ≠ pivot ∧ i ≠ wing1 ∧ i ≠ wing2 ∧
                           grid !! i = Some 0%Z ∧ c ∈ candidates !!! i ∧
                           cellsSeeEachOther i wing1 ∧
                           cellsSeeEachOther i wing2) (seq 0 81)))
  | swordfish_rows (num : Z) (r1 r2 r3 : nat) (p1 p2 p3 : list nat) :
      num ∈ digits →
      ((r1, p1), (r2, p2), (r3, p3))
      ∈ triples (linesWithNum candidates num getRowIndices
                   (λ i, col (getCellInfo i))) →
      length (set_of_list (p1 ++ p2 ++ p3)) = 3 →
      scanned grid candidates notes Swordfish
        ((λ cell, (cell, num)) <$>
           notedCells notes num
             (fishAffected candidates num
                (fishCells candidates num [r1; r2; r3]
                   (set_of_list (p1 ++ p2 ++ p3)))
                getColIndices (set_of_list (p1 ++ p2 ++ p3))))
  | swordfish_cols (num : Z) (c1 c2 c3 : nat) (p1 p2 p3 : list nat) :
      num ∈ digits →
      ((c1, p1), (c2, p2), (c3, p3))
      ∈ triples (linesWithNum candidates num getColIndices
                   (λ i, row (getCellInfo i))) →
      length (set_of_list (p1 ++ p2 ++ p3)) = 3 →
      scanned grid candidates notes Swordfish
        ((λ cell, (cell, num)) <$>
           notedCells notes num
             (fishAffected candidates num
                (fishCells candidates num (set_of_list (p1 ++ p2 ++ p3))
                   [c1; c2; c3])
                getRowIndices (set_of_list (p1 ++ p2 ++ p3)))).

(** *** A hint comes from a scanned pattern *)

Section scan.
Variables (grid : list Z) (candidates notes : list (list Z)).

Local Abbreviation scanned' := (scanned grid candidates notes).

(** The hint of a pattern whose elimination is the list of the goal. *)
Ltac found_pattern :=
  eexists; split; [|split; [reflexivity|by apply positive_length_nonempty]].

Lemma findPointingPairs_scanned (h : Hint) :
  findPointingPairs grid candidates notes = Some h →
  ∃ l, scanned' PointingPairs l ∧ notesToRemove h = Some l ∧ l ≠ [].
Proof.
  unfold findPointingPairs.
  intros (boxRow & HbR%elem_of_seq &
          (boxCol & HbC%elem_of_seq &
           (num & Hnum & H)%firstSome_Some)%firstSome_Some)%firstSome_Some.
  revert H. unfold pointingAt. cbv zeta.
  case_decide as Hplaced; [done|]. case_decide as Hlen; [done|].
  destruct (filter _ _) as [|first rest] eqn:Hf; [done|].
  destruct (match set_of_list ((λ i, row (getCellInfo i)) <$> first :: rest)
            with [r] => _ | _ => None end) as [h'|] eqn:Hrow.
  - intros H. apply (inj Some) in H. subst h'.
    destruct (set_of_list ((λ i, row (getCellInfo i)) <$> first :: rest))
      as [|r [|]] eqn:Hset; try done.
    revert Hrow. unfold pointingAlong. cbv zeta. case_decide as Hpos; [|done].
    intros H. hint_found H. found_pattern.
    apply (pointing_row _ _ _ boxRow boxCol num r);
      rewrite ?Hf; try done; lia.
  - destruct (set_of_list ((λ i, col (getCellInfo i)) <$> first :: rest))
      as [|c [|]] eqn:Hset; try done.
    unfold pointingAlong. cbv zeta. case_decide as Hpos; [|done].
    intros H. hint_found H. found_pattern.
    apply (pointing_col _ _ _ boxRow boxCol num c);
      rewrite ?Hf; try done; lia.
Qed.

Lemma nakedPairsUnit_scanned (u : list nat) (name : string) (h : Hint) :
  u ∈ allUnits →
  nakedPairsUnit grid candidates notes u name = Some h →
  ∃ l, scanned' NakedPairs l ∧ notesToRemove h = Some l ∧ l ≠ [].
Proof.
  intros Hu. unfold nakedPairsUnit. cbv zeta.
  intros ([cellA cellB] & Hin & H)%firstSome_Some.
  cbv beta iota delta [fst snd] in H.
  destruct (candidates !!! cellA) as [|a0 [|a1 [|]]] eqn:HcA; try done.
  destruct (candidates !!! cellB) as [|b0 [|b1 [|]]] eqn:HcB; try done.
  case_decide as Heq; [|done]. destruct Heq as [<- <-].
  case_decide as Hpos; [|done]. hint_found H. found_pattern.
  by apply (naked_pair _ _ _ u cellA cellB a0 a1).
Qed.

Lemma hiddenPairsUnit_scanned (u : list nat) (name : string) (h : Hint) :
  u ∈ allUnits →
  hiddenPairsUnit grid candidates notes u name = Some h →
  ∃ l, scanned' HiddenPairs l ∧ notesToRemove h = Some l ∧ l ≠ [].
Proof.
  intros Hu. unfold hiddenPairsUnit. cbv zeta.
  intros ([n1 n2] & Hin & H)%firstSome_Some.
  cbv beta iota delta [fst snd] in H.
  destruct (filter (λ i, n1 ∈ candidates !!! i) _)
    as [|p0 [|p1 [|]]] eqn:Hf1; try done.
  destruct (filter (λ i, n2 ∈ candidates !!! i) _)
    as [|q0 [|q1 [|]]] eqn:Hf2; try done.
  case_decide as Heq; [|done]. destruct Heq as [<- <-].
  case_decide as Hpos; [|done]. hint_found H. found_pattern.
  by apply (hidden_pair _ _ _ u n1 n2 p0 p1).
Qed.

Lemma nakedTriplesUnit_scanned (u : list nat) (name : string) (h : Hint) :
  u ∈ allUnits →
  nakedTriplesUnit grid candidates notes u name = Some h →
  ∃ l, scanned' NakedTriples l ∧ notesToRemove h = Some l ∧ l ≠ [].
Proof.
  intros Hu. unfold nakedTriplesUnit. cbv zeta.
  intros ([[a b] c] & Hin & H)%firstSome_Some.
  cbv beta iota delta [fst snd] in H.
  case_decide as Hlen; [|done]. case_decide as Hpos; [|done].
  hint_found H. found_pattern.
  by apply (naked_triple _ _ _ u a b c).
Qed.

Lemma hiddenTriplesUnit_scanned (u : list nat) (name : string) (h : Hint) :
  u ∈ allUnits →
  hiddenTriplesUnit grid candidates notes u name = Some h →
  ∃ l, scanned' HiddenTriples l ∧ notesToRemove h = Some l ∧ l ≠ [].
Proof.
  intros Hu. unfold hiddenTriplesUnit. cbv zeta.
  intros ([[n1 n2] n3] & Hin & H)%firstSome_Some.
  cbv beta iota delta [fst snd] in H.
  destruct (filter _ _) as [|c0 [|c1 [|c2 [|]]]] eqn:Hf; try done.
  case_decide as Hpos; [|done]. hint_found H. found_pattern.
  by apply (hidden_triple _ _ _ u n1 n2 n3 c0 c1 c2).
Qed.

Lemma findXWing_scanned (h : Hint) :
  findXWing grid candidates notes = Some h →
  ∃ l, scanned' XWing l ∧ notesToRemove h = Some l ∧ l ≠ [].
Proof.
  unfold findXWing. intros (num & Hnum & H)%firstSome_Some.
  destruct (xWingRows candidates notes num) as [h'|] eqn:Hrows.
  - apply (inj Some) in H. subst h'. revert Hrows.
    unfold xWingRows. cbv zeta.
    intros (row1 & Hrow1%elem_of_seq & H)%firstSome_Some.
    destruct (filter _ (getRowIndices row1)) as [|x0 [|x1 [|]]] eqn:Hf1;
      try done.
    apply firstSome_Some in H as (row2 & Hrow2%elem_of_seq & H).
    destruct (filter _ (getRowIndices row2)) as [|y0 [|y1 [|]]] eqn:Hf2;
      try done.
    case_decide as Hcols; [|done]. destruct Hcols as [Hc0 Hc1].
    case_decide as Hpos; [|done]. hint_found H. found_pattern.
    apply (x_wing_rows _ _ _ num row1 row2 x0 x1 y0 y1); try done; lia.
  - revert H. unfold xWingCols. cbv zeta.
    intros (col1 & Hcol1%elem_of_seq & H)%firstSome_Some.
    destruct (filter _ (getColIndices col1)) as [|x0 [|x1 [|]]] eqn:Hf1;
      try done.
    apply firstSome_Some in H as (col2 & Hcol2%elem_of_seq & H).
    destruct (filter _ (getColIndices col2)) as [|y0 [|y1 [|]]] eqn:Hf2;
      try done.
    case_decide as Hrows'; [|done]. destruct Hrows' as [Hr0 Hr1].
    case_decide as Hpos; [|done]. hint_found H. found_pattern.
    apply (x_wing_cols _ _ _ num col1 col2 x0 x1 y0 y1); try done; lia.
Qed.

Lemma yWingCheck_scanned (pivot wing1 wing2 : nat) (a b x y : Z) (h : Hint) :
  pivot ∈ filter (λ i, grid !! i = Some 0%Z ∧
                       length (candidates !!! i) = 2) (seq 0 81) →
  candidates !!! pivot = [a; b] →
  (wing1, wing2)
  ∈ pairs (filter (λ cell, cell ≠ pivot ∧ cellsSeeEachOther pivot cell ∧
                           bool_decide (a ∈ candidates !!! cell)
                           ≠ bool_decide (b ∈ candidates !!! cell))
             (filter (λ i, grid !! i = Some 0%Z ∧
                           length (candidates !!! i) = 2) (seq 0 81))) →
  (x = a ∧ y = b) ∨ (x = b ∧ y = a) →
  yWingCheck grid candidates notes pivot wing1 wing2 a b x y = Some h →
  ∃ l, scanned' YWing l ∧ notesToRemove h = Some l ∧ l ≠ [].
Proof.
  intros Hp Hcp Hw Hxy. unfold yWingCheck.
  case_decide as Hin; [|done]. destruct Hin as [Hx Hy]. cbv zeta.
  destruct (head (filter (λ n, n ≠ x) _)) as [c|] eqn:Hc1; [|done].
  case_decide as Hc2; [|done]. case_decide as Hpos; [|done].
  intros H. hint_found H. found_pattern.
  by apply (y_wing _ _ _ pivot wing1 wing2 a b x y c).
Qed.

Lemma findYWing_scanned (h : Hint) :
  findYWing grid candidates notes = Some h →
  ∃ l, scanned' YWing l ∧ notesToRemove h = Some l ∧ l ≠ [].
Proof.
  unfold findYWing. cbv zeta. intros (pivot & Hp & H)%firstSome_Some.
  destruct (candidates !!! pivot) as [|a [|b [|]]] eqn:Hcp; try done.
  apply firstSome_Some in H as ([w1 w2] & Hw & H).
  cbv beta iota delta [fst snd] in H.
  destruct (yWingCheck grid candidates notes pivot w1 w2 a b a b)
    as [h'|] eqn:Hab.
  - apply (inj Some) in H. subst h'.
    apply (yWingCheck_scanned pivot w1 w2 a b a b); auto.
  - apply (yWingCheck_scanned pivot w1 w2 a b b a); auto.
Qed.

Lemma findSwordfish_scanned (h : Hint) :
  findSwordfish grid candidates notes = Some h →
  ∃ l, scanned' Swordfish l ∧ notesToRemove h = Some l ∧ l ≠ [].
Proof.
  unfold findSwordfish. intros (num & Hnum & H)%firstSome_Some.
  destruct (swordfishRows candidates notes num) as [h'|] eqn:Hrows.
  - apply (inj Some) in H. subst h'. revert Hrows.
    unfold swordfishRows. cbv zeta.
    intros ([[[r1 p1] [r2 p2]] [r3 p3]] & Ht & H)%firstSome_Some.
    cbv beta iota delta [fst snd] in H.
    case_decide as Hlen; [|done]. case_decide as Hpos; [|done].
    hint_found H. found_pattern.
    by apply (swordfish_rows _ _ _ num r1 r2 r3 p1 p2 p3).
  - revert H. unfold swordfishCols. cbv zeta.
    intros ([[[c1 p1] [c2 p2]] [c3 p3]] & Ht & H)%firstSome_Some.
    cbv beta iota delta [fst snd] in H.
    case_decide as Hlen; [|done]. case_decide as Hpos; [|done].
    hint_found H. found_pattern.
    by apply (swordfish_cols _ _ _ num c1 c2 c3 p1 p2 p3).
Qed.

Lemma detect_scanned (d : Detector) (h : Hint) :
  detect d grid candidates notes = Some h →
  ∃ l, scanned' d l ∧ notesToRemove h = Some l ∧ l ≠ [].
Proof.
  destruct d; cbn [detect].
  - apply findPointingPairs_scanned.
  - intros (u & name & Hu & H)%scanUnits_Some.
    by apply (nakedPairsUnit_scanned u name).
  - intros (u & name & Hu & H)%scanUnits_Some.
    by apply (hiddenPairsUnit_scanned u name).
  - intros (u & name & Hu & H)%scanUnits_Some.
    by apply (nakedTriplesUnit_scanned u name).
  - intros (u & name & Hu & H)%scanUnits_Some.
    by apply (hiddenTriplesUnit_scanned u name).
  - apply findXWing_scanned.
  - apply findYWing_scanned.
  - apply findSwordfish_scanned.
Qed.

(** *** A scanned pattern that removes a note gives a hint *)

Lemma nonempty_positive_length {A : Type} (l : list A) : l ≠ [] → 0 < length l.
Proof. destruct l; [done|simpl; lia]. Qed.

Lemma scanUnits_is_Some (checkUnit : list nat → string → option Hint)
    (u : list nat) :
  u ∈ allUnits → (∀ name, is_Some (checkUnit u name)) →
  is_Some (scanUnits checkUnit).
Proof.
  intros Hu H. unfold scanUnits.
  apply (units_is_Some _ _ _ (λ u, ∀ name, is_Some (checkUnit u name)) u);
    [by (intros; auto)..|done|done].
Qed.

Lemma scanned_detect (d : Detector) (l : list (nat * Z)) :
  scanned' d l → l ≠ [] → is_Some (detect d grid candidates notes).
Proof.
  intros Hs Hl%nonempty_positive_length.
  destruct Hs as
    [ boxRow boxCol num r HbR HbC Hnum Hplaced Hlen Hset
    | boxRow boxCol num c HbR HbC Hnum Hplaced Hlen Hset
    | u cellA cellB a0 a1 Hu Hin HcA HcB
    | u n1 n2 p0 p1 Hu Hin Hf1 Hf2
    | u a b c Hu Hin Hlen
    | u n1 n2 n3 c0 c1 c2 Hu Hin Hf
    | num row1 row2 x0 x1 y0 y1 Hnum Hlt Hrow2 Hf1 Hf2 Hc0 Hc1
    | num col1 col2 x0 x1 y0 y1 Hnum Hlt Hcol2 Hf1 Hf2 Hr0 Hr1
    | pivot wing1 wing2 a b x y c Hp Hcp Hw Hxy Hx Hy Hc1 Hc2
    | num r1 r2 r3 p1 p2 p3 Hnum Hin Hlen
    | num c1 c2 c3 p1 p2 p3 Hnum Hin Hlen ];
    cbn [detect].
  - (* pointing, along a row *)
    unfold findPointingPairs.
    apply (firstSome_is_Some _ _ boxRow); [apply elem_of_seq; lia|].
    apply (firstSome_is_Some _ _ boxCol); [apply elem_of_seq; lia|].
    apply (firstSome_is_Some _ _ num); [done|].
    unfold pointingAt. cbv zeta.
    rewrite decide_False by done. rewrite decide_False by lia.
    destruct (filter _ (getBoxIndices boxRow boxCol)) as [|first rest] eqn:Hf;
      [simpl in Hlen; lia|].
    rewrite Hset. apply orElse_is_Some. left.
    unfold pointingAlong. cbv zeta. rewrite decide_True by done. by eexists.
  - (* pointing, along a column *)
    unfold findPointingPairs.
    apply (firstSome_is_Some _ _ boxRow); [apply elem_of_seq; lia|].
    apply (firstSome_is_Some _ _ boxCol); [apply elem_of_seq; lia|].
    apply (firstSome_is_Some _ _ num); [done|].
    unfold pointingAt. cbv zeta.
    rewrite decide_False by done. rewrite decide_False by lia.
    destruct (filter _ (getBoxIndices boxRow boxCol)) as [|first rest] eqn:Hf;
      [simpl in Hlen; lia|].
    rewrite Hset. apply orElse_is_Some. right.
    unfold pointingAlong. cbv zeta. rewrite decide_True by done. by eexists.
  - (* naked pair *)
    apply (scanUnits_is_Some _ u Hu). intros name.
    unfold nakedPairsUnit. cbv zeta.
    apply (firstSome_is_Some _ _ (cellA, cellB)); [done|].
    cbv beta iota delta [fst snd]. rewrite HcA, HcB.
    rewrite decide_True by done. rewrite decide_True by done. by eexists.
  - (* hidden pair *)
    apply (scanUnits_is_Some _ u Hu). intros name.
    unfold hiddenPairsUnit. cbv zeta.
    apply (firstSome_is_Some _ _ (n1, n2)); [done|].
    cbv beta iota delta [fst snd]. rewrite Hf1, Hf2.
    rewrite decide_True by done. rewrite decide_True by done. by eexists.
  - (* naked triple *)
    apply (scanUnits_is_Some _ u Hu). intros name.
    unfold nakedTriplesUnit. cbv zeta.
    apply (firstSome_is_Some _ _ (a, b, c)); [done|].
    cbv beta iota delta [fst snd].
    rewrite decide_True by done. rewrite decide_True by done. by eexists.
  - (* hidden triple *)
    apply (scanUnits_is_Some _ u Hu). intros name.
    unfold hiddenTriplesUnit. cbv zeta.
    apply (firstSome_is_Some _ _ (n1, n2, n3)); [done|].
    cbv beta iota delta [fst snd]. rewrite Hf.
    rewrite decide_True by done. by eexists.
  - (* X-Wing in two rows *)
    unfold findXWing. apply (firstSome_is_Some _ _ num); [done|].
    apply orElse_is_Some. left. unfold xWingRows. cbv zeta.
    apply (firstSome_is_Some _ _ row1); [apply elem_of_seq; lia|].
    rewrite Hf1. apply (firstSome_is_Some _ _ row2); [apply elem_of_seq; lia|].
    rewrite Hf2. rewrite decide_True by done. rewrite decide_True by done.
    by eexists.
  - (* X-Wing in two columns *)
    unfold findXWing. apply (firstSome_is_Some _ _ num); [done|].
    apply orElse_is_Some. right. unfold xWingCols. cbv zeta.
    apply (firstSome_is_Some _ _ col1); [apply elem_of_seq; lia|].
    rewrite Hf1. apply (firstSome_is_Some _ _ col2); [apply elem_of_seq; lia|].
    rewrite Hf2. rewrite decide_True by done. rewrite decide_True by done.
    by eexists.
  - (* Y-Wing *)
    unfold findYWing. cbv zeta.
    apply (firstSome_is_Some _ _ pivot); [done|]. rewrite Hcp.
    apply (firstSome_is_Some _ _ (wing1, wing2)); [done|].
    cbv beta iota delta [fst snd].
    assert (is_Some (yWingCheck grid candidates notes pivot wing1 wing2
                       a b x y)) as Hcheck.
    { unfold yWingCheck. rewrite decide_True by done. cbv zeta.
      rewrite Hc1. rewrite decide_True by done.
      rewrite decide_True by done. by eexists. }
    apply orElse_is_Some.
    destruct Hxy as [[-> ->]|[-> ->]]; [by left|by right].
  - (* Swordfish in three rows *)
    unfold findSwordfish. apply (firstSome_is_Some _ _ num); [done|].
    apply orElse_is_Some. left. unfold swordfishRows. cbv zeta.
    apply (firstSome_is_Some _ _ ((r1, p1), (r2, p2), (r3, p3))); [done|].
    cbv beta iota delta [fst snd].
    rewrite decide_True by done. rewrite decide_True by done. by eexists.
  - (* Swordfish in three columns *)
    unfold findSwordfish. apply (firstSome_is_Some _ _ num); [done|].
    apply orElse_is_Some. right. unfold swordfishCols. cbv zeta.
    apply (firstSome_is_Some _ _ ((c1, p1), (c2, p2), (c3, p3))); [done|].
    cbv beta iota delta [fst snd].
    rewrite decide_True by done. rewrite decide_True by done. by eexists.
Qed.

(** *** The notes of an elimination are notes of the player *)

Lemma scanned_recorded (d : Detector) (l : list (nat * Z)) (c : nat) (n : Z) :
  scanned' d l → (c, n) ∈ l → n ∈ notes !!! c.
Proof.
  intros Hs Hin. destruct Hs;
    first [ apply elem_of_notedCells in Hin as (-> & _ & Hn)
          | apply elem_of_notedIn in Hin as (_ & _ & Hn)
          | apply elem_of_otherNotes in Hin as (_ & Hn & _) ];
    exact Hn.
Qed.

End scan.

(** *** A hint needs a note to remove *)

(** C6: a hint of the pointing, pair, triple, wing and fish detectors
    comes from a structurally valid pattern of the detector's scan and
    removes the notes of that pattern's elimination, at least one, each
    a note of the player. A valid pattern whose elimination is empty is
    skipped and the scan goes on: the detector returns a hint exactly
    when some valid pattern of its scan, wherever it comes in the scan,
    has a note to remove. The hints of Last Free Cell, Naked Single and
    Hidden Single carry no note removal and are returned whenever the
    grid and the candidates show the pattern, with no condition on what
    the notes would lose. *)
Theorem elimination_hints_scan (grid : list Z) (notes : list (list Z)) :
  let candidates := getAllCandidates grid notes in
  (∀ d h, detect d grid candidates notes = Some h →
          ∃ l, scanned grid candidates notes d l ∧
               notesToRemove h = Some l ∧ l ≠ [] ∧
               ∀ c n, (c, n) ∈ l → n ∈ notes !!! c) ∧
  (∀ d, is_Some (detect d grid candidates notes)
        ↔ ∃ l, scanned grid candidates notes d l ∧ l ≠ []) ∧
  (∀ h, Some h ∈ [ findPointingPairs grid candidates notes;
                   findNakedPairs grid candidates notes;
                   findHiddenPairs grid candidates notes;
                   findNakedTriples grid candidates notes;
                   findHiddenTriples grid candidates notes;
                   findXWing grid candidates notes;
                   findYWing grid candidates notes;
                   findSwordfish grid candidates notes ] →
        removesNotes h) ∧
  (∀ h, Some h ∈ [ findLastFreeCell grid candidates;
                   findNakedSingle grid candidates;
                   findHiddenSingle grid candidates ] →
        notesToRemove h = None) ∧
  (∀ u cell v,
     u ∈ allUnits → filter (λ i, grid !! i = Some 0%Z) u = [cell] →
     head (candidates !!! cell) = Some v → v ≠ 0%Z →
     is_Some (findLastFreeCell grid candidates)) ∧
  (∀ i, i < 81 → grid !! i = Some 0%Z → length (candidates !!! i) = 1 →
        is_Some (findNakedSingle grid candidates)) ∧
  (∀ u num cell,
     u ∈ allUnits → num ∈ digits →
     ¬ Exists (λ i, grid !! i = Some num) u →
     filter (λ i, num ∈ candidates !!! i) u = [cell] →
     is_Some (findHiddenSingle grid candidates)).
Proof.
  intros candidates. split; [|split; [|split; [|split; [|split; [|split]]]]].
  - intros d h (l & Hs & Hl & Hne)%detect_scanned.
    exists l. repeat (split; [done|]).
    intros c n. by apply (scanned_recorded grid candidates notes d).
  - intros d. split.
    + intros [h (l & Hs & _ & Hne)%detect_scanned]. by exists l.
    + intros (l & Hs & Hne). by apply (scanned_detect _ _ _ d l).
  - intros h. rewrite !elem_of_cons, elem_of_nil.
    intros [H|[H|[H|[H|[H|[H|[H|[H|[]]]]]]]]]; symmetry in H;
      [ apply findPointingPairs_hint in H | apply findNakedPairs_hint in H
      | apply findHiddenPairs_hint in H | apply findNakedTriples_hint in H
      | apply findHiddenTriples_hint in H | apply findXWing_hint in H
      | apply findYWing_hint in H | apply findSwordfish_hint in H ];
      by destruct H.
  - intros h. rewrite !elem_of_cons, elem_of_nil.
    intros [H|[H|[H|[]]]]; symmetry in H;
      [ apply findLastFreeCell_hint in H | apply findNakedSingle_hint in H
      | apply findHiddenSingle_hint in H ];
      by destruct H.
  - apply findLastFreeCell_found.
  - apply findNakedSingle_found.
  - apply findHiddenSingle_found.
Qed.

(** The naked pair of cells 0 and 1, in box 1 of the empty grid with the
    notes {1,2} in cells 0 and 1 and {1,5} in cell 9, removes the note 1
    of cell 9: [findNakedPairs] returns a hint, although the same pair is
    met before in row 1, where its elimination is empty. *)
Lemma elimination_hints_scan_witness :
  nakedPairsUnit (replicate 81 0%Z)
    (getAllCandidates (replicate 81 0%Z)
       [[1; 2]; [1; 2]; []; []; []; []; []; []; []; [1; 5]]%Z)
    [[1; 2]; [1; 2]; []; []; []; []; []; []; []; [1; 5]]%Z
    (getRowIndices 0) "row 1" = None ∧
  is_Some (findNakedPairs (replicate 81 0%Z)
             (getAllCandidates (replicate 81 0%Z)
                [[1; 2]; [1; 2]; []; []; []; []; []; []; []; [1; 5]]%Z)
             [[1; 2]; [1; 2]; []; []; []; []; []; []; []; [1; 5]]%Z).
Proof.
  split; [by vm_compute|].
  apply (proj2 (proj1 (proj2 (elimination_hints_scan (replicate 81 0%Z)
                  [[1; 2]; [1; 2]; []; []; []; []; []; []; []; [1; 5]]%Z))
                  NakedPairs)).
  eexists. split.
  - apply (naked_pair _ _ _ (getBoxIndices 0 0) 0 1 1%Z 2%Z).
    + apply box_in_units; lia.
    + vm_compute. in_list.
    + by vm_compute.
    + by vm_compute.
  - vm_compute. discriminate.
Defined.

(** The same in [findXWing]: on the empty grid, with the notes {1,2} in
    the first two cells of rows 1 and 2, {3} in their other cells and
    {2,4} in cell 18, the X-Wing on 1 in rows 1 and 2 is valid and has no
    note to remove; the scan goes on to the X-Wing on 2, which removes
    the note 2 of cell 18. *)
Example findXWing_scanning_continues :
  let grid := replicate 81 0%Z in
  let notes :=
    ([[1; 2]; [1; 2]] ++ replicate 7 [3] ++
     [[1; 2]; [1; 2]] ++ replicate 7 [3] ++ [[2; 4]])%Z in
  let candidates := getAllCandidates grid notes in
  (∃ l, scanned grid candidates notes XWing l ∧ l = []) ∧
  ∃ h, findXWing grid candidates notes = Some h ∧
       cellIndex h = 0 ∧ notesToRemove h = Some [(18, 2%Z)] ∧
       explanation h
       = "X-Wing on 2 in rows 1 & 2, columns 1 & 2. Remove 2 from other cells in these columns.".
Proof.
  intros grid notes candidates. split.
  - eexists. split.
    + apply (x_wing_rows _ _ _ 1%Z 0 1 0 1 9 10);
        [in_list|lia|lia|by vm_compute..].
    + by vm_compute.
  - eexists. split; [vm_compute; reflexivity|]. by vm_compute.
Qed.

End HintsScan.

(** ** Properties of a move *)

Module GameFacts.
Import JS Hints Game SudokuFacts SudokuMore HintsMore HintsSound.






(** X23: the cells [checkCompletions] animates after a placement in a
    cell of the grid lie in the row, column or box of that cell, and none
    of them is empty. *)
Theorem cellsToAnimate_spec (index : nat) (g : list Z) (i : nat) :
  index < 81 → i ∈ cellsToAnimate index g →
  i < 81 ∧ related index i = true ∧ g !! i ≠ Some 0%Z.
Proof.
  intros Hindex. unfold cellsToAnimate. cbv zeta.
  destruct (own_row_unit index Hindex) as [Hr Hru].
  destruct (own_col_unit index Hindex) as [Hc Hcu].
  assert (index ∈ Sudoku.getBoxIndices ((index `div` 9) `div` 3)
                    ((index `mod` 9) `div` 3) ∧
          Sudoku.getBoxIndices ((index `div` 9) `div` 3)
            ((index `mod` 9) `div` 3) ∈ units) as [Hb Hbu].
  { split; [apply elem_of_getBoxIndices; [div_lia|done]|].
    apply box_in_units; div_lia. }
  cbn [getCellInfo row col] in Hr, Hru, Hc, Hcu.
  assert (∀ u, u ∈ units → index ∈ u →
               i ∈ (if Sudoku.isGroupComplete g u then u else []) →
               i < 81 ∧ related index i = true ∧ g !! i ≠ Some 0%Z) as Hunit.
  { intros u Hu Hin. destruct (Sudoku.isGroupComplete g u) eqn:Hcomplete;
      [|by intros ?%elem_of_nil].
    intros Hi. destruct (unit_facts u Hu) as (_ & Hlen & Hlt).
    apply isGroupComplete_nine in Hcomplete as [Hnz _]; [|done].
    split; [by destruct (Hlt i Hi)|]. split; [by apply (same_unit_related u)|].
    by apply Hnz. }
  rewrite !elem_of_app.
  intros [Hi|[Hi|Hi]];
    [exact (Hunit _ Hru Hr Hi)|exact (Hunit _ Hcu Hc Hi)
    |exact (Hunit _ Hbu Hb Hi)].
Qed.

Lemma cellsToAnimate_spec_witness :
  36 < 81 ∧ related 40 36 = true ∧ referenceGrid !! 36 ≠ Some 0%Z.
Proof.
  apply (cellsToAnimate_spec 40 referenceGrid 36); [lia|].
  vm_compute. in_list.
Defined.

End GameFacts.

(** ** The cell a hint points at *)

Module HintCells.
Import JS Hints SudokuFacts SudokuMore HintsFacts HintsMore HintsSound.

(** The hint points at an empty cell of the grid. *)
Definition namesEmptyCell (g : list Z) (h : Hint) : Prop :=
  cellIndex h < 81 ∧ g !! cellIndex h = Some 0%Z.

(** As [each_hint], keeping what each loop ranges over. *)
Ltac each_hint_in :=
  repeat first
    [ progress cbv beta zeta
    | match goal with
      | |- None = Some _ → _ => discriminate
      | |- Some _ = Some _ → _ =>
          let H := fresh in intros H; hint_found H
      | |- firstSome _ _ = Some ?h → ?G =>
          let P := eval pattern h in G in
          match P with ?F _ => apply (firstSome_all F); intros ? ? ? end
      | |- match _ with Some r => Some r | None => _ end = Some ?h → ?G =>
          let P := eval pattern h in G in
          match P with ?F _ => apply (orElse_all F) end
      | |- match ?x with _ => _ end = Some _ → _ => destruct x eqn:?
      end ].

Section cells.
Variable g : list Z.
Variable notes : list (list Z).

Local Abbreviation candidates := (getAllCandidates g notes).

Lemma candidate_names (c : nat) (n : Z) :
  n ∈ candidates !!! c → c < 81 ∧ g !! c = Some 0%Z.
Proof. apply candidate_empty_cell. Qed.

Lemma some_candidate_names (c : nat) :
  0 < length (candidates !!! c) → c < 81 ∧ g !! c = Some 0%Z.
Proof.
  destruct (candidates !!! c) as [|n l] eqn:Hc; [simpl; lia|]. intros _.
  apply (candidate_names c n). rewrite Hc. left.
Qed.

Lemma head_filter {A : Type} (P : A → Prop) `{∀ x, Decision (P x)}
    (l rest : list A) (x : A) :
  filter P l = x :: rest → P x ∧ x ∈ l.
Proof.
  intros Hf. apply (proj1 (list_elem_of_filter P l x)). rewrite Hf. left.
Qed.

Ltac names_goal := unfold namesEmptyCell; cbn [cellIndex].

(** The first cell of a filtered list of cells that keep a candidate. *)
Ltac first_filtered :=
  match goal with
  | H : filter _ _ = ?c :: _ |- ?c < 81 ∧ _ =>
      apply head_filter in H as [H _]; cbv beta in H;
      first [ by apply (candidate_names _ _ H)
            | destruct H as [H|[H|H]]; by apply (candidate_names _ _ H) ]
  end.

Lemma findInvalidNotes_cell (h : Hint) :
  findInvalidNotes g notes candidates = Some h → namesEmptyCell g h.
Proof.
  unfold findInvalidNotes, invalidNotesAt. each_hint_in. names_goal.
  match goal with H : _ ∈ seq 0 81 |- _ => apply elem_of_seq in H end.
  split; [lia|]. by apply dec_stable.
Qed.

Lemma findLastFreeCell_cell (h : Hint) :
  findLastFreeCell g candidates = Some h → namesEmptyCell g h.
Proof.
  unfold findLastFreeCell, lastFreeCellIn. each_hint_in; names_goal;
    match goal with
    | H : head (_ !!! ?c) = Some ?v |- ?c < 81 ∧ _ =>
        apply (candidate_names c v); by apply head_Some_elem_of
    end.
Qed.

Lemma findNakedSingle_cell (h : Hint) :
  findNakedSingle g candidates = Some h → namesEmptyCell g h.
Proof.
  unfold findNakedSingle, nakedSingleAt. each_hint_in; names_goal.
  apply some_candidate_names. lia.
Qed.

Lemma findHiddenSingle_cell (h : Hint) :
  findHiddenSingle g candidates = Some h → namesEmptyCell g h.
Proof.
  unfold findHiddenSingle, hiddenSingleIn.
  each_hint_in; names_goal; first_filtered.
Qed.

Lemma findPointingPairs_cell (h : Hint) :
  findPointingPairs g candidates notes = Some h → namesEmptyCell g h.
Proof.
  unfold findPointingPairs, pointingAt, pointingAlong.
  each_hint_in; names_goal; first_filtered.
Qed.

Lemma findNakedPairs_cell (h : Hint) :
  findNakedPairs g candidates notes = Some h → namesEmptyCell g h.
Proof.
  unfold findNakedPairs, scanUnits, nakedPairsUnit.
  each_hint_in; names_goal; apply some_candidate_names;
    match goal with
    | H : _ !!! ?c = _ :: _ |- 0 < length (_ !!! ?c) => rewrite H; simpl; lia
    end.
Qed.

Lemma findNakedTriples_cell (h : Hint) :
  findNakedTriples g candidates notes = Some h → namesEmptyCell g h.
Proof.
  unfold findNakedTriples, scanUnits, nakedTriplesUnit.
  each_hint_in; names_goal;
    match goal with
    | H : ?t ∈ triples _ |- _ =>
        destruct t as [[a b] c];
        apply elem_of_triples in H as (H & _);
        apply list_elem_of_filter in H as [[_ [H _]] _]
    end;
    apply some_candidate_names; cbn [fst]; lia.
Qed.

Lemma findHiddenPairs_cell (h : Hint) :
  findHiddenPairs g candidates notes = Some h → namesEmptyCell g h.
Proof.
  unfold findHiddenPairs, scanUnits, hiddenPairsUnit.
  each_hint_in; names_goal; first_filtered.
Qed.

Lemma findHiddenTriples_cell (h : Hint) :
  findHiddenTriples g candidates notes = Some h → namesEmptyCell g h.
Proof.
  unfold findHiddenTriples, scanUnits, hiddenTriplesUnit.
  each_hint_in; names_goal; first_filtered.
Qed.

Lemma findXWing_cell (h : Hint) :
  findXWing g candidates notes = Some h → namesEmptyCell g h.
Proof.
  unfold findXWing, xWingRows, xWingCols.
  each_hint_in; names_goal;
    match goal with
    | H : filter _ (_ ?line) = ?c :: _ |- ?c < 81 ∧ _ =>
        apply head_filter in H as [H _]; by apply (candidate_names _ _ H)
    end.
Qed.

Lemma findYWing_cell (h : Hint) :
  findYWing g candidates notes = Some h → namesEmptyCell g h.
Proof.
  unfold findYWing, yWingCheck.
  each_hint_in; names_goal; apply some_candidate_names;
    match goal with
    | H : _ !!! ?c = _ :: _ |- 0 < length (_ !!! ?c) => rewrite H; simpl; lia
    end.
Qed.

Lemma default_head_elem (P : nat → Prop) (l : list nat) (x : nat) :
  x ∈ l → (∀ y, y ∈ l → P y) → P (default 0 (head l)).
Proof.
  destruct l as [|y l]; [by intros ?%elem_of_nil|]. intros _ H. apply H. left.
Qed.

(** [swordfishCells[0]] is defined: the first of the three lines has a
    place on one of the three crossing lines. *)
Lemma swordfishRows_cell (num : Z) (h : Hint) :
  swordfishRows candidates notes num = Some h → namesEmptyCell g h.
Proof.
  unfold swordfishRows. cbv zeta.
  intros ([[[r1 p1] [r2 p2]] [r3 p3]] & Ht & H)%firstSome_Some.
  apply elem_of_line_triples in Ht as (_ & _ & _ & _ & _ & _ & Hplaces).
  cbv beta iota delta [fst snd] in H.
  case_decide as Hlen; [|done]. case_decide; [|done]. hint_found H.
  names_goal.
  destruct (Hplaces r1 p1) as [Hlen1 Hp1]; [in_list|].
  destruct (filter (λ i, num ∈ candidates !!! i) (getRowIndices r1))
    as [|i rest] eqn:Hf; [subst p1; simpl in Hlen1; lia|].
  pose proof (head_filter _ _ _ _ Hf) as [Hc Hi].
  apply (default_head_elem (λ c, c < 81 ∧ g !! c = Some 0%Z) _ i).
  - apply list_elem_of_bind. exists r1. split; [|in_list].
    apply list_elem_of_filter. split; [done|].
    apply list_elem_of_fmap. exists (col (getCellInfo i)). split.
    + apply elem_of_getRowIndices in Hi. cbn [getCellInfo col]. div_lia.
    + apply elem_of_set_of_list, elem_of_app. left. subst p1.
      apply (list_elem_of_fmap_2 (λ i, col (getCellInfo i))). left.
  - intros x (r & [Hx _]%list_elem_of_filter & _)%list_elem_of_bind.
    by apply (candidate_names x num).
Qed.

Lemma swordfishCols_cell (num : Z) (h : Hint) :
  swordfishCols candidates notes num = Some h → namesEmptyCell g h.
Proof.
  unfold swordfishCols. cbv zeta.
  intros ([[[c1 p1] [c2 p2]] [c3 p3]] & Ht & H)%firstSome_Some.
  apply elem_of_line_triples in Ht as (Hc1 & _ & _ & _ & _ & _ & Hplaces).
  cbv beta iota delta [fst snd] in H.
  case_decide as Hlen; [|done]. case_decide; [|done]. hint_found H.
  names_goal.
  destruct (Hplaces c1 p1) as [Hlen1 Hp1]; [in_list|].
  destruct (filter (λ i, num ∈ candidates !!! i) (getColIndices c1))
    as [|i rest] eqn:Hf; [subst p1; simpl in Hlen1; lia|].
  pose proof (head_filter _ _ _ _ Hf) as [Hc Hi].
  apply (default_head_elem (λ c, c < 81 ∧ g !! c = Some 0%Z) _ i).
  - apply list_elem_of_bind. exists (row (getCellInfo i)). split.
    + apply list_elem_of_filter. split; [done|].
      apply list_elem_of_fmap. exists c1. split; [|in_list].
      apply elem_of_getColIndices in Hi; [|done].
      cbn [getCellInfo row]. div_lia.
    + apply elem_of_set_of_list, elem_of_app. left. subst p1.
      apply (list_elem_of_fmap_2 (λ i, row (getCellInfo i))). left.
  - intros x (r & [Hx _]%list_elem_of_filter & _)%list_elem_of_bind.
    by apply (candidate_names x num).
Qed.

Lemma findSwordfish_cell (h : Hint) :
  findSwordfish g candidates notes = Some h → namesEmptyCell g h.
Proof.
  intros (num & _ & [H|H])%findSwordfish_inv;
    [by apply (swordfishRows_cell num)|by apply (swordfishCols_cell num)].
Qed.

End cells.

(** X24: whatever the state of the game, the cell a hint of [getHint]
    points at is an empty cell of the grid; for a Swordfish hint, whose
    cell is the first of the pattern's cells, that first cell exists. *)
Theorem getHint_names_empty_cell (g solution : list Z)
    (notes : list (list Z)) (h : Hint) :
  getHint g solution notes = Some h →
  cellIndex h < 81 ∧ g !! cellIndex h = Some 0%Z.
Proof.
  intros Hh. change (namesEmptyCell g h).
  apply getHint_cases in Hh. cbv zeta in Hh.
  destruct Hh as [H|[H|[H|[H|[H|[H|[H|[H|[H|[H|[H|H]]]]]]]]]]].
  - by apply (findInvalidNotes_cell g notes).
  - by apply (findLastFreeCell_cell g notes).
  - by apply (findNakedSingle_cell g notes).
  - by apply (findHiddenSingle_cell g notes).
  - by apply (findPointingPairs_cell g notes).
  - by apply (findNakedPairs_cell g notes).
  - by apply (findHiddenPairs_cell g notes).
  - by apply (findNakedTriples_cell g notes).
  - by apply (findHiddenTriples_cell g notes).
  - by apply (findXWing_cell g notes).
  - by apply (findYWing_cell g notes).
  - by apply (findSwordfish_cell g notes).
Qed.

Lemma getHint_names_empty_cell_witness :
  ∃ h, getHint (<[40:=0%Z]> referenceGrid) referenceGrid [] = Some h ∧
       cellIndex h < 81 ∧
       <[40:=0%Z]> referenceGrid !! cellIndex h = Some 0%Z.
Proof.
  eexists. split; [vm_compute; reflexivity|].
  apply (getHint_names_empty_cell (<[40:=0%Z]> referenceGrid) referenceGrid []).
  vm_compute. reflexivity.
Defined.


End HintCells.
